(** * Hybrid movie search: pipeline construction, score normalisation and merge

    A shallow embedding of [app/movie_service.py] (the search half of the
    service) together with the properties stated for it, followed by the
    rest of the service, the endpoints of [app/main.py] and the ingestion
    loop of [app/ingest.py] with further properties.

    Modelling conventions.
    - A MongoDB document is a Python [dict] from field names to BSON values:
      [gmap string value].
    - A Python [float] is a binary64 float: the primitive type [float] with
      the processor's operations.  A decimal literal such as [0.6] or [1e-6]
      denotes the nearest binary64 value, as it does in Python.  A Python
      [int] is an integer of any size ([Z]); arithmetic that mixes the two
      converts the [int], and comparison of the two is exact.
    - The embedding vectors are passed through and never computed with; they
      are lists of rationals.
    - The dictionaries [normalized], [vector_scores], [text_scores] and
      [result_map] are insertion-ordered and are iterated ([.items()],
      [.values()]): they are association lists with Python's assignment
      semantics (an existing key keeps its position and its key object).
    - Exceptions are values of [exn]; fallible code returns [result].
    - [collection.aggregate] and [model.encode] are the two collaborators of
      the service.  They are parameters of the model, and every call to them
      is recorded in a call log threaded through the service functions.
    - [SearchResult] is a pydantic model: constructing one validates the
      keyword arguments, and the validation is part of the embedding. *)

From Stdlib Require Import ZArith QArith Lia DecimalString Floats.
From stdpp Require Import gmap strings list sorting.

Set Warnings "-inexact-float".
Local Open Scope string_scope.

(** ** BSON values and documents *)

Inductive value :=
| VNone
| VInt (z : Z)
| VFloat (x : float)
| VStr (s : string)
| VOid (hex : string)
| VList (l : list string).

Abbreviation document := (gmap string value).

(** [d.get(key, default)] *)
Definition get (d : document) (key : string) (default : value) : value :=
  match d !! key with
  | Some v => v
  | None => default
  end.

(** [d.get(key)]: the default is [None]. *)
Definition get_none (d : document) (key : string) : value := get d key VNone.

(** ** Numbers *)

(** A Python number. *)
Inductive number :=
| Int (z : Z)
| Float (x : float).

Definition as_number (v : value) : option number :=
  match v with
  | VInt z => Some (Int z)
  | VFloat x => Some (Float x)
  | _ => None
  end.

(** The exact value of a number.  Every finite binary64 float is an integer
    multiple of the least positive one, [2^-1074], and so is every integer:
    a finite value is given as that multiple. *)
Inductive exact :=
| Finite (n : Z)
| PlusInf
| MinusInf
| NotANumber.

Definition sf_exact (x : spec_float) : exact :=
  match x with
  | S754_zero _ => Finite 0
  | S754_finite s m e => Finite (cond_Zopp s (Z.pos m * 2 ^ (e + 1074)))
  | S754_infinity s => if s then MinusInf else PlusInf
  | S754_nan => NotANumber
  end.

Definition float_exact (x : float) : exact := sf_exact (Prim2SF x).

Definition exact_of (n : number) : exact :=
  match n with
  | Int z => Finite (z * 2 ^ 1074)
  | Float x => float_exact x
  end.

(** The order of exact values; a NaN is not comparable. *)
Definition exact_compare (a b : exact) : option comparison :=
  match a, b with
  | NotANumber, _ | _, NotANumber => None
  | Finite m, Finite n => Some (m ?= n)%Z
  | MinusInf, MinusInf | PlusInf, PlusInf => Some Eq
  | MinusInf, _ | _, PlusInf => Some Lt
  | PlusInf, _ | _, MinusInf => Some Gt
  end.

(** [a < b] and [a == b] on numbers: two floats are compared by the
    processor, an [int] and a [float] by their exact values. *)
Definition num_lt (a b : number) : bool :=
  match a, b with
  | Int x, Int y => (x <? y)%Z
  | Float x, Float y => (x <? y)%float
  | _, _ =>
      match exact_compare (exact_of a) (exact_of b) with
      | Some Lt => true
      | _ => false
      end
  end.

Definition num_eq (a b : number) : bool :=
  match a, b with
  | Int x, Int y => (x =? y)%Z
  | Float x, Float y => (x =? y)%float
  | _, _ =>
      match exact_compare (exact_of a) (exact_of b) with
      | Some Eq => true
      | _ => false
      end
  end.

(** Python's [==] on values, as used for dictionary keys: numbers compare by
    value across [int] and [float], everything else structurally. *)
Definition py_eq (a b : value) : bool :=
  match as_number a, as_number b with
  | Some x, Some y => num_eq x y
  | None, None =>
      match a, b with
      | VNone, VNone => true
      | VStr s, VStr t => bool_decide (s = t)
      | VOid s, VOid t => bool_decide (s = t)
      | VList l, VList m => bool_decide (l = m)
      | _, _ => false
      end
  | _, _ => false
  end.

(** Lists are the only unhashable values. *)
Definition hashable (v : value) : bool :=
  match v with
  | VList _ => false
  | _ => true
  end.

(** ** Exceptions and results *)

(** [ValidationError] is the exception of the model classes; it is a
    subclass of [ValueError].  It carries the names of the fields that were
    rejected. *)
Inductive exn :=
| ValueError (msg : string)
| TypeError
| KeyError (key : string)
| StoreError (msg : string)
| OverflowError
| ZeroDivisionError
| ValidationError (fields : list string).

Inductive result (A : Type) :=
| Ok (a : A)
| Raise (e : exn).
Arguments Ok {A} a.
Arguments Raise {A} e.

Global Instance result_ret : MRet result := fun A a => Ok a.

Global Instance result_bind : MBind result := fun A B k r =>
  match r with
  | Ok a => k a
  | Raise e => Raise e
  end.

Global Instance result_fmap : FMap result := fun A B f r =>
  match r with
  | Ok a => Ok (f a)
  | Raise e => Raise e
  end.

(** ** Arithmetic on numbers *)

(** [float(z)] as arithmetic does it for an [int] operand: the nearest
    float, ties to even; an [int] beyond the floats raises. *)
Definition float_of_int (z : Z) : result float :=
  let x := SF2Prim (binary_normalize prec emax z 0 false) in
  if is_infinity x then Raise OverflowError else Ok x.

Definition to_float (n : number) : result float :=
  match n with
  | Int z => float_of_int z
  | Float x => Ok x
  end.

(** [a - b]: exact on two [int]s, the float subtraction otherwise. *)
Definition num_sub (a b : number) : result number :=
  match a, b with
  | Int x, Int y => Ok (Int (x - y))
  | _, _ =>
      x ← to_float a;
      y ← to_float b;
      Ok (Float (x - y)%float)
  end.

(** [a + y] for a float [y]. *)
Definition num_add_float (a : number) (y : float) : result float :=
  x ← to_float a;
  Ok (x + y)%float.

(** [a / y] for a float [y]: a zero divisor raises. *)
Definition num_div_float (a : number) (y : float) : result float :=
  x ← to_float a;
  if (y =? 0)%float then Raise ZeroDivisionError else Ok (x / y)%float.

(** ** Requests *)

Record SearchQuery := {
  query : string;
  top_k : option Z;
  year_gt : option Z;
  genre : option string;
  type : option string
}.

(** The copy of the request made at lines 103 and 104: every field as dumped,
    the key [type] overridden by [t]. *)
Definition with_type (q : SearchQuery) (t : string) : SearchQuery :=
  {| query := query q; top_k := top_k q; year_gt := year_gt q;
     genre := genre q; type := Some t |}.

(** ** Pipelines *)

Inductive filter_value :=
| Gt (y : Z)          (* the [$gt] operator document *)
| Equals (s : string).

Global Instance filter_value_eq_dec : EqDecision filter_value.
Proof. solve_decision. Defined.

Abbreviation filter_set := (gmap string filter_value).

Inductive stage :=
| VectorSearchStage (index path : string) (filter : filter_set)
    (queryVector : list Q) (numCandidates limit : Z)
| SearchStage (index query : string) (path : list string) (maxEdits : Z)
| MatchStage (filters : filter_set)
| ProjectStage (fields : list string) (score_meta : string)
| LimitStage (n : Z)
| EmptyStage.                                   (* the empty dict [{}] *)

Abbreviation pipeline := (list stage).

(** Truthiness of a stage dict: only [{}] is falsy. *)
Definition stage_truthy (s : stage) : bool :=
  match s with
  | EmptyStage => false
  | _ => true
  end.

Definition is_match (s : stage) : bool :=
  match s with
  | MatchStage _ => true
  | _ => false
  end.

Definition display_fields : list string :=
  ["_id"; "title"; "fullplot"; "writers"; "cast"; "rated"; "genres"; "year"].

(** Lines 51-55: the filter dict.  [if query.year_gt:] is false for [None] and
    for [0]; [if query.genre:] is false for [None] and for the empty string. *)
Definition build_filters (q : SearchQuery) : filter_set :=
  let filters : filter_set := ∅ in
  let filters :=
    match year_gt q with
    | Some y => if bool_decide (y ≠ 0%Z) then <["year" := Gt y]> filters else filters
    | None => filters
    end in
  match genre q with
  | Some g => if bool_decide (g ≠ "") then <["genres" := Equals g]> filters else filters
  | None => filters
  end.

(** Lines 50-99.  Both stage lists are built before the mode is looked at, so
    [query.top_k * 20] is evaluated in every mode; on [None] it raises
    [TypeError]. *)
Definition build_pipeline (q : SearchQuery) (embedding : list Q) : result pipeline :=
  let filters := build_filters q in
  match top_k q with
  | None => Raise TypeError
  | Some k =>
      let vector_pipeline :=
        [ VectorSearchStage "vector_index" "embedding" filters embedding
            (k * 20) k;
          ProjectStage display_fields "vectorSearchScore" ] in
      let text_pipeline :=
        [ SearchStage "default" (query q) ["fullplot"; "genres"; "title"] 2;
          (if bool_decide (filters ≠ ∅) then MatchStage filters else EmptyStage);
          ProjectStage display_fields "searchScore";
          LimitStage k ] in
      if bool_decide (type q = Some "vector") then Ok vector_pipeline
      else if bool_decide (type q = Some "text") then
        Ok (List.filter stage_truthy text_pipeline)
      else Raise (ValueError "Invalid search type")
  end.

(** ** Insertion-ordered dictionaries keyed by values *)

Module Dict.
Definition t (V : Type) := list (value * V).

Definition empty {V} : t V := [].

(** [d.get(k)] *)
Fixpoint lookup {V} (k : value) (d : t V) : option V :=
  match d with
  | [] => None
  | (k', v) :: d' => if py_eq k' k then Some v else lookup k d'
  end.

(** [k in d] *)
Definition mem {V} (k : value) (d : t V) : bool :=
  match lookup k d with
  | Some _ => true
  | None => false
  end.

(** [d[k] = v] for a hashable [k]: a key already present keeps its place and
    its key object, a new key goes to the end. *)
Fixpoint set {V} (k : value) (v : V) (d : t V) : t V :=
  match d with
  | [] => [(k, v)]
  | (k', v') :: d' =>
      if py_eq k' k then (k', v) :: d' else (k', v') :: set k v d'
  end.

(** In-place update of the value stored under [k] (as [d[k][...] += ...]
    does for a present key). *)
Fixpoint alter {V} (f : V → V) (k : value) (d : t V) : t V :=
  match d with
  | [] => []
  | (k', v') :: d' =>
      if py_eq k' k then (k', f v') :: d' else (k', v') :: alter f k d'
  end.

Definition items {V} (d : t V) : list (value * V) := d.
Definition keys {V} (d : t V) : list value := fst <$> d.
Definition values {V} (d : t V) : list V := snd <$> d.
End Dict.

(** [d[key]] on a document. *)
Definition getitem (d : document) (key : string) : result value :=
  match d !! key with
  | Some v => Ok v
  | None => Raise (KeyError key)
  end.

(** [d[k] = v] on an ordered dictionary: an unhashable key raises. *)
Definition setitem {V} (k : value) (v : V) (d : Dict.t V) : result (Dict.t V) :=
  if hashable k then Ok (Dict.set k v d) else Raise TypeError.

(** ** The score normaliser (lines 165-179) *)

(** An entry of the dictionaries built below: the Python dict with the keys
    [doc] and [score]. *)
Record scored := { doc : document; score : float }.

(** A value used in arithmetic or in a comparison of numbers. *)
Definition number_of (v : value) : result number :=
  match as_number v with
  | Some x => Ok x
  | None => Raise TypeError
  end.

(** [r.get(score_field, 0.0)] for a single document. *)
Definition raw_score (score_field : string) (r : document) : value :=
  get r score_field (VFloat 0).

(** Line 169, read together with lines 170-171: [min], [max] and the
    subtraction raise [TypeError] as soon as one collected score is not a
    number (a lone non-number survives [min] and [max] and fails in the
    subtraction), and comparisons of numbers raise nothing, so the scores are
    collected as numbers. *)
Fixpoint collect_scores (results : list document) (score_field : string)
  : result (list number) :=
  match results with
  | [] => Ok []
  | r :: rest =>
      x ← number_of (raw_score score_field r);
      xs ← collect_scores rest score_field;
      Ok (x :: xs)
  end.

(** The builtins [min] and [max] on a list: an item replaces the current
    extremum when it is smaller ([item < current]), respectively greater
    ([item > current]), so the first extremal element wins; an empty
    argument raises [ValueError]. *)
Definition py_min (l : list number) : result number :=
  match l with
  | [] => Raise (ValueError "min() arg is an empty sequence")
  | x :: l' =>
      Ok (fold_left (fun current item => if num_lt item current then item else current)
            l' x)
  end.

Definition py_max (l : list number) : result number :=
  match l with
  | [] => Raise (ValueError "max() arg is an empty sequence")
  | x :: l' =>
      Ok (fold_left (fun current item => if num_lt current item then item else current)
            l' x)
  end.

Definition epsilon : float := 1e-6.

(** Line 171. *)
Definition range_of (min_score max_score : number) : result float :=
  spread ← num_sub max_score min_score;
  num_add_float spread epsilon.

(** Line 177. *)
Definition normalized_score_of (raw min_score : number) (range_score : float)
  : result float :=
  above ← num_sub raw min_score;
  num_div_float above range_score.

(** The loop of lines 174-178. *)
Fixpoint normalize_loop (results : list document) (score_field : string)
    (min_score : number) (range_score : float) (normalized : Dict.t scored)
  : result (Dict.t scored) :=
  match results with
  | [] => Ok normalized
  | d :: rest =>
      doc_id ← getitem d "_id";
      raw ← number_of (raw_score score_field d);
      normalized_score ← normalized_score_of raw min_score range_score;
      normalized ← setitem doc_id {| doc := d; score := normalized_score |} normalized;
      normalize_loop rest score_field min_score range_score normalized
  end.

Definition normalize_scores (results : list document) (score_field : string)
  : result (Dict.t scored) :=
  match results with
  | [] => Ok Dict.empty
  | _ :: _ =>
      scores ← collect_scores results score_field;
      min_score ← py_min scores;
      max_score ← py_max scores;
      range_score ← range_of min_score max_score;
      normalize_loop results score_field min_score range_score Dict.empty
  end.

(** ** Merge, sort and truncation (lines 113-143) *)

Definition vector_weight : float := 0.6.
Definition text_weight : float := 0.4.

(** Lines 120-121. *)
Definition merge_vector (vector_scores : Dict.t scored) (result_map : Dict.t scored)
  : Dict.t scored :=
  fold_left
    (fun result_map '(_id, v) =>
       Dict.set _id {| doc := doc v; score := (score v * vector_weight)%float |}
         result_map)
    (Dict.items vector_scores) result_map.

(** Lines 124-128. *)
Definition merge_text (text_scores : Dict.t scored) (result_map : Dict.t scored)
  : Dict.t scored :=
  fold_left
    (fun result_map '(_id, t) =>
       if Dict.mem _id result_map then
         Dict.alter
           (fun e => {| doc := doc e;
                        score := (score e + score t * text_weight)%float |})
           _id result_map
       else
         Dict.set _id {| doc := doc t; score := (score t * text_weight)%float |}
           result_map)
    (Dict.items text_scores) result_map.

(** [sorted(xs, key=lambda x: x["score"], reverse=True)].  The sort compares
    keys with [<] alone.  When no key is a NaN the keys are totally ordered,
    and the result is the one list in descending order of score in which
    entries of equal score keep their relative order; the insertion sort
    [sorted_desc] computes it.  With a NaN among the keys [<] is no order and
    the result depends on how the sorting algorithm proceeds: it is then
    whatever the parameter [sorted_with_nan] gives. *)
Fixpoint insert_desc (x : scored) (l : list scored) : list scored :=
  match l with
  | [] => [x]
  | y :: l' =>
      if (score x <? score y)%float then y :: insert_desc x l' else x :: y :: l'
  end.

Definition sorted_desc (xs : list scored) : list scored :=
  foldr insert_desc [] xs.

Definition has_nan (xs : list scored) : bool :=
  existsb (fun x => is_nan (score x)) xs.

Definition sorted_by_score (sorted_with_nan : list scored → list scored)
    (xs : list scored) : list scored :=
  if has_nan xs then sorted_with_nan xs else sorted_desc xs.

(** The slice [xs[:k]]: [None] takes everything, a negative [k] drops the last
    [-k] elements. *)
Definition slice_to {A} (xs : list A) (k : option Z) : list A :=
  match k with
  | None => xs
  | Some k =>
      if (0 <=? k)%Z then take (Z.to_nat k) xs
      else take (length xs - Z.to_nat (- k)) xs
  end.

(** Lines 113-131 followed by the slice of line 143: the merged entries in
    ranked order, cut to the requested count. *)
Definition ranked (sorted_with_nan : list scored → list scored)
    (vector_scores text_scores : Dict.t scored) (k : option Z) : list scored :=
  let result_map := merge_text text_scores (merge_vector vector_scores Dict.empty) in
  let sorted_docs := sorted_by_score sorted_with_nan (Dict.values result_map) in
  slice_to sorted_docs k.

(** ** Results, collaborators and the service functions *)

Module SearchResult.
(** The response model (lines 25-36), a record of validated fields.  The
    field [id] is filled through its alias [_id]. *)
Record t := {
  _id : string;
  title : string;
  fullplot : string;
  writers : option (list string);
  cast : option (list string);
  rated : option string;
  genres : option (list string);
  year : option Z;
  score : float
}.
End SearchResult.

(** A call made to a collaborator. *)
Inductive call :=
| EncodeCall (text : string)
| AggregateCall (p : pipeline).

Definition is_aggregate (c : call) : bool :=
  match c with
  | AggregateCall _ => true
  | EncodeCall _ => false
  end.

(** Computations that may raise and that extend the call log. *)
Definition M (A : Type) : Type := list call → result A * list call.

Global Instance M_ret : MRet M := fun A a log => (Ok a, log).

Global Instance M_bind : MBind M := fun A B k m log =>
  match m log with
  | (Ok a, log') => k a log'
  | (Raise e, log') => (Raise e, log')
  end.

(** A computation without calls. *)
Definition lift {A} (r : result A) : M A := fun log => (r, log).

(** A whole float strictly between [-2^63] and [2^63], as an integer. *)
Definition int_of_float (x : float) : option Z :=
  let within (z : Z) :=
    if ((- 2 ^ 63 <? z) && (z <? 2 ^ 63))%Z then Some z else None in
  match Prim2SF x with
  | S754_zero _ => Some 0%Z
  | S754_finite s m e =>
      if (0 <=? e)%Z then within (cond_Zopp s (Z.pos m * 2 ^ e))
      else if (Z.pos m mod 2 ^ (- e) =? 0)%Z
           then within (cond_Zopp s (Z.pos m / 2 ^ (- e)))
           else None
  | _ => None
  end.

Section Service.
(** [model.encode(text, normalize_embeddings=True).tolist()] *)
Variable encode : string → list Q.
(** [collection.aggregate(pipeline)], read to the end. *)
Variable aggregate : pipeline → result (list document).
(** [str] on a float and on a list. *)
Variable float_str : float → string.
Variable list_str : list string → string.
(** How the model class reads a string given for an integer field and for a
    float field, if it accepts it. *)
Variable int_of_str : string → option Z.
Variable float_of_str : string → option float.
(** What [sorted] returns when a key is a NaN. *)
Variable sorted_with_nan : list scored → list scored.

(** The builtin [str]. *)
Definition py_str (v : value) : string :=
  match v with
  | VNone => "None"
  | VInt z => NilZero.string_of_int (Z.to_int z)
  | VFloat x => float_str x
  | VStr s => s
  | VOid hex => hex
  | VList l => list_str l
  end.

Definition generate_embedding (text : string) : M (list Q) :=
  fun log => (Ok (encode text), (log ++ [EncodeCall text])%list).

Definition collection_aggregate (p : pipeline) : M (list document) :=
  fun log => (aggregate p, (log ++ [AggregateCall p])%list).

(** Validation of one keyword argument against the type of its field, in the
    model's default (lax) mode: [str], [Optional[str]], [Optional[List[str]]],
    [Optional[int]] and [float].  A string field takes strings only; an
    integer field also takes a whole float and a string that reads as an
    integer; a float field also takes an integer and a string that reads as a
    float. *)
Definition validate_str (v : value) : option string :=
  match v with
  | VStr s => Some s
  | _ => None
  end.

Definition validate_optional_str (v : value) : option (option string) :=
  match v with
  | VNone => Some None
  | VStr s => Some (Some s)
  | _ => None
  end.

Definition validate_optional_list (v : value) : option (option (list string)) :=
  match v with
  | VNone => Some None
  | VList l => Some (Some l)
  | _ => None
  end.

Definition validate_optional_int (v : value) : option (option Z) :=
  match v with
  | VNone => Some None
  | VInt z => Some (Some z)
  | VFloat x => Some <$> int_of_float x
  | VStr s => Some <$> int_of_str s
  | _ => None
  end.

Definition validate_float (v : value) : option float :=
  match v with
  | VFloat x => Some x
  | VInt z =>
      match float_of_int z with
      | Ok x => Some x
      | Raise _ => None
      end
  | VStr s => float_of_str s
  | _ => None
  end.

(** The name of a field whose argument was rejected. *)
Definition rejected {A} (field : string) (validated : option A) : list string :=
  match validated with
  | Some _ => []
  | None => [field]
  end.

(** [SearchResult(_id=..., title=..., ...)]: every argument is validated, and
    one [ValidationError] reports all rejected fields, in the order of the
    class definition. *)
Definition new_SearchResult (_id : string)
    (title fullplot genres year score writers cast rated : value)
  : result SearchResult.t :=
  match validate_str title, validate_str fullplot,
        validate_optional_list writers, validate_optional_list cast,
        validate_optional_str rated, validate_optional_list genres,
        validate_optional_int year, validate_float score with
  | Some title, Some fullplot, Some writers, Some cast,
    Some rated, Some genres, Some year, Some score =>
      Ok {| SearchResult._id := _id;
            SearchResult.title := title;
            SearchResult.fullplot := fullplot;
            SearchResult.writers := writers;
            SearchResult.cast := cast;
            SearchResult.rated := rated;
            SearchResult.genres := genres;
            SearchResult.year := year;
            SearchResult.score := score |}
  | _, _, _, _, _, _, _, _ =>
      Raise (ValidationError
               (rejected "title" (validate_str title) ++
                rejected "fullplot" (validate_str fullplot) ++
                rejected "writers" (validate_optional_list writers) ++
                rejected "cast" (validate_optional_list cast) ++
                rejected "rated" (validate_optional_str rated) ++
                rejected "genres" (validate_optional_list genres) ++
                rejected "year" (validate_optional_int year) ++
                rejected "score" (validate_float score))%list)
  end.

(** The record built at lines 133-143 from a merged entry. *)
Definition result_of_scored (d : scored) : result SearchResult.t :=
  new_SearchResult
    (py_str (get_none (doc d) "_id"))
    (get (doc d) "title" (VStr ""))
    (get (doc d) "fullplot" (VStr ""))
    (get (doc d) "genres" (VList []))
    (get_none (doc d) "year")
    (VFloat (score d))
    (get (doc d) "writers" (VList []))
    (get (doc d) "cast" (VList []))
    (get (doc d) "rated" (VStr "")).

(** The record built at lines 153-163 from a store document. *)
Definition result_of_doc (d : document) : result SearchResult.t :=
  new_SearchResult
    (py_str (get_none d "_id"))
    (get d "title" (VStr ""))
    (get d "fullplot" (VStr ""))
    (get d "genres" (VList []))
    (get_none d "year")
    (get d "score" (VFloat 0))
    (get d "writers" (VList []))
    (get d "cast" (VList []))
    (get d "rated" (VStr "")).

Definition hybrid_search (q : SearchQuery) (embedding : list Q)
  : M (list SearchResult.t) :=
  vector_pipeline ← lift (build_pipeline (with_type q "vector") embedding);
  text_pipeline ← lift (build_pipeline (with_type q "text") embedding);
  vector_results ← collection_aggregate vector_pipeline;
  text_results ← collection_aggregate text_pipeline;
  vector_scores ← lift (normalize_scores vector_results "score");
  text_scores ← lift (normalize_scores text_results "score");
  lift (mapM result_of_scored
          (ranked sorted_with_nan vector_scores text_scores (top_k q))).

Definition search_documents (q : SearchQuery) : M (list SearchResult.t) :=
  embedding ← generate_embedding (query q);
  if bool_decide (type q = Some "hybrid") then hybrid_search q embedding
  else
    pipeline ← lift (build_pipeline q embedding);
    results ← collection_aggregate pipeline;
    lift (mapM result_of_doc results).
End Service.

(** ** The search endpoint (app/main.py, lines 16-24) *)

(** The exception of the web framework that becomes an error response. *)
Record HTTPException := { status_code : Z; detail : string }.

(** How a request handler ends: with a response body, with an
    [HTTPException], or with another exception that leaves the handler. *)
Inductive outcome (A : Type) :=
| Respond (body : A)
| Refuse (h : HTTPException)
| Escape (e : exn).
Arguments Respond {A} body.
Arguments Refuse {A} h.
Arguments Escape {A} e.

Module Api.
Section Search.
Variable encode : string → list Q.
Variable aggregate : pipeline → result (list document).
Variable float_str : float → string.
Variable list_str : list string → string.
Variable int_of_str : string → option Z.
Variable float_of_str : string → option float.
Variable sorted_with_nan : list scored → list scored.
(** [str] on a [ValidationError] with the given rejected fields. *)
Variable validation_str : list string → string.

(** The [try] block returns the result or raises 404 on an empty one; a
    [ValueError], and a [ValidationError] as one, is caught and turned into
    400 with its message as detail.  The 404 raised inside the block is no
    [ValueError] and passes through. *)
Definition search (q : SearchQuery) (log : list call)
  : outcome (list SearchResult.t) * list call :=
  match search_documents encode aggregate float_str list_str int_of_str
          float_of_str sorted_with_nan q log with
  | (Ok [], log') =>
      (Refuse {| status_code := 404; detail := "No results found" |}, log')
  | (Ok result, log') => (Respond result, log')
  | (Raise (ValueError msg), log') =>
      (Refuse {| status_code := 400; detail := msg |}, log')
  | (Raise (ValidationError fields), log') =>
      (Refuse {| status_code := 400; detail := validation_str fields |}, log')
  | (Raise e, log') => (Escape e, log')
  end.
End Search.
End Api.

(** ** Create, read, update and delete (app/movie_service.py, lines 181-203) *)

(** A value of a stored movie document: a value as above, or the embedding
    vector. *)
Inductive stored :=
| Plain (v : value)
| Vector (xs : list Q).

Abbreviation movie_document := (gmap string stored).

Module MovieCreate.
Record t := { title : string; fullplot : string }.

(** [movie.model_dump()] *)
Definition model_dump (m : t) : movie_document :=
  <["title" := Plain (VStr (title m))]>
    (<["fullplot" := Plain (VStr (fullplot m))]> ∅).
End MovieCreate.

Module MovieUpdate.
(** An optional field of the update model: never assigned, or assigned a
    string or [None]. *)
Inductive field :=
| Unset
| Assigned (v : option string).

Record t := { title : field; fullplot : field }.

Definition dump_field (key : string) (f : field) (d : movie_document)
  : movie_document :=
  match f with
  | Unset => d
  | Assigned None => <[key := Plain VNone]> d
  | Assigned (Some s) => <[key := Plain (VStr s)]> d
  end.

(** [movie.model_dump(exclude_unset=True)] *)
Definition model_dump_set (m : t) : movie_document :=
  dump_field "fullplot" (fullplot m) (dump_field "title" (title m) ∅).
End MovieUpdate.

(** A call made by the create, read, update and delete functions: one of the
    search service's calls (the embedding of a string), the embedding model
    applied to a value that is no string, or a request to the collection. *)
Inductive store_call :=
| ServiceCall (c : call)
| EncodeOther (v : stored)
| InsertOne (d : movie_document)
| FindOne (filter : document)
| UpdateOne (filter : document) (set_fields : movie_document)
| DeleteOne (filter : document).

Definition is_store_request (c : store_call) : bool :=
  match c with
  | ServiceCall _ | EncodeOther _ => false
  | _ => true
  end.

(** Computations that may raise and that extend the log of these calls. *)
Definition Crud (A : Type) : Type := list store_call → result A * list store_call.

Global Instance Crud_ret : MRet Crud := fun A a log => (Ok a, log).

Global Instance Crud_bind : MBind Crud := fun A B k m log =>
  match m log with
  | (Ok a, log') => k a log'
  | (Raise e, log') => (Raise e, log')
  end.

(** A computation without calls. *)
Definition pure_step {A} (r : result A) : Crud A := fun log => (r, log).

(** A computation of the search service run here: its calls are appended. *)
Definition service_step {A} (m : M A) : Crud A :=
  fun log => let '(r, calls) := m [] in (r, (log ++ (ServiceCall <$> calls))%list).

Section MovieStore.
Variable encode : string → list Q.
(** [model.encode(v, normalize_embeddings=True).tolist()] for a [v] that is
    not a string. *)
Variable encode_other : stored → result (list Q).
(** [ObjectId(movie_id)]: the hex digits of the id, or the exception of an
    invalid one. *)
Variable ObjectId : string → result string.
(** The collection methods: the found document if any, [inserted_id],
    [matched_count] and [deleted_count]. *)
Variable find_one : document → result (option movie_document).
Variable insert_one : movie_document → result value.
Variable update_one : document → movie_document → result Z.
Variable delete_one : document → result Z.
(** [str] on a float, a list and an embedding vector. *)
Variable float_str : float → string.
Variable list_str : list string → string.
Variable vector_str : list Q → string.

Definition stored_str (v : stored) : string :=
  match v with
  | Plain v => py_str float_str list_str v
  | Vector xs => vector_str xs
  end.

Definition collection_find_one (filter : document) : Crud (option movie_document) :=
  fun log => (find_one filter, (log ++ [FindOne filter])%list).

Definition collection_insert_one (d : movie_document) : Crud value :=
  fun log => (insert_one d, (log ++ [InsertOne d])%list).

Definition collection_update_one (filter : document) (set_fields : movie_document)
  : Crud Z :=
  fun log => (update_one filter set_fields, (log ++ [UpdateOne filter set_fields])%list).

Definition collection_delete_one (filter : document) : Crud Z :=
  fun log => (delete_one filter, (log ++ [DeleteOne filter])%list).

(** [generate_embedding] applied to a value taken from a dumped model. *)
Definition embed_field (v : stored) : Crud (list Q) :=
  match v with
  | Plain (VStr text) => service_step (generate_embedding encode text)
  | _ => fun log => (encode_other v, (log ++ [EncodeOther v])%list)
  end.

(** [d[key]] on a movie document. *)
Definition getfield (d : movie_document) (key : string) : result stored :=
  match d !! key with
  | Some v => Ok v
  | None => Raise (KeyError key)
  end.

(** The filter dict with the key [_id] alone. *)
Definition by_id (hex : string) : document := {["_id" := VOid hex]}.

(** Lines 181-185. *)
Definition create_movie_doc (movie : MovieCreate.t) : Crud document :=
  let doc := MovieCreate.model_dump movie in
  fullplot ← pure_step (getfield doc "fullplot");
  embedding ← embed_field fullplot;
  let doc := <["embedding" := Vector embedding]> doc in
  inserted_id ← collection_insert_one doc;
  mret {["id" := VStr (py_str float_str list_str inserted_id)]}.

(** Lines 187-192.  [not doc] holds for [None] and for an empty dict;
    [doc.pop] raises [KeyError] without the key. *)
Definition get_movie_doc (movie_id : string) : Crud (option movie_document) :=
  hex ← pure_step (ObjectId movie_id);
  found ← collection_find_one (by_id hex);
  match found with
  | None => mret None
  | Some doc =>
      if bool_decide (doc = ∅) then mret None
      else
        match doc !! "_id" with
        | None => pure_step (Raise (KeyError "_id"))
        | Some _id =>
            mret (Some (<["id" := Plain (VStr (stored_str _id))]> (delete "_id" doc)))
        end
  end.

(** Lines 194-199.  The embedding is generated before [ObjectId(movie_id)]
    is evaluated. *)
Definition update_movie_doc (movie_id : string) (movie : MovieUpdate.t) : Crud bool :=
  let update_data := MovieUpdate.model_dump_set movie in
  update_data ←
    match update_data !! "fullplot" with
    | None => mret update_data
    | Some fullplot =>
        embedding ← embed_field fullplot;
        mret (<["embedding" := Vector embedding]> update_data)
    end;
  hex ← pure_step (ObjectId movie_id);
  matched_count ← collection_update_one (by_id hex) update_data;
  mret (0 <? matched_count)%Z.

(** Lines 201-203. *)
Definition delete_movie_doc (movie_id : string) : Crud bool :=
  hex ← pure_step (ObjectId movie_id);
  deleted_count ← collection_delete_one (by_id hex);
  mret (0 <? deleted_count)%Z.
End MovieStore.

(** ** The movie endpoints (app/main.py, lines 26-49) *)

Module MovieApi.
Section Movies.
Variable encode : string → list Q.
Variable encode_other : stored → result (list Q).
Variable ObjectId : string → result string.
Variable find_one : document → result (option movie_document).
Variable insert_one : movie_document → result value.
Variable update_one : document → movie_document → result Z.
Variable delete_one : document → result Z.
Variable float_str : float → string.
Variable list_str : list string → string.
Variable vector_str : list Q → string.

Definition not_found : HTTPException :=
  {| status_code := 404; detail := "Movie not found" |}.

(** A handler without [try]: an exception of the service leaves it. *)
Definition handle {A B} (m : Crud A) (k : A → outcome B) (log : list store_call)
  : outcome B * list store_call :=
  match m log with
  | (Ok a, log') => (k a, log')
  | (Raise e, log') => (Escape e, log')
  end.

Definition create (movie : MovieCreate.t) :=
  handle (create_movie_doc encode encode_other insert_one float_str list_str movie)
    Respond.

(** [if not movie] holds for [None] and for an empty dict. *)
Definition get (movie_id : string) :=
  handle (get_movie_doc ObjectId find_one float_str list_str vector_str movie_id)
    (fun movie =>
       match movie with
       | None => Refuse not_found
       | Some m => if bool_decide (m = ∅) then Refuse not_found else Respond m
       end).

Definition update (movie_id : string) (movie : MovieUpdate.t) :=
  handle (update_movie_doc encode encode_other ObjectId update_one movie_id movie)
    (fun success : bool =>
       if success then Respond ({["message" := VStr "Movie updated"]} : document)
       else Refuse not_found).

Definition delete (movie_id : string) :=
  handle (delete_movie_doc ObjectId delete_one movie_id)
    (fun success : bool =>
       if success then Respond ({["message" := VStr "Movie deleted"]} : document)
       else Refuse not_found).
End Movies.
End MovieApi.

(** ** Ingestion (app/ingest.py) *)

(** What the ingestion code can raise: [AttributeError] for a method a value
    does not have, or an exception of the kinds above. *)
Inductive ingest_exn :=
| AttributeError (attribute : string)
| Raised (e : exn).

Inductive attempt (A : Type) :=
| Done (a : A)
| Failed (e : ingest_exn).
Arguments Done {A} a.
Arguments Failed {A} e.

(** Truthiness of a stored value. *)
Definition truthy (v : stored) : bool :=
  match v with
  | Plain VNone => false
  | Plain (VInt z) => negb (z =? 0)%Z
  | Plain (VFloat x) => negb (x =? 0)%float
  | Plain (VStr s) => negb (bool_decide (s = ""))
  | Plain (VOid _) => true
  | Plain (VList l) => negb (bool_decide (l = []))
  | Vector xs => match xs with [] => false | _ => true end
  end.

(** A call made by the ingestion loop. *)
Inductive ingest_call :=
| TargetFindOne (filter : movie_document)
| Embed (text : string)
| TargetInsertOne (d : movie_document).

Definition is_insert (c : ingest_call) : bool :=
  match c with
  | TargetInsertOne _ => true
  | _ => false
  end.

Section Ingest.
(** [not s.strip()] for a string [s]: nothing is left of [s] when white space
    is stripped from both ends. *)
Variable blank : string → bool.
Variable encode : string → list Q.
(** The target collection.  It has state, so its answers are functions of
    the calls made so far. *)
Variable target_find_one :
  list ingest_call → movie_document → result (option movie_document).
Variable target_insert_one : list ingest_call → movie_document → result value.

(** [not v.strip()]: only strings have the method. *)
Definition strips_to_nothing (v : stored) : attempt bool :=
  match v with
  | Plain (VStr s) => Done (blank s)
  | _ => Failed (AttributeError "strip")
  end.

(** Lines 13-23.  The argument dict is changed in place and returned: the
    result stands for the caller's document as well. *)
Definition preprocess_document (doc : movie_document) : attempt movie_document :=
  let replace :=
    match doc !! "fullplot" with
    | None => Done true
    | Some v => if truthy v then strips_to_nothing v else Done true
    end in
  match replace with
  | Failed e => Failed e
  | Done true =>
      Done (<["fullplot" := default (Plain (VStr "")) (doc !! "plot")]> doc)
  | Done false => Done doc
  end.

(** Lines 25-28: the text, and the document as the call leaves it. *)
Definition extract_text (doc : movie_document) : attempt (stored * movie_document) :=
  match preprocess_document doc with
  | Failed e => Failed e
  | Done doc => Done (default (Plain (VStr "")) (doc !! "fullplot"), doc)
  end.

(** One round of the loop of lines 40-58, without its progress messages and
    the counter that only they use. *)
Definition ingest_document (doc : movie_document) (log : list ingest_call)
  : attempt unit * list ingest_call :=
  match doc !! "_id" with
  | None => (Failed (Raised (KeyError "_id")), log)
  | Some _id =>
      let filter : movie_document := {["_id" := _id]} in
      let log1 := (log ++ [TargetFindOne filter])%list in
      match target_find_one log filter with
      | Raise e => (Failed (Raised e), log1)
      | Ok found =>
          let exists_already :=
            match found with
            | None => false
            | Some d => negb (bool_decide (d = ∅))
            end in
          if exists_already then (Done (), log1)
          else
            match extract_text doc with
            | Failed e => (Failed e, log1)
            | Done (text, doc) =>
                match text with
                | Plain (VStr s) =>
                    if blank s then (Done (), log1)
                    else
                      let log2 := (log1 ++ [Embed s])%list in
                      let doc := <["embedding" := Vector (encode s)]> doc in
                      let log3 := (log2 ++ [TargetInsertOne doc])%list in
                      match target_insert_one log2 doc with
                      | Raise e => (Failed (Raised e), log3)
                      | Ok _ => (Done (), log3)
                      end
                | _ => (Failed (AttributeError "strip"), log1)
                end
            end
      end
  end.

(** Lines 30-58, over the documents the source cursor yields. *)
Fixpoint ingest_new_collection (cursor : list movie_document)
    (log : list ingest_call) : attempt unit * list ingest_call :=
  match cursor with
  | [] => (Done (), log)
  | doc :: rest =>
      match ingest_document doc log with
      | (Done _, log') => ingest_new_collection rest log'
      | (Failed e, log') => (Failed e, log')
      end
  end.
End Ingest.

(** * Specification vocabulary *)

(** Keys are pairwise different: the invariant of a Python dict. *)
Fixpoint well_keyed {V} (d : Dict.t V) : Prop :=
  match d with
  | [] => True
  | (k, _) :: d' => Dict.lookup k d' = None ∧ well_keyed d'
  end.

(** ** Order of exact values *)

Definition exact_ltb (a b : exact) : bool :=
  match exact_compare a b with
  | Some Lt => true
  | _ => false
  end.

Definition exact_leb (a b : exact) : bool :=
  match exact_compare a b with
  | Some (Lt | Eq) => true
  | _ => false
  end.

Definition exact_eqb (a b : exact) : bool :=
  match exact_compare a b with
  | Some Eq => true
  | _ => false
  end.

(** ** Signs of floats *)

(** A zero, a positive finite float or plus infinity. *)
Definition at_least_zero (x : spec_float) : Prop :=
  match x with
  | S754_zero _ | S754_finite false _ _ | S754_infinity false => True
  | _ => False
  end.

(** The same, or a NaN. *)
Definition not_negative (x : spec_float) : Prop :=
  match x with
  | S754_finite true _ _ | S754_infinity true => False
  | _ => True
  end.

(** A positive finite float or plus infinity. *)
Definition above_zero (x : spec_float) : Prop :=
  match x with
  | S754_finite false _ _ | S754_infinity false => True
  | _ => False
  end.

(** A zero or a finite float. *)
Definition sf_finite (x : spec_float) : Prop :=
  match x with
  | S754_zero _ | S754_finite _ _ _ => True
  | _ => False
  end.

(** ** Result lists *)

(** The raw score of a document whose score is a float or absent: an absent
    score counts as [0.0]. *)
Definition raw_number (score_field : string) (r : document) : float :=
  match r !! score_field with
  | Some (VFloat x) => x
  | _ => 0
  end.

(** A value that can be the key of a dictionary and equals itself: it is
    hashable and no NaN. *)
Definition keyable (v : value) : bool :=
  match v with
  | VList _ => false
  | VFloat x => negb (is_nan x)
  | _ => true
  end.

(** A document as the search stages of the store produce it: it has an [_id]
    that can be a key, and its score, if it has one, is a finite float. *)
Definition scorable (score_field : string) (r : document) : bool :=
  match r !! "_id" with
  | Some k => keyable k
  | None => false
  end
  && match r !! score_field with
     | Some (VFloat x) => is_finite x
     | Some _ => false
     | None => true
     end.

(** The last document of a result list stored under a key equal to [k]. *)
Fixpoint latest (k : value) (results : list document) : option document :=
  match results with
  | [] => None
  | r :: rest =>
      match latest k rest with
      | Some r' => Some r'
      | None =>
          match r !! "_id" with
          | Some k' => if py_eq k' k then Some r else None
          | None => None
          end
      end
  end.

(** The least and the greatest float of a list, the first one among equal
    ones ([0] for the empty list). *)
Definition min_float (l : list float) : float :=
  match l with
  | [] => 0
  | x :: l' => fold_left (fun m y => if (y <? m)%float then y else m) l' x
  end.

Definition max_float (l : list float) : float :=
  match l with
  | [] => 0
  | x :: l' => fold_left (fun m y => if (m <? y)%float then y else m) l' x
  end.

(** The minimum, the maximum and the divisor the normaliser is to compute for
    a result list. *)
Definition min_raw (f : string) (results : list document) : float :=
  min_float (raw_number f <$> results).

Definition max_raw (f : string) (results : list document) : float :=
  max_float (raw_number f <$> results).

Definition range_raw (f : string) (results : list document) : float :=
  (max_raw f results - min_raw f results + 1e-6)%float.

(** The entry the normaliser is to store for a document. *)
Definition normalized_entry (score_field : string) (min_score range_score : float)
    (r : document) : scored :=
  {| doc := r;
     score := ((raw_number score_field r - min_score) / range_score)%float |}.

(** The normalised entry of identity [k] in a result list, if it has one. *)
Definition normalized (f : string) (results : list document) (k : value)
  : option scored :=
  normalized_entry f (min_raw f results) (range_raw f results) <$> latest k results.

(** The raw scores of a result list are so close together that the divisor
    of the normaliser does not overflow. *)
Definition spread_finite (f : string) (results : list document) : Prop :=
  is_finite (range_raw f results) = true.

(** The order of the ranked list: the earlier entry has the larger or equal
    score. *)
Definition desc (a b : scored) : Prop := (score b <=? score a)%float = true.

(** No score of the list is a NaN. *)
Definition nan_free (l : list scored) : Prop :=
  Forall (fun e => is_nan (score e) = false) l.

(** The function returns its argument in some order. *)
Definition permuting (f : list scored → list scored) : Prop := ∀ l, f l ≡ₚ l.

(** No two values of the list, at different positions, are equal keys. *)
Fixpoint distinct (l : list value) : Prop :=
  match l with
  | [] => True
  | k :: l' => Forall (fun k' => py_eq k k' = false) l' ∧ distinct l'
  end.

(** The identity a merged entry is reported under. *)
Definition ident (e : scored) : value := get_none (doc e) "_id".

(** The value is an object id. *)
Definition is_oid (v : value) : Prop := ∃ hex, v = VOid hex.

(** The identities of a result list, in order. *)
Definition doc_ids (results : list document) : list value :=
  (fun r => get_none r "_id") <$> results.

(** ** Display fields *)

(** What a record is to show for a field of a document: the empty string or
    the empty list when a string or list field is absent, nothing when the
    year is absent.  [None] when the field holds a value of another kind. *)
Definition text_field (d : document) (key : string) : option string :=
  match d !! key with
  | None => Some ""
  | Some (VStr s) => Some s
  | Some _ => None
  end.

Definition optional_text_field (d : document) (key : string)
  : option (option string) :=
  match d !! key with
  | None => Some (Some "")
  | Some VNone => Some None
  | Some (VStr s) => Some (Some s)
  | Some _ => None
  end.

Definition list_field (d : document) (key : string)
  : option (option (list string)) :=
  match d !! key with
  | None => Some (Some [])
  | Some VNone => Some None
  | Some (VList l) => Some (Some l)
  | Some _ => None
  end.

Definition year_field (d : document) : option (option Z) :=
  match d !! "year" with
  | None | Some VNone => Some None
  | Some (VInt z) => Some (Some z)
  | Some _ => None
  end.

(** A document whose display fields have the types of the response model. *)
Definition presentable (d : document) : bool :=
  bool_decide (is_Some (text_field d "title")) &&
  bool_decide (is_Some (text_field d "fullplot")) &&
  bool_decide (is_Some (list_field d "writers")) &&
  bool_decide (is_Some (list_field d "cast")) &&
  bool_decide (is_Some (optional_text_field d "rated")) &&
  bool_decide (is_Some (list_field d "genres")) &&
  bool_decide (is_Some (year_field d)).

(** The score of the document is a float or absent. *)
Definition float_scored (d : document) : bool :=
  match d !! "score" with
  | None | Some (VFloat _) => true
  | Some _ => false
  end.

(** The record shows the display fields of the document; an object id is
    shown by its hex digits. *)
Definition shows (d : document) (r : SearchResult.t) : Prop :=
  (∀ hex, d !! "_id" = Some (VOid hex) → SearchResult._id r = hex) ∧
  text_field d "title" = Some (SearchResult.title r) ∧
  text_field d "fullplot" = Some (SearchResult.fullplot r) ∧
  list_field d "writers" = Some (SearchResult.writers r) ∧
  list_field d "cast" = Some (SearchResult.cast r) ∧
  optional_text_field d "rated" = Some (SearchResult.rated r) ∧
  list_field d "genres" = Some (SearchResult.genres r) ∧
  year_field d = Some (SearchResult.year r).

(** ** Requests *)

(** The request with another year bound, and with another genre. *)
Definition with_year_gt (q : SearchQuery) (y : option Z) : SearchQuery :=
  {| query := query q; top_k := top_k q; year_gt := y; genre := genre q;
     type := type q |}.

Definition with_genre (q : SearchQuery) (g : option string) : SearchQuery :=
  {| query := query q; top_k := top_k q; year_gt := year_gt q; genre := g;
     type := type q |}.

(** ** Scenario inputs *)

(** A projected store document with an object id, a title and a score. *)
Definition movie (id title : string) (s : float) : document :=
  <["_id" := VOid id]> (<["title" := VStr title]> (<["score" := VFloat s]> ∅)).

Definition scenario_vector : list document :=
  [movie "A" "Alien" 0.9; movie "B" "Brazil" 0.5].

Definition scenario_text : list document :=
  [movie "B" "Brazil" 0.8; movie "C" "Contact" 0.2].

(** A store that answers a vector pipeline with [scenario_vector] and a text
    pipeline with [scenario_text]. *)
Definition scenario_store (p : pipeline) : result (list document) :=
  match p with
  | VectorSearchStage _ _ _ _ _ _ :: _ => Ok scenario_vector
  | SearchStage _ _ _ _ :: _ => Ok scenario_text
  | _ => Raise (StoreError "unsupported pipeline")
  end.

(** The same store with another title for B on the text side. *)
Definition retitled_store (p : pipeline) : result (list document) :=
  match p with
  | VectorSearchStage _ _ _ _ _ _ :: _ => Ok scenario_vector
  | SearchStage _ _ _ _ :: _ =>
      Ok [movie "B" "Brazil (text index)" 0.8; movie "C" "Contact" 0.2]
  | _ => Raise (StoreError "unsupported pipeline")
  end.

(** Stand-ins for the embedding model, for [str] on floats and lists, and for
    the model class's reading of strings as numbers. *)
Definition scenario_encode (text : string) : list Q := [1%Q].
Definition scenario_float_str (x : float) : string := "float".
Definition scenario_list_str (l : list string) : string := "list".
Definition scenario_int_of_str (s : string) : option Z := None.
Definition scenario_float_of_str (s : string) : option float := None.
Definition scenario_validation_str (fields : list string) : string :=
  "validation error".
Definition scenario_sorted_with_nan (xs : list scored) : list scored := xs.

Definition scenario_query (mode : string) (k : Z) : SearchQuery :=
  {| query := "space"; top_k := Some k; year_gt := None; genre := None;
     type := Some mode |}.

(** The record expected for a scenario movie with combined score [s]. *)
Definition scenario_result (id title : string) (s : float) : SearchResult.t :=
  {| SearchResult._id := id;
     SearchResult.title := title;
     SearchResult.fullplot := "";
     SearchResult.writers := Some [];
     SearchResult.cast := Some [];
     SearchResult.rated := Some "";
     SearchResult.genres := Some [];
     SearchResult.year := None;
     SearchResult.score := s |}.


(** Two movies far apart, and two so far apart that their difference
    overflows. *)
Definition far_apart : list document :=
  [movie "A" "Alien" 1e11; movie "B" "Brazil" 0].

Definition overflowing : list document :=
  [movie "A" "Alien" 1e308; movie "B" "Brazil" (-1e308)].


(** A result list whose second document has no score field. *)
Definition partly_scored : list document :=
  [movie "A" "Alien" 0.9; <["_id" := VOid "D"]> ∅].

(** A store that answers every pipeline with [partly_scored]. *)
Definition partly_scored_store (p : pipeline) : result (list document) :=
  Ok partly_scored.

(** ** Further scenario inputs *)

(** The scenario request in text mode with a year bound. *)
Definition filtered_query : SearchQuery :=
  with_year_gt (scenario_query "text" 5) (Some 1990%Z).

(** The keys an insertion-ordered dict ends up with when the given keys are
    assigned one after the other, starting from the keys [seen]: a key equal
    to an earlier one adds nothing. *)
Fixpoint first_occurrences_from (seen ids : list value) : list value :=
  match ids with
  | [] => seen
  | k :: rest =>
      first_occurrences_from
        (if existsb (fun k' => py_eq k' k) seen then seen else (seen ++ [k])%list)
        rest
  end.

Definition first_occurrences (ids : list value) : list value :=
  first_occurrences_from [] ids.

(** A store whose vector search fails, and one whose text search fails. *)
Definition vector_down_store (p : pipeline) : result (list document) :=
  match p with
  | VectorSearchStage _ _ _ _ _ _ :: _ => Raise (StoreError "vector index down")
  | _ => Ok scenario_text
  end.

Definition text_down_store (p : pipeline) : result (list document) :=
  match p with
  | VectorSearchStage _ _ _ _ _ _ :: _ => Ok scenario_vector
  | _ => Raise (StoreError "text index down")
  end.

(** Result lists the normaliser rejects: a score that is a string (in a
    document without [_id]), and a missing [_id] after a good document. *)
Definition string_scored : list document :=
  [movie "A" "Alien" 0.9; <["score" := VStr "high"]> ∅].

Definition id_missing : list document :=
  [movie "A" "Alien" 0.9; <["score" := VFloat 0.5]> ∅].

(** Two vector hits with one score, and two text hits with one score. *)
Definition tied_vector : list document :=
  [movie "A" "Alien" 0.7; movie "B" "Brazil" 0.7].

Definition tied_text : list document :=
  [movie "C" "Contact" 0.3; movie "D" "Dune" 0.3].

Definition tied_store (p : pipeline) : result (list document) :=
  match p with
  | VectorSearchStage _ _ _ _ _ _ :: _ => Ok tied_vector
  | SearchStage _ _ _ _ :: _ => Ok tied_text
  | _ => Raise (StoreError "unsupported pipeline")
  end.

(** The scenario hybrid request with the count sent as [null]. *)
Definition null_count_query : SearchQuery :=
  {| query := "space"; top_k := None; year_gt := None; genre := None;
     type := Some "hybrid" |}.

(** A store that finds nothing. *)
Definition empty_store (p : pipeline) : result (list document) := Ok [].

(** Stand-ins for the collection of the create, read, update and delete
    functions: ids of 24 characters are valid, the collection holds Alien
    under the id of 24 zeros, and every write succeeds on one document. *)
Definition alien_id : string := "000000000000000000000000".

Definition scenario_object_id (movie_id : string) : result string :=
  if bool_decide (String.length movie_id = 24%nat) then Ok movie_id
  else Raise (StoreError "InvalidId").

Definition alien_stored : movie_document :=
  <["_id" := Plain (VOid alien_id)]>
    (<["title" := Plain (VStr "Alien")]>
       (<["fullplot" := Plain (VStr "A crew meets a creature.")]>
          (<["embedding" := Vector [1%Q]]> ∅))).

Definition scenario_find_one (filter : document) : result (option movie_document) :=
  match filter !! "_id" with
  | Some (VOid hex) =>
      if bool_decide (hex = alien_id) then Ok (Some alien_stored) else Ok None
  | _ => Ok None
  end.

Definition scenario_insert_one (d : movie_document) : result value :=
  Ok (VOid alien_id).

Definition scenario_update_one (filter : document) (set_fields : movie_document)
  : result Z := Ok 1%Z.

Definition scenario_delete_one (filter : document) : result Z :=
  match filter !! "_id" with
  | Some (VOid hex) => if bool_decide (hex = alien_id) then Ok 1%Z else Ok 0%Z
  | _ => Ok 0%Z
  end.

Definition scenario_encode_other (v : stored) : result (list Q) := Raise TypeError.
Definition scenario_vector_str (xs : list Q) : string := "vector".

(** An update of the plot alone, and one of the title alone. *)
Definition plot_update : MovieUpdate.t :=
  {| MovieUpdate.title := MovieUpdate.Unset;
     MovieUpdate.fullplot := MovieUpdate.Assigned (Some "A crew meets a cat.") |}.

Definition title_update : MovieUpdate.t :=
  {| MovieUpdate.title := MovieUpdate.Assigned (Some "Alien (1979)");
     MovieUpdate.fullplot := MovieUpdate.Unset |}.

(** The calls an update makes for the embedding of its plot, before the id
    is looked at. *)
Definition embedding_calls (movie : MovieUpdate.t) : list store_call :=
  match MovieUpdate.fullplot movie with
  | MovieUpdate.Unset => []
  | MovieUpdate.Assigned (Some text) => [ServiceCall (EncodeCall text)]
  | MovieUpdate.Assigned None => [EncodeOther (Plain VNone)]
  end.

(** The filter the ingestion loop looks a document up with. *)
Definition id_filter (doc : movie_document) : movie_document :=
  {["_id" := default (Plain VNone) (doc !! "_id")]}.

(** Stand-ins for the ingestion: a string is blank when it is empty or one
    space, and the target collection holds what was inserted so far. *)
Definition scenario_blank (s : string) : bool :=
  bool_decide (s = "") || bool_decide (s = " ").

Definition has_object_id (hex : string) (d : movie_document) : bool :=
  match d !! "_id" with
  | Some (Plain (VOid hex')) => bool_decide (hex = hex')
  | _ => false
  end.

Fixpoint inserted_with (hex : string) (history : list ingest_call)
  : option movie_document :=
  match history with
  | [] => None
  | TargetInsertOne d :: rest =>
      if has_object_id hex d then Some d else inserted_with hex rest
  | _ :: rest => inserted_with hex rest
  end.

Definition memory_find_one (history : list ingest_call) (filter : movie_document)
  : result (option movie_document) :=
  match filter !! "_id" with
  | Some (Plain (VOid hex)) => Ok (inserted_with hex history)
  | _ => Ok None
  end.

Definition memory_insert_one (history : list ingest_call) (d : movie_document)
  : result value :=
  Ok (match d !! "_id" with Some (Plain v) => v | _ => VNone end).

(** A source document with a blank full plot and a plot, and one that the
    target already holds. *)
Definition source_alien : movie_document :=
  <["_id" := Plain (VOid alien_id)]>
    (<["fullplot" := Plain (VStr " ")]>
       (<["plot" := Plain (VStr "A crew meets a creature.")]> ∅)).

Definition always_found (history : list ingest_call) (filter : movie_document)
  : result (option movie_document) := Ok (Some alien_stored).

(** * Properties *)

(** ** Binary64 floats *)

Lemma digits2_pos_bounds (m : positive) :
  (2 ^ (Z.pos (digits2_pos m) - 1) <= Z.pos m < 2 ^ Z.pos (digits2_pos m))%Z.
Proof.
  induction m as [m IH|m IH|]; simpl digits2_pos; [| |simpl; lia];
    rewrite Pos2Z.inj_succ;
    replace (Z.succ (Z.pos (digits2_pos m)) - 1)%Z
      with (Z.succ (Z.pos (digits2_pos m) - 1)) by lia;
    rewrite !Z.pow_succ_r by lia; lia.
Qed.

(** What it means for a finite float to be valid: the exponent is at least
    [-1074], the mantissa has at most 53 bits, and exactly 53 above the least
    exponent. *)
Lemma valid_finite s m e :
  valid_binary (S754_finite s m e) = true →
  (-1074 <= e <= 971)%Z ∧ (Z.pos m < 2 ^ 53)%Z ∧
  (-1074 < e → 2 ^ 52 <= Z.pos m)%Z.
Proof.
  unfold SpecFloat.valid_binary, bounded, canonical_mantissa, fexp, SpecFloat.emin.
  intros [Hc He]%andb_prop. apply Z.eqb_eq in Hc. apply Z.leb_le in He.
  change prec with 53%Z in *. change emax with 1024%Z in *.
  pose proof (digits2_pos_bounds m) as [Hlo Hhi].
  set (d := Z.pos (digits2_pos m)) in *.
  assert (d <= 53)%Z as Hd by lia.
  split; [lia|]. split.
  - eapply Z.lt_le_trans; [exact Hhi|]. apply Z.pow_le_mono_r; lia.
  - intros Hgt. assert (d = 53)%Z as Hd53 by lia.
    rewrite Hd53 in Hlo. exact Hlo.
Qed.

Lemma pow2_pos (k : Z) : (0 <= k → 0 < 2 ^ k)%Z.
Proof. intros. by apply Z.pow_pos_nonneg. Qed.

Lemma scale_lt (m1 m2 P A B : Z) :
  (0 < A → 2 <= B → m1 < 2 * P → P <= m2 → 0 < m2 → m1 * A < m2 * (A * B))%Z.
Proof.
  intros HA HB H1 H2 H3.
  apply Z.lt_le_trans with (2 * m2 * A)%Z; [nia|].
  replace (m2 * (A * B))%Z with (B * (m2 * A))%Z by ring.
  replace (2 * m2 * A)%Z with (2 * (m2 * A))%Z by ring.
  apply Z.mul_le_mono_nonneg_r; nia.
Qed.

(** Valid finite floats of one sign are ordered by exponent, then by
    mantissa, as their exact values are. *)
Lemma finite_compare m1 e1 m2 e2 :
  valid_binary (S754_finite false m1 e1) = true →
  valid_binary (S754_finite false m2 e2) = true →
  (Z.pos m1 * 2 ^ (e1 + 1074) ?= Z.pos m2 * 2 ^ (e2 + 1074))%Z =
  match (e1 ?= e2)%Z with
  | Lt => Lt
  | Datatypes.Gt => Datatypes.Gt
  | Eq => Pos.compare_cont Eq m1 m2
  end.
Proof.
  intros (He1 & Hm1 & Hn1)%valid_finite (He2 & Hm2 & Hn2)%valid_finite.
  change (2 ^ 53)%Z with (2 * 2 ^ 52)%Z in *.
  destruct (Z.compare_spec e1 e2) as [->|Hlt|Hgt].
  - rewrite <- Zmult_compare_compat_r
      by (pose proof (pow2_pos (e2 + 1074) ltac:(lia)); lia).
    reflexivity.
  - apply Z.compare_lt_iff.
    replace (e2 + 1074)%Z with ((e1 + 1074) + (e2 - e1))%Z by lia.
    rewrite (Z.pow_add_r 2 (e1 + 1074) (e2 - e1)) by lia.
    pose proof (pow2_pos (e1 + 1074) ltac:(lia)) as HA.
    assert (2 ^ 1 <= 2 ^ (e2 - e1))%Z as HB by (apply Z.pow_le_mono_r; lia).
    change (2 ^ 1)%Z with 2%Z in HB.
    specialize (Hn2 ltac:(lia)). by apply scale_lt with (2 ^ 52)%Z.
  - apply Z.compare_gt_iff.
    replace (e1 + 1074)%Z with ((e2 + 1074) + (e1 - e2))%Z by lia.
    rewrite (Z.pow_add_r 2 (e2 + 1074) (e1 - e2)) by lia.
    pose proof (pow2_pos (e2 + 1074) ltac:(lia)) as HA.
    assert (2 ^ 1 <= 2 ^ (e1 - e2))%Z as HB by (apply Z.pow_le_mono_r; lia).
    change (2 ^ 1)%Z with 2%Z in HB.
    specialize (Hn1 ltac:(lia)). by apply scale_lt with (2 ^ 52)%Z.
Qed.

Lemma finite_exact_pos m e :
  valid_binary (S754_finite false m e) = true →
  (0 < Z.pos m * 2 ^ (e + 1074))%Z.
Proof.
  intros (He & _)%valid_finite.
  pose proof (pow2_pos (e + 1074) ltac:(lia)). lia.
Qed.

(** The processor's comparison is the comparison of exact values. *)
Lemma SFcompare_exact (x y : spec_float) :
  valid_binary x = true → valid_binary y = true →
  SFcompare x y = exact_compare (sf_exact x) (sf_exact y).
Proof.
  intros Hx Hy.
  destruct x as [sx|sx| |sx mx ex], y as [sy|sy| |sy my ey];
    try done; try (by destruct sx); try (by destruct sy); try (by destruct sx, sy).
  - (* zero, finite *)
    pose proof (finite_exact_pos my ey Hy) as Hp.
    cbn [SFcompare sf_exact exact_compare cond_Zopp]. f_equal.
    destruct sy; cbn [cond_Zopp]; symmetry;
      [apply Z.compare_gt_iff|apply Z.compare_lt_iff]; lia.
  - (* finite, zero *)
    pose proof (finite_exact_pos mx ex Hx) as Hp.
    cbn [SFcompare sf_exact exact_compare cond_Zopp]. f_equal.
    destruct sx; cbn [cond_Zopp]; symmetry;
      [apply Z.compare_lt_iff|apply Z.compare_gt_iff]; lia.
  - (* finite, finite *)
    pose proof (finite_exact_pos mx ex Hx) as Hpx.
    pose proof (finite_exact_pos my ey Hy) as Hpy.
    cbn [SFcompare sf_exact exact_compare]. f_equal.
    destruct sx, sy; cbn [cond_Zopp].
    + rewrite Z.compare_opp.
      rewrite (Z.compare_antisym (Z.pos mx * 2 ^ (ex + 1074))%Z).
      rewrite (finite_compare mx ex my ey) by done.
      by destruct (ex ?= ey)%Z.
    + symmetry. apply Z.compare_lt_iff. lia.
    + symmetry. apply Z.compare_gt_iff. lia.
    + symmetry. by apply finite_compare.
Qed.

Lemma float_compare_exact (x y : float) :
  SFcompare (Prim2SF x) (Prim2SF y) = exact_compare (float_exact x) (float_exact y).
Proof. apply SFcompare_exact; apply Prim2SF_valid. Qed.

Lemma ltb_exact (x y : float) :
  (x <? y)%float =
  match exact_compare (float_exact x) (float_exact y) with
  | Some Lt => true
  | _ => false
  end.
Proof. by rewrite FloatAxioms.ltb_spec, <- float_compare_exact. Qed.

Lemma leb_exact (x y : float) :
  (x <=? y)%float =
  match exact_compare (float_exact x) (float_exact y) with
  | Some (Lt | Eq) => true
  | _ => false
  end.
Proof. by rewrite FloatAxioms.leb_spec, <- float_compare_exact. Qed.

Lemma eqb_exact (x y : float) :
  (x =? y)%float =
  match exact_compare (float_exact x) (float_exact y) with
  | Some Eq => true
  | _ => false
  end.
Proof. by rewrite FloatAxioms.eqb_spec, <- float_compare_exact. Qed.

Lemma is_nan_exact (x : float) :
  is_nan x = true ↔ float_exact x = NotANumber.
Proof.
  unfold is_nan. rewrite eqb_exact.
  destruct (float_exact x) as [n| | |]; simpl; try (split; by intros).
  rewrite Z.compare_refl. split; by intros.
Qed.

Lemma num_lt_exact (a b : number) :
  num_lt a b =
  match exact_compare (exact_of a) (exact_of b) with
  | Some Lt => true
  | _ => false
  end.
Proof.
  destruct a as [x|x], b as [y|y]; try reflexivity.
  - cbn [num_lt exact_of exact_compare].
    rewrite <- Zmult_compare_compat_r
      by (pose proof (pow2_pos 1074 ltac:(lia)); lia).
    unfold Z.ltb. by destruct (x ?= y)%Z.
  - apply ltb_exact.
Qed.

Lemma num_eq_exact (a b : number) :
  num_eq a b =
  match exact_compare (exact_of a) (exact_of b) with
  | Some Eq => true
  | _ => false
  end.
Proof.
  destruct a as [x|x], b as [y|y]; try reflexivity.
  - cbn [num_eq exact_of exact_compare].
    rewrite <- Zmult_compare_compat_r
      by (pose proof (pow2_pos 1074 ltac:(lia)); lia).
    rewrite Z.eqb_compare. by destruct (x ?= y)%Z.
  - apply eqb_exact.
Qed.

(** ** The order of exact values *)

Lemma exact_compare_antisym a b :
  exact_compare b a = option_map CompOpp (exact_compare a b).
Proof.
  destruct a as [m| | |], b as [n| | |]; simpl; try reflexivity.
  by rewrite Z.compare_antisym.
Qed.

Lemma exact_eqb_refl a : a ≠ NotANumber → exact_eqb a a = true.
Proof.
  unfold exact_eqb. destruct a as [m| | |]; simpl; try done.
  by rewrite Z.compare_refl.
Qed.

Lemma exact_eqb_sym a b : exact_eqb a b = exact_eqb b a.
Proof.
  unfold exact_eqb. rewrite (exact_compare_antisym a b).
  by destruct (exact_compare a b) as [[| |]|].
Qed.

Lemma exact_eqb_trans a b c :
  exact_eqb a b = true → exact_eqb b c = true → exact_eqb a c = true.
Proof.
  unfold exact_eqb.
  destruct a as [m| | |], b as [n| | |], c as [p| | |]; simpl; try done.
  destruct (Z.compare_spec m n); try done.
  destruct (Z.compare_spec n p); try done.
  subst. by rewrite Z.compare_refl.
Qed.

Lemma exact_leb_refl a : a ≠ NotANumber → exact_leb a a = true.
Proof.
  unfold exact_leb. destruct a as [m| | |]; simpl; try done.
  by rewrite Z.compare_refl.
Qed.

Lemma exact_leb_trans a b c :
  exact_leb a b = true → exact_leb b c = true → exact_leb a c = true.
Proof.
  unfold exact_leb.
  destruct a as [m| | |], b as [n| | |], c as [p| | |]; simpl; try done.
  destruct (Z.compare_spec m n); try done;
    destruct (Z.compare_spec n p); try done;
    destruct (Z.compare_spec m p); try done; lia.
Qed.

(** Without a NaN any two values are comparable. *)
Lemma exact_leb_total a b :
  a ≠ NotANumber → b ≠ NotANumber → exact_ltb a b = false → exact_leb b a = true.
Proof.
  unfold exact_ltb, exact_leb. rewrite (exact_compare_antisym a b).
  destruct a as [m| | |], b as [n| | |]; simpl; try done.
  by destruct (m ?= n)%Z.
Qed.

Lemma exact_ltb_leb a b : exact_ltb a b = true → exact_leb a b = true.
Proof.
  unfold exact_ltb, exact_leb. by destruct (exact_compare a b) as [[| |]|].
Qed.

Lemma exact_ltb_not_nan a b :
  exact_ltb a b = true → a ≠ NotANumber ∧ b ≠ NotANumber.
Proof.
  unfold exact_ltb. destruct a as [m| | |], b as [n| | |]; simpl; try done.
Qed.

Lemma exact_leb_not_nan a b :
  exact_leb a b = true → a ≠ NotANumber ∧ b ≠ NotANumber.
Proof.
  unfold exact_leb. destruct a as [m| | |], b as [n| | |]; simpl; try done.
Qed.

(** ** Rounding *)

Lemma shr_1_m (mrs : shr_record) :
  (0 <= shr_m mrs)%Z → shr_m (shr_1 mrs) = (shr_m mrs / 2)%Z.
Proof.
  destruct mrs as [m r s]. cbn [shr_m]. intros Hm.
  rewrite <- Z.div2_div. by destruct m as [|[p|p|]|p].
Qed.

Lemma iter_shr_m (p : positive) (mrs : shr_record) :
  (0 <= shr_m mrs)%Z →
  shr_m (SpecFloat.iter_pos shr_1 p mrs) = (shr_m mrs / 2 ^ Z.pos p)%Z.
Proof.
  revert mrs. induction p as [p IH|p IH|]; intros mrs Hm; cbn [SpecFloat.iter_pos].
  - assert (0 <= shr_m (shr_1 mrs))%Z as H1
      by (rewrite shr_1_m by done; apply Z.div_pos; lia).
    assert (0 <= shr_m (SpecFloat.iter_pos shr_1 p (shr_1 mrs)))%Z as H2
      by (rewrite IH by done; apply Z.div_pos; [done|apply pow2_pos; lia]).
    rewrite IH, IH, shr_1_m by done.
    pose proof (pow2_pos (Z.pos p) ltac:(lia)).
    rewrite !Z.div_div by lia. f_equal.
    replace (Z.pos p~1) with (Z.pos p + Z.pos p + 1)%Z by lia.
    rewrite !Z.pow_add_r by lia. change (2 ^ 1)%Z with 2%Z. ring.
  - assert (0 <= shr_m (SpecFloat.iter_pos shr_1 p mrs))%Z as H2
      by (rewrite IH by done; apply Z.div_pos; [done|apply pow2_pos; lia]).
    rewrite IH, IH by done.
    pose proof (pow2_pos (Z.pos p) ltac:(lia)).
    rewrite !Z.div_div by lia. f_equal.
    replace (Z.pos p~0) with (Z.pos p + Z.pos p)%Z by lia.
    by rewrite Z.pow_add_r by lia.
  - by rewrite shr_1_m.
Qed.

Lemma shr_record_of_loc_m (m : Z) (l : location) :
  shr_m (shr_record_of_loc m l) = m.
Proof. by destruct l as [|[| |]]. Qed.

Lemma round_nearest_even_ge (m : Z) (l : location) :
  (m <= round_nearest_even m l)%Z.
Proof.
  destruct l as [|[| |]]; cbn [round_nearest_even]; try lia.
  destruct (Z.even m); lia.
Qed.

(** Shifting to the exponent of the format leaves a mantissa that is not
    negative, and a positive one when the exponent is in range. *)
Lemma shr_fexp_nonneg (m e : Z) (l : location) :
  (0 <= m)%Z → (0 <= shr_m (fst (shr_fexp prec emax m e l)))%Z.
Proof.
  intros Hm. unfold shr_fexp, shr.
  destruct (fexp prec emax (Zdigits2 m + e) - e)%Z as [|q|q]; cbn [fst];
    rewrite ?shr_record_of_loc_m; try done.
  rewrite iter_shr_m by (by rewrite shr_record_of_loc_m).
  rewrite shr_record_of_loc_m. apply Z.div_pos; [done|apply pow2_pos; lia].
Qed.

Lemma shr_fexp_pos (m e : Z) (l : location) :
  (0 < m)%Z → (-1074 <= e)%Z →
  (0 < shr_m (fst (shr_fexp prec emax m e l)))%Z ∧
  (-1074 <= snd (shr_fexp prec emax m e l))%Z.
Proof.
  intros Hm He. unfold shr_fexp, shr.
  destruct m as [|p|p]; try lia. cbn [Zdigits2].
  pose proof (digits2_pos_bounds p) as [Hlo _].
  set (d := Z.pos (digits2_pos p)) in *.
  destruct (fexp prec emax (d + e) - e)%Z as [|q|q] eqn:Hn; cbn [fst snd];
    rewrite ?shr_record_of_loc_m; try done.
  rewrite iter_shr_m by (by rewrite shr_record_of_loc_m).
  rewrite shr_record_of_loc_m.
  unfold fexp, SpecFloat.emin in Hn.
  change prec with 53%Z in Hn. change emax with 1024%Z in Hn.
  assert (1 <= d)%Z by (unfold d; lia).
  split; [|lia].
  apply Z.div_str_pos. split; [apply pow2_pos; lia|].
  etrans; [|exact Hlo]. apply Z.pow_le_mono_r; lia.
Qed.

(** Rounding keeps the sign it is given, and gives no NaN for a mantissa that
    is not negative. *)
Lemma binary_round_aux_at_least_zero (m e : Z) (l : location) :
  (0 <= m)%Z → at_least_zero (binary_round_aux prec emax false m e l).
Proof.
  intros Hm. unfold binary_round_aux.
  pose proof (shr_fexp_nonneg m e l Hm) as H1.
  destruct (shr_fexp prec emax m e l) as [mrs' e'] eqn:E1. cbn [fst] in H1.
  pose proof (round_nearest_even_ge (shr_m mrs') (loc_of_shr_record mrs')) as H2.
  pose proof (shr_fexp_nonneg (round_nearest_even (shr_m mrs')
                (loc_of_shr_record mrs')) e' loc_Exact ltac:(lia)) as H3.
  destruct (shr_fexp prec emax _ e' loc_Exact) as [mrs'' e''] eqn:E2.
  cbn [fst] in H3.
  destruct (shr_m mrs'') as [|p|p]; try done; try lia.
  by destruct (e'' <=? emax - prec)%Z.
Qed.

Lemma binary_round_aux_above_zero (m e : Z) (l : location) :
  (0 < m)%Z → (-1074 <= e)%Z →
  above_zero (binary_round_aux prec emax false m e l).
Proof.
  intros Hm He. unfold binary_round_aux.
  pose proof (shr_fexp_pos m e l Hm He) as [H1 H1'].
  destruct (shr_fexp prec emax m e l) as [mrs' e'] eqn:E1. cbn [fst snd] in *.
  pose proof (round_nearest_even_ge (shr_m mrs') (loc_of_shr_record mrs')) as H2.
  pose proof (shr_fexp_pos (round_nearest_even (shr_m mrs')
                (loc_of_shr_record mrs')) e' loc_Exact ltac:(lia) H1') as [H3 _].
  destruct (shr_fexp prec emax _ e' loc_Exact) as [mrs'' e''] eqn:E2.
  cbn [fst] in H3.
  destruct (shr_m mrs'') as [|p|p]; try done; try lia.
  by destruct (e'' <=? emax - prec)%Z.
Qed.

Lemma binary_round_above_zero (m : positive) (e : Z) :
  (-1074 <= e)%Z → above_zero (binary_round prec emax false m e).
Proof.
  intros He. unfold binary_round, shl_align.
  set (target := fexp prec emax (Z.pos (digits2_pos m) + e)).
  assert (-1074 <= target)%Z as Ht.
  { unfold target, fexp, SpecFloat.emin.
    change prec with 53%Z. change emax with 1024%Z. lia. }
  destruct (target - e)%Z eqn:Hd;
    by apply binary_round_aux_above_zero.
Qed.

(** ** Signs of differences, sums, products and quotients *)

Lemma shl_align_exact (m : positive) (e e' : Z) :
  (-1074 <= e' <= e)%Z →
  (Z.pos (fst (shl_align m e e')) * 2 ^ (e' + 1074) = Z.pos m * 2 ^ (e + 1074))%Z.
Proof.
  intros He. unfold shl_align.
  destruct (e' - e)%Z as [|d|d] eqn:Hd; cbn [fst].
  - by replace e' with e by lia.
  - lia.
  - change (Pos.iter xO m d) with (shift_pos d m).
    rewrite shift_pos_correct. change (Z.pow_pos 2 d) with (2 ^ Z.pos d)%Z.
    replace (e + 1074)%Z with (Z.pos d + (e' + 1074))%Z by lia.
    rewrite (Z.pow_add_r 2 (Z.pos d) (e' + 1074)) by lia. ring.
Qed.

Lemma cond_Zopp_mul (s : bool) (a b : Z) :
  (cond_Zopp s a * b = cond_Zopp s (a * b))%Z.
Proof. destruct s; cbn [cond_Zopp]; lia. Qed.

(** The integer the subtraction rounds, in terms of exact values. *)
Lemma aligned_difference (sx sy : bool) (mx my : positive) (ex ey : Z) :
  (-1074 <= ex)%Z → (-1074 <= ey)%Z →
  ((cond_Zopp sx (Z.pos (fst (shl_align mx ex (Z.min ex ey)))) -
    cond_Zopp sy (Z.pos (fst (shl_align my ey (Z.min ex ey))))) *
   2 ^ (Z.min ex ey + 1074) =
   cond_Zopp sx (Z.pos mx * 2 ^ (ex + 1074)) -
   cond_Zopp sy (Z.pos my * 2 ^ (ey + 1074)))%Z.
Proof.
  intros Hx Hy.
  rewrite Z.mul_sub_distr_r, !cond_Zopp_mul, !shl_align_exact by lia. done.
Qed.

Lemma aligned_sum (sx sy : bool) (mx my : positive) (ex ey : Z) :
  (-1074 <= ex)%Z → (-1074 <= ey)%Z →
  ((cond_Zopp sx (Z.pos (fst (shl_align mx ex (Z.min ex ey)))) +
    cond_Zopp sy (Z.pos (fst (shl_align my ey (Z.min ex ey))))) *
   2 ^ (Z.min ex ey + 1074) =
   cond_Zopp sx (Z.pos mx * 2 ^ (ex + 1074)) +
   cond_Zopp sy (Z.pos my * 2 ^ (ey + 1074)))%Z.
Proof.
  intros Hx Hy.
  rewrite Z.mul_add_distr_r, !cond_Zopp_mul, !shl_align_exact by lia. done.
Qed.

Lemma binary_normalize_at_least_zero (m e : Z) :
  (0 <= m)%Z → (-1074 <= e)%Z →
  at_least_zero (binary_normalize prec emax m e false).
Proof.
  intros Hm He. destruct m as [|p|p]; cbn [binary_normalize]; try done; try lia.
  pose proof (binary_round_above_zero p e He) as H.
  by destruct (binary_round prec emax false p e) as [| | |[|]].
Qed.

Lemma above_at_least_zero x : above_zero x → at_least_zero x.
Proof. by destruct x as [| | |[|]]. Qed.

Lemma at_least_zero_not_negative x : at_least_zero x → not_negative x.
Proof. by destruct x as [|[|]| |[|]]. Qed.

(** A difference [x - y] with [y <= x] is not negative; for finite [x] and
    [y] it is no NaN either. *)
Lemma SFsub_not_negative (x y : spec_float) :
  valid_binary x = true → valid_binary y = true →
  SFleb y x = true → not_negative (SFsub prec emax x y).
Proof.
  intros Hx Hy. unfold SFleb. rewrite SFcompare_exact by done.
  destruct x as [sx|sx| |sx mx ex], y as [sy|sy| |sy my ey];
    try done; try (by destruct sx, sy); try (by destruct sx); try (by destruct sy).
  - (* zero, finite *)
    pose proof (finite_exact_pos my ey Hy) as Hp.
    cbn [sf_exact exact_compare SFsub]. destruct sy; cbn [cond_Zopp negb]; [done|].
    destruct (Z.compare_spec (Z.pos my * 2 ^ (ey + 1074)) 0); try done; lia.
  - (* finite, zero *)
    pose proof (finite_exact_pos mx ex Hx) as Hp.
    cbn [sf_exact exact_compare SFsub]. destruct sx; cbn [cond_Zopp]; [|done].
    destruct (Z.compare_spec 0 (- (Z.pos mx * 2 ^ (ex + 1074)))); try done; lia.
  - (* finite, finite *)
    pose proof (valid_finite _ _ _ Hx) as (Hex & _).
    pose proof (valid_finite _ _ _ Hy) as (Hey & _).
    cbn [sf_exact exact_compare SFsub]. cbv zeta. intros Hle.
    apply at_least_zero_not_negative, binary_normalize_at_least_zero; [|lia].
    pose proof (aligned_difference sx sy mx my ex ey ltac:(lia) ltac:(lia)) as Hd.
    pose proof (pow2_pos (Z.min ex ey + 1074) ltac:(lia)) as Hp.
    destruct (Z.compare_spec (cond_Zopp sy (Z.pos my * 2 ^ (ey + 1074)))
                (cond_Zopp sx (Z.pos mx * 2 ^ (ex + 1074)))); try done; nia.
Qed.

Lemma SFsub_at_least_zero (x y : spec_float) :
  valid_binary x = true → valid_binary y = true →
  sf_finite x → sf_finite y →
  SFleb y x = true → at_least_zero (SFsub prec emax x y).
Proof.
  intros Hx Hy Fx Fy Hle.
  pose proof (SFsub_not_negative x y Hx Hy Hle) as Hnn.
  destruct x as [sx|sx| |sx mx ex], y as [sy|sy| |sy my ey]; try done.
  - by destruct sx, sy.
  - pose proof (valid_finite _ _ _ Hx) as (Hex & _).
    pose proof (valid_finite _ _ _ Hy) as (Hey & _).
    revert Hnn. cbn [SFsub]. cbv zeta.
    set (D := (_ - _)%Z). intros Hnn.
    destruct D as [|p|p] eqn:HD; cbn [binary_normalize] in *; [done| |].
    + apply above_at_least_zero, binary_round_above_zero. lia.
    + unfold SFleb in Hle. rewrite SFcompare_exact in Hle by done.
      cbn [sf_exact exact_compare] in Hle.
      pose proof (aligned_difference sx sy mx my ex ey ltac:(lia) ltac:(lia)) as Hd.
      pose proof (pow2_pos (Z.min ex ey + 1074) ltac:(lia)) as Hp.
      fold D in Hd. rewrite HD in Hd.
      destruct (Z.compare_spec (cond_Zopp sy (Z.pos my * 2 ^ (ey + 1074)))
                  (cond_Zopp sx (Z.pos mx * 2 ^ (ex + 1074)))); try done; nia.
Qed.

(** Adding a positive float to one that is not negative gives a positive
    float or a NaN: never zero. *)
Lemma SFadd_above_zero (x y : spec_float) :
  valid_binary x = true → valid_binary y = true →
  at_least_zero x → above_zero y → above_zero (SFadd prec emax x y).
Proof.
  intros Hx Hy Fx Fy.
  destruct x as [sx|[|]| |[|] mx ex], y as [sy|[|]| |[|] my ey]; try done.
  pose proof (valid_finite _ _ _ Hx) as (Hex & _).
  pose proof (valid_finite _ _ _ Hy) as (Hey & _).
  cbn [SFadd cond_Zopp]. cbv zeta. cbn [Z.add binary_normalize].
  apply binary_round_above_zero. lia.
Qed.

Lemma SFadd_at_least_zero (x y : spec_float) :
  valid_binary x = true → valid_binary y = true →
  at_least_zero x → at_least_zero y → at_least_zero (SFadd prec emax x y).
Proof.
  intros Hx Hy Fx Fy.
  destruct y as [sy|[|]| |[|] my ey] eqn:Ey; try done;
    try (rewrite <- Ey; apply above_at_least_zero, SFadd_above_zero;
         by rewrite ?Ey).
  destruct x as [sx|[|]| |[|] mx ex]; try done. by destruct sx, sy.
Qed.

Lemma SFmul_at_least_zero (x y : spec_float) :
  at_least_zero x → above_zero y → sf_finite y →
  at_least_zero (SFmul prec emax x y).
Proof.
  intros Fx Fy Gy.
  destruct x as [sx|[|]| |[|] mx ex], y as [sy|[|]| |[|] my ey]; try done.
  cbn [SFmul xorb]. by apply binary_round_aux_at_least_zero.
Qed.

Lemma SFdiv_at_least_zero (x y : spec_float) :
  at_least_zero x → above_zero y → sf_finite y →
  at_least_zero (SFdiv prec emax x y).
Proof.
  intros Fx Fy Gy.
  destruct x as [sx|[|]| |[|] mx ex], y as [sy|[|]| |[|] my ey]; try done.
  cbn [SFdiv xorb]. unfold SFdiv_core_binary.
  set (m' := match _ with Z.pos _ => _ | _ => _ end).
  assert (0 <= m')%Z as Hm'.
  { unfold m'. destruct (_ - _ - _)%Z; try done. by apply Z.shiftl_nonneg. }
  pose proof (Z.div_pos m' (Z.pos my) Hm' ltac:(lia)) as Hq.
  unfold Z.div in Hq. destruct (Z.div_eucl m' (Z.pos my)) as [q r].
  by apply binary_round_aux_at_least_zero.
Qed.

(** ** The same facts on primitive floats *)

Lemma leb_zero (x : float) :
  (0 <=? x)%float = true ↔ at_least_zero (Prim2SF x).
Proof.
  rewrite FloatAxioms.leb_spec. change (Prim2SF 0) with (S754_zero false).
  destruct (Prim2SF x) as [s|[|]| |[|] m e]; by cbn.
Qed.

Lemma ltb_zero (x : float) :
  (0 <? x)%float = true ↔ above_zero (Prim2SF x).
Proof.
  rewrite FloatAxioms.ltb_spec. change (Prim2SF 0) with (S754_zero false).
  destruct (Prim2SF x) as [s|[|]| |[|] m e]; by cbn.
Qed.

Lemma is_finite_sf (x : float) :
  is_finite x = true ↔ sf_finite (Prim2SF x).
Proof.
  unfold is_finite, is_nan, is_infinity.
  rewrite !FloatAxioms.eqb_spec, abs_spec.
  change (Prim2SF infinity) with (S754_infinity false).
  destruct (Prim2SF x) as [s|[|]| |[|] m e]; cbn; try done.
  - by rewrite Z.compare_refl, Pos.compare_cont_refl.
  - by rewrite Z.compare_refl, Pos.compare_cont_refl.
Qed.

Lemma above_zero_nonzero (x : float) :
  above_zero (Prim2SF x) → (x =? 0)%float = false.
Proof.
  rewrite FloatAxioms.eqb_spec. change (Prim2SF 0) with (S754_zero false).
  by destruct (Prim2SF x) as [s|[|]| |[|] m e].
Qed.

Lemma epsilon_above_zero : above_zero (Prim2SF epsilon) ∧ sf_finite (Prim2SF epsilon).
Proof. by vm_compute. Qed.

Lemma vector_weight_above_zero :
  above_zero (Prim2SF vector_weight) ∧ sf_finite (Prim2SF vector_weight).
Proof. by vm_compute. Qed.

Lemma text_weight_above_zero :
  above_zero (Prim2SF text_weight) ∧ sf_finite (Prim2SF text_weight).
Proof. by vm_compute. Qed.

(** For [mn <= mx] the divisor [mx - mn + 1e-6] of the normaliser is never
    zero: it is positive or, when an infinity is involved, a NaN. *)
Lemma range_nonzero (mn mx : float) :
  (mn <=? mx)%float = true → ((mx - mn + epsilon) =? 0)%float = false.
Proof.
  rewrite FloatAxioms.leb_spec. intros Hle.
  pose proof (SFsub_not_negative _ _ (Prim2SF_valid mx) (Prim2SF_valid mn) Hle) as Hnn.
  fold SF64sub in Hnn. rewrite <- sub_spec in Hnn.
  destruct (Prim2SF (mx - mn)) as [s|[|]| |[|] m e] eqn:Hr; try done.
  - apply above_zero_nonzero. rewrite add_spec.
    apply SFadd_above_zero; try apply Prim2SF_valid;
      [by rewrite Hr|apply epsilon_above_zero].
  - apply above_zero_nonzero. rewrite add_spec.
    apply SFadd_above_zero; try apply Prim2SF_valid;
      [by rewrite Hr|apply epsilon_above_zero].
  - rewrite FloatAxioms.eqb_spec, add_spec, Hr. done.
  - apply above_zero_nonzero. rewrite add_spec.
    apply SFadd_above_zero; try apply Prim2SF_valid;
      [by rewrite Hr|apply epsilon_above_zero].
Qed.

Lemma range_above_zero (mn mx : float) :
  (mn <=? mx)%float = true → is_finite mn = true → is_finite mx = true →
  above_zero (Prim2SF (mx - mn + epsilon)).
Proof.
  rewrite FloatAxioms.leb_spec, !is_finite_sf. intros Hle Hmn Hmx.
  rewrite add_spec. apply SFadd_above_zero; try apply Prim2SF_valid;
    [|apply epsilon_above_zero].
  rewrite sub_spec. apply SFsub_at_least_zero; try apply Prim2SF_valid; done.
Qed.

(** A normalised score is at least zero, and no NaN, when the raw scores are
    finite and the divisor is. *)
Lemma normalized_nonneg (raw mn rg : float) :
  (mn <=? raw)%float = true → is_finite mn = true → is_finite raw = true →
  above_zero (Prim2SF rg) → is_finite rg = true →
  (0 <=? (raw - mn) / rg)%float = true.
Proof.
  rewrite FloatAxioms.leb_spec, !is_finite_sf. intros Hle Hmn Hraw Hrg Frg.
  apply leb_zero. rewrite div_spec. apply SFdiv_at_least_zero; try done.
  rewrite sub_spec. apply SFsub_at_least_zero; try apply Prim2SF_valid; done.
Qed.

Lemma weighted_nonneg (v w : float) :
  (0 <=? v)%float = true → above_zero (Prim2SF w) ∧ sf_finite (Prim2SF w) →
  (0 <=? v * w)%float = true.
Proof.
  rewrite !leb_zero. intros Hv [Hw Fw]. rewrite mul_spec.
  by apply SFmul_at_least_zero.
Qed.

Lemma sum_nonneg (a b : float) :
  (0 <=? a)%float = true → (0 <=? b)%float = true → (0 <=? a + b)%float = true.
Proof.
  rewrite !leb_zero. intros Ha Hb. rewrite add_spec.
  apply SFadd_at_least_zero; try apply Prim2SF_valid; done.
Qed.

Lemma nonneg_not_nan (x : float) : (0 <=? x)%float = true → is_nan x = false.
Proof.
  rewrite leb_exact. intros H. destruct (is_nan x) eqn:Hn; [|done].
  apply is_nan_exact in Hn. rewrite Hn in H.
  by destruct (float_exact 0).
Qed.


(** ** The order of floats *)

Lemma finite_not_nan (x : float) : is_finite x = true → is_nan x = false.
Proof. unfold is_finite. by destruct (is_nan x). Qed.

Lemma not_nan_exact (x : float) : is_nan x = false → float_exact x ≠ NotANumber.
Proof. intros H Hn. apply is_nan_exact in Hn. congruence. Qed.

Lemma leb_refl (x : float) : is_nan x = false → (x <=? x)%float = true.
Proof.
  intros H. rewrite leb_exact. by apply (exact_leb_refl _ (not_nan_exact x H)).
Qed.

Lemma leb_trans (x y z : float) :
  (x <=? y)%float = true → (y <=? z)%float = true → (x <=? z)%float = true.
Proof. rewrite !leb_exact. apply exact_leb_trans. Qed.

Lemma ltb_leb (x y : float) : (x <? y)%float = true → (x <=? y)%float = true.
Proof. rewrite ltb_exact, leb_exact. apply exact_ltb_leb. Qed.

Lemma leb_total (x y : float) :
  is_nan x = false → is_nan y = false →
  (x <? y)%float = false → (y <=? x)%float = true.
Proof.
  intros Hx Hy. rewrite ltb_exact, leb_exact.
  apply exact_leb_total; by apply not_nan_exact.
Qed.

Lemma ltb_not_nan (x y : float) :
  (x <? y)%float = true → is_nan x = false ∧ is_nan y = false.
Proof.
  rewrite ltb_exact. intros [Hx Hy]%exact_ltb_not_nan.
  split; apply not_true_is_false; by rewrite is_nan_exact.
Qed.

Lemma leb_not_nan (x y : float) :
  (x <=? y)%float = true → is_nan x = false ∧ is_nan y = false.
Proof.
  rewrite leb_exact. intros [Hx Hy]%exact_leb_not_nan.
  split; apply not_true_is_false; by rewrite is_nan_exact.
Qed.


Lemma eqb_ltb (x y s : float) :
  (x =? s)%float = true → (y =? s)%float = true → (x <? y)%float = false.
Proof.
  rewrite !eqb_exact, ltb_exact. intros Hx Hy.
  assert (exact_eqb (float_exact x) (float_exact y) = true) as H.
  { apply exact_eqb_trans with (float_exact s); [done|].
    by rewrite exact_eqb_sym. }
  unfold exact_eqb in H.
  by destruct (exact_compare (float_exact x) (float_exact y)) as [[| |]|].
Qed.

(** ** Key equality *)




Lemma py_eq_numbers (a b : value) (x y : number) :
  as_number a = Some x → as_number b = Some y →
  py_eq a b = exact_eqb (exact_of x) (exact_of y).
Proof. unfold py_eq. intros -> ->. apply num_eq_exact. Qed.

Lemma py_eq_refl a : keyable a = true → py_eq a a = true.
Proof.
  destruct a as [|z|x|s|h|l]; try done; intros Hk.
  - rewrite (py_eq_numbers _ _ (Int z) (Int z)) by done.
    by apply exact_eqb_refl.
  - rewrite (py_eq_numbers _ _ (Float x) (Float x)) by done.
    apply exact_eqb_refl, not_nan_exact. by apply negb_true_iff.
  - by apply bool_decide_eq_true.
  - by apply bool_decide_eq_true.
Qed.

Lemma py_eq_sym a b : py_eq a b = py_eq b a.
Proof.
  destruct (as_number a) as [x|] eqn:Ha, (as_number b) as [y|] eqn:Hb.
  - rewrite (py_eq_numbers a b x y), (py_eq_numbers b a y x) by done.
    apply exact_eqb_sym.
  - unfold py_eq. by rewrite Ha, Hb.
  - unfold py_eq. by rewrite Ha, Hb.
  - destruct a, b; try done; unfold py_eq; simpl;
      apply bool_decide_ext; split; congruence.
Qed.

Lemma py_eq_trans a b c :
  py_eq a b = true → py_eq b c = true → py_eq a c = true.
Proof.
  destruct (as_number a) as [x|] eqn:Ha, (as_number b) as [y|] eqn:Hb,
    (as_number c) as [z|] eqn:Hc;
    try (unfold py_eq; rewrite ?Ha, ?Hb, ?Hc; by intros).
  - rewrite (py_eq_numbers a b x y), (py_eq_numbers b c y z),
      (py_eq_numbers a c x z) by done.
    apply exact_eqb_trans.
  - destruct a, b; try done; destruct c; try done; unfold py_eq; simpl;
      intros H1 H2; try done;
      apply bool_decide_eq_true in H1, H2; apply bool_decide_eq_true; congruence.
Qed.

(** Equal keys cannot be told apart by a third one. *)
Lemma py_eq_congr a b c : py_eq a b = true → py_eq a c = py_eq b c.
Proof.
  intros Hab. destruct (py_eq b c) eqn:Hbc.
  - by apply py_eq_trans with b.
  - destruct (py_eq a c) eqn:Hac; [|done].
    rewrite <- Hbc. symmetry. apply py_eq_trans with a; [|done].
    by rewrite py_eq_sym.
Qed.

Lemma py_eq_oid a b : py_eq (VOid a) (VOid b) = bool_decide (a = b).
Proof. reflexivity. Qed.

(** A key that equals some key equals itself. *)
Lemma py_eq_self a b : py_eq a b = true → py_eq a a = true.
Proof.
  intros H. apply py_eq_trans with b; [done|]. by rewrite py_eq_sym.
Qed.

(** ** Ordered dictionaries *)

Section DictFacts.
Context {V : Type}.
Implicit Types (d : Dict.t V) (k : value) (v : V).

Lemma lookup_congr k1 k2 d :
  py_eq k1 k2 = true → Dict.lookup k1 d = Dict.lookup k2 d.
Proof.
  intros Hk. induction d as [|[k' v'] d IH]; simpl; [done|].
  rewrite (py_eq_sym k' k1), (py_eq_sym k' k2), (py_eq_congr _ _ _ Hk).
  by rewrite IH.
Qed.

Lemma lookup_set k k' v d :
  Dict.lookup k (Dict.set k' v d) =
  if py_eq k' k then Some v else Dict.lookup k d.
Proof.
  induction d as [|[a w] d IH]; simpl; [done|].
  destruct (py_eq a k') eqn:Hak; simpl.
  - rewrite (py_eq_congr _ _ k Hak). by destruct (py_eq k' k).
  - rewrite IH. destruct (py_eq a k) eqn:Hk; [|done].
    destruct (py_eq k' k) eqn:Hk'; [|done].
    rewrite py_eq_sym in Hk'.
    by rewrite (py_eq_trans _ _ _ Hk Hk') in Hak.
Qed.

Lemma lookup_alter (f : V → V) k k' d :
  Dict.lookup k (Dict.alter f k' d) =
  if py_eq k' k then f <$> Dict.lookup k d else Dict.lookup k d.
Proof.
  induction d as [|[a w] d IH]; simpl; [by destruct (py_eq k' k)|].
  destruct (py_eq a k') eqn:Hak; simpl.
  - rewrite (py_eq_congr _ _ k Hak). by destruct (py_eq k' k).
  - rewrite IH. destruct (py_eq a k) eqn:Hk; [|done].
    destruct (py_eq k' k) eqn:Hk'; [|done].
    rewrite py_eq_sym in Hk'.
    by rewrite (py_eq_trans _ _ _ Hk Hk') in Hak.
Qed.

Lemma well_keyed_set k v d : well_keyed d → well_keyed (Dict.set k v d).
Proof.
  induction d as [|[a w] d IH]; simpl; [done|].
  intros [Ha Hd]. destruct (py_eq a k) eqn:Hak; simpl; [done|].
  split; [|by apply IH].
  rewrite lookup_set, py_eq_sym, Hak. done.
Qed.

Lemma well_keyed_alter (f : V → V) k d :
  well_keyed d → well_keyed (Dict.alter f k d).
Proof.
  induction d as [|[a w] d IH]; simpl; [done|].
  intros [Ha Hd]. destruct (py_eq a k) eqn:Hak; simpl; [done|].
  split; [|by apply IH].
  rewrite lookup_alter, py_eq_sym, Hak. done.
Qed.

Lemma lookup_None_keys k d :
  Dict.lookup k d = None ↔ Forall (fun k' => py_eq k' k = false) (Dict.keys d).
Proof.
  induction d as [|[a w] d IH]; simpl.
  - split; [constructor|done].
  - destruct (py_eq a k) eqn:Hak.
    + split; [done|]. intros H. inversion H; congruence.
    + rewrite IH. split; [by constructor|]. intros H. by inversion H.
Qed.

Lemma elem_lookup k v d :
  well_keyed d → Forall (fun k => keyable k = true) (Dict.keys d) →
  (k, v) ∈ d → Dict.lookup k d = Some v.
Proof.
  induction d as [|[a w] d IH]; simpl; [by intros _ _ ?%elem_of_nil|].
  intros [Ha Hd] [Hka Hkd]%Forall_cons Hin.
  apply elem_of_cons in Hin as [[= -> ->]|Hin].
  - by rewrite py_eq_refl.
  - destruct (py_eq a k) eqn:Hak; [|by apply IH].
    rewrite (lookup_congr _ _ _ Hak), (IH Hd Hkd Hin) in Ha. done.
Qed.

Lemma keyable_set k v d :
  keyable k = true →
  Forall (fun k => keyable k = true) (Dict.keys d) →
  Forall (fun k => keyable k = true) (Dict.keys (Dict.set k v d)).
Proof.
  intros Hk. induction d as [|[a w] d IH]; simpl.
  - by repeat constructor.
  - intros [Ha Hd]%Forall_cons. destruct (py_eq a k); simpl;
      constructor; auto.
Qed.

Lemma keyable_alter (f : V → V) k d :
  Forall (fun k => keyable k = true) (Dict.keys d) →
  Forall (fun k => keyable k = true) (Dict.keys (Dict.alter f k d)).
Proof.
  induction d as [|[a w] d IH]; simpl; [done|].
  intros [Ha Hd]%Forall_cons. destruct (py_eq a k); simpl; constructor; auto.
Qed.

Lemma mem_keys k d :
  Dict.mem k d = existsb (fun k' => py_eq k' k) (Dict.keys d).
Proof.
  unfold Dict.mem.
  induction d as [|[a w] d IH]; simpl; [done|].
  destruct (py_eq a k); [done|]. apply IH.
Qed.

Lemma keys_alter (f : V → V) k d : Dict.keys (Dict.alter f k d) = Dict.keys d.
Proof.
  induction d as [|[a w] d IH]; simpl; [done|].
  destruct (py_eq a k); simpl; [done|]. f_equal. apply IH.
Qed.

Lemma keys_set k v d :
  Dict.keys (Dict.set k v d) =
  if Dict.mem k d then Dict.keys d else (Dict.keys d ++ [k])%list.
Proof.
  unfold Dict.mem.
  induction d as [|[a w] d IH]; simpl; [done|].
  destruct (py_eq a k); simpl; [done|]. rewrite IH.
  by destruct (Dict.lookup k d).
Qed.

Lemma mem_alter (f : V → V) k k' d :
  Dict.mem k (Dict.alter f k' d) = Dict.mem k d.
Proof.
  unfold Dict.mem. rewrite lookup_alter.
  destruct (py_eq k' k); [|done]. by destruct (Dict.lookup k d).
Qed.

Lemma mem_set k k' v d :
  Dict.mem k (Dict.set k' v d) = py_eq k' k || Dict.mem k d.
Proof.
  unfold Dict.mem. rewrite lookup_set. by destruct (py_eq k' k).
Qed.

Lemma lookup_elem k v d : Dict.lookup k d = Some v → v ∈ Dict.values d.
Proof.
  unfold Dict.values.
  induction d as [|[a w] d IH]; simpl; [done|].
  destruct (py_eq a k).
  - intros [= ->]. left.
  - intros H. right. by apply IH.
Qed.
End DictFacts.

(** ** The builtins [min] and [max] *)

(** On a list of floats the builtins compute [min_float] and [max_float]. *)
Lemma py_min_floats (l : list float) :
  l ≠ [] → py_min (Float <$> l) = Ok (Float (min_float l)).
Proof.
  destruct l as [|x l]; [done|]. intros _. simpl. f_equal.
  revert x. induction l as [|y l IH]; intros x; simpl; [done|].
  rewrite <- IH. by destruct (y <? x)%float.
Qed.

Lemma py_max_floats (l : list float) :
  l ≠ [] → py_max (Float <$> l) = Ok (Float (max_float l)).
Proof.
  destruct l as [|x l]; [done|]. intros _. simpl. f_equal.
  revert x. induction l as [|y l IH]; intros x; simpl; [done|].
  rewrite <- IH. by destruct (x <? y)%float.
Qed.

Lemma fold_min_spec (l : list float) (x : float) :
  Forall (fun y => is_nan y = false) (x :: l) →
  let m := fold_left (fun m y => if (y <? m)%float then y else m) l x in
  m ∈ x :: l ∧ (m <=? x)%float = true ∧ Forall (fun y => (m <=? y)%float = true) l.
Proof.
  revert x. induction l as [|y l IH]; intros x [Hx Hl]%Forall_cons; simpl.
  - split; [left|]. split; [by apply leb_refl|constructor].
  - apply Forall_cons in Hl as [Hy Hl].
    destruct (y <? x)%float eqn:Hlt.
    + destruct (IH y ltac:(by constructor)) as (Hin & Hle & Hall).
      split; [by right|]. split; [|by constructor].
      apply leb_trans with y; [done|by apply ltb_leb].
    + destruct (IH x ltac:(by constructor)) as (Hin & Hle & Hall).
      split; [|split; [done|]].
      * apply elem_of_cons in Hin as [->|Hin]; [left|by right; right].
      * constructor; [|done]. apply leb_trans with x; [done|].
        by apply leb_total.
Qed.

Lemma fold_max_spec (l : list float) (x : float) :
  Forall (fun y => is_nan y = false) (x :: l) →
  let m := fold_left (fun m y => if (m <? y)%float then y else m) l x in
  m ∈ x :: l ∧ (x <=? m)%float = true ∧ Forall (fun y => (y <=? m)%float = true) l.
Proof.
  revert x. induction l as [|y l IH]; intros x [Hx Hl]%Forall_cons; simpl.
  - split; [left|]. split; [by apply leb_refl|constructor].
  - apply Forall_cons in Hl as [Hy Hl].
    destruct (x <? y)%float eqn:Hlt.
    + destruct (IH y ltac:(by constructor)) as (Hin & Hle & Hall).
      split; [by right|]. split; [|by constructor].
      apply leb_trans with y; [by apply ltb_leb|done].
    + destruct (IH x ltac:(by constructor)) as (Hin & Hle & Hall).
      split; [|split; [done|]].
      * apply elem_of_cons in Hin as [->|Hin]; [left|by right; right].
      * constructor; [|done]. apply leb_trans with x; [|done].
        by apply leb_total.
Qed.

(** [min_float] is an element of the list that is at most every element, and
    [max_float] one that is at least every element. *)
Lemma min_float_spec (l : list float) :
  l ≠ [] → Forall (fun y => is_nan y = false) l →
  min_float l ∈ l ∧ Forall (fun y => (min_float l <=? y)%float = true) l.
Proof.
  destruct l as [|x l]; [done|]. intros _ Hl.
  destruct (fold_min_spec l x Hl) as (Hin & Hle & Hall).
  split; [done|by constructor].
Qed.

Lemma max_float_spec (l : list float) :
  l ≠ [] → Forall (fun y => is_nan y = false) l →
  max_float l ∈ l ∧ Forall (fun y => (y <=? max_float l)%float = true) l.
Proof.
  destruct l as [|x l]; [done|]. intros _ Hl.
  destruct (fold_max_spec l x Hl) as (Hin & Hle & Hall).
  split; [done|by constructor].
Qed.

(** ** The normaliser *)

Lemma scorable_id f r :
  scorable f r = true → ∃ k, r !! "_id" = Some k ∧ keyable k = true.
Proof.
  unfold scorable. intros [H _]%andb_prop.
  destruct (r !! "_id") as [k|]; [by exists k|done].
Qed.

Lemma keyable_hashable k : keyable k = true → hashable k = true.
Proof. by destruct k. Qed.

Lemma scorable_finite f r :
  scorable f r = true → is_finite (raw_number f r) = true.
Proof.
  unfold scorable, raw_number. intros [_ H]%andb_prop.
  by destruct (r !! f) as [[]|].
Qed.

Lemma scorable_number f r :
  scorable f r = true → number_of (raw_score f r) = Ok (Float (raw_number f r)).
Proof.
  unfold scorable, number_of, raw_number, raw_score, get.
  intros [_ H]%andb_prop. by destruct (r !! f) as [[]|].
Qed.

Lemma raws_not_nan f results :
  Forall (fun r => scorable f r = true) results →
  Forall (fun y => is_nan y = false) (raw_number f <$> results).
Proof.
  intros H. rewrite Forall_fmap. eapply Forall_impl; [exact H|].
  intros r Hr. simpl. by apply finite_not_nan, (scorable_finite f).
Qed.

Lemma collect_scores_total results f :
  Forall (fun r => scorable f r = true) results →
  collect_scores results f = Ok (Float <$> (raw_number f <$> results)).
Proof.
  induction 1 as [|r rest Hr _ IH]; simpl; [done|].
  unfold mbind, result_bind. by rewrite (scorable_number _ _ Hr), IH.
Qed.

Lemma min_raw_le f results r :
  Forall (fun r => scorable f r = true) results →
  r ∈ results → (min_raw f results <=? raw_number f r)%float = true.
Proof.
  intros Hs Hr. unfold min_raw.
  assert (raw_number f <$> results ≠ []) as Hne
    by (destruct results; [by apply elem_of_nil in Hr|done]).
  destruct (min_float_spec _ Hne (raws_not_nan f results Hs)) as [_ Hall].
  rewrite Forall_forall in Hall. apply Hall. by apply list_elem_of_fmap_2.
Qed.

Lemma max_raw_ge f results r :
  Forall (fun r => scorable f r = true) results →
  r ∈ results → (raw_number f r <=? max_raw f results)%float = true.
Proof.
  intros Hs Hr. unfold max_raw.
  assert (raw_number f <$> results ≠ []) as Hne
    by (destruct results; [by apply elem_of_nil in Hr|done]).
  destruct (max_float_spec _ Hne (raws_not_nan f results Hs)) as [_ Hall].
  rewrite Forall_forall in Hall. apply Hall. by apply list_elem_of_fmap_2.
Qed.

Lemma min_raw_attained f results :
  Forall (fun r => scorable f r = true) results →
  results ≠ [] → ∃ r, r ∈ results ∧ raw_number f r = min_raw f results.
Proof.
  intros Hs Hne. unfold min_raw.
  assert (raw_number f <$> results ≠ []) as Hne' by (by destruct results).
  destruct (min_float_spec _ Hne' (raws_not_nan f results Hs)) as [Hin _].
  apply list_elem_of_fmap in Hin as (r & Heq & Hr). by exists r.
Qed.

Lemma max_raw_attained f results :
  Forall (fun r => scorable f r = true) results →
  results ≠ [] → ∃ r, r ∈ results ∧ raw_number f r = max_raw f results.
Proof.
  intros Hs Hne. unfold max_raw.
  assert (raw_number f <$> results ≠ []) as Hne' by (by destruct results).
  destruct (max_float_spec _ Hne' (raws_not_nan f results Hs)) as [Hin _].
  apply list_elem_of_fmap in Hin as (r & Heq & Hr). by exists r.
Qed.

Lemma min_raw_le_max_raw f results :
  Forall (fun r => scorable f r = true) results →
  results ≠ [] → (min_raw f results <=? max_raw f results)%float = true.
Proof.
  intros Hs Hne. destruct (min_raw_attained f results Hs Hne) as (r & Hr & <-).
  by apply max_raw_ge.
Qed.

(** The divisor is not zero: the normaliser never divides by zero. *)
Lemma range_raw_nonzero f results :
  Forall (fun r => scorable f r = true) results →
  results ≠ [] → (range_raw f results =? 0)%float = false.
Proof.
  intros Hs Hne. apply range_nonzero. by apply min_raw_le_max_raw.
Qed.

Lemma range_raw_above_zero f results :
  Forall (fun r => scorable f r = true) results →
  results ≠ [] → above_zero (Prim2SF (range_raw f results)).
Proof.
  intros Hs Hne.
  destruct (min_raw_attained f results Hs Hne) as (r1 & Hr1 & H1).
  destruct (max_raw_attained f results Hs Hne) as (r2 & Hr2 & H2).
  apply range_above_zero.
  - by apply min_raw_le_max_raw.
  - rewrite <- H1. apply (scorable_finite f).
    rewrite Forall_forall in Hs. by apply Hs.
  - rewrite <- H2. apply (scorable_finite f).
    rewrite Forall_forall in Hs. by apply Hs.
Qed.

Lemma latest_elem k results r :
  latest k results = Some r →
  r ∈ results ∧ ∃ k', r !! "_id" = Some k' ∧ py_eq k' k = true.
Proof.
  induction results as [|r0 rest IH]; simpl; [done|].
  destruct (latest k rest) as [r'|].
  - intros [= ->]. destruct IH as [Hin Hk]; [done|]. split; [by right|done].
  - destruct (r0 !! "_id") as [k'|] eqn:Hid; [|done].
    destruct (py_eq k' k) eqn:Hk; [|done]. intros [= ->].
    split; [left|]. by exists k'.
Qed.

Lemma range_of_floats (mn mx : float) :
  range_of (Float mn) (Float mx) = Ok (mx - mn + 1e-6)%float.
Proof. reflexivity. Qed.

Lemma normalized_score_of_floats (raw mn rg : float) :
  (rg =? 0)%float = false →
  normalized_score_of (Float raw) (Float mn) rg = Ok ((raw - mn) / rg)%float.
Proof.
  intros H. unfold normalized_score_of, num_sub, num_div_float, to_float.
  cbn [mbind result_bind]. by rewrite H.
Qed.

Section NormalizeLoop.
Variables (f : string) (mn rg : float).
Hypothesis rg_nonzero : (rg =? 0)%float = false.

Lemma normalize_loop_well_keyed results acc d :
  normalize_loop results f (Float mn) rg acc = Ok d → well_keyed acc → well_keyed d.
Proof.
  revert acc. induction results as [|r rest IH]; intros acc; simpl.
  - by intros [= <-].
  - unfold mbind, result_bind, setitem.
    destruct (getitem r "_id") as [k|]; [|done].
    destruct (number_of (raw_score f r)) as [x|]; [|done].
    destruct (normalized_score_of x (Float mn) rg) as [s|]; [|done].
    destruct (hashable k); [|done].
    intros H Hacc. eapply IH; [exact H|]. by apply well_keyed_set.
Qed.

Lemma normalize_loop_lookup results acc d k :
  Forall (fun r => scorable f r = true) results →
  normalize_loop results f (Float mn) rg acc = Ok d →
  Dict.lookup k d =
  match latest k results with
  | Some r => Some (normalized_entry f mn rg r)
  | None => Dict.lookup k acc
  end.
Proof.
  intros Hs. revert acc.
  induction Hs as [|r rest Hr _ IH]; intros acc; simpl.
  - by intros [= <-].
  - unfold mbind, result_bind, setitem, getitem.
    destruct (r !! "_id") as [k'|]; [|done].
    rewrite (scorable_number _ _ Hr), normalized_score_of_floats by done.
    destruct (hashable k'); [|done].
    intros H. rewrite (IH _ H). destruct (latest k rest); [done|].
    rewrite lookup_set. by destruct (py_eq k' k).
Qed.

Lemma normalize_loop_keyable results acc d :
  Forall (fun r => scorable f r = true) results →
  normalize_loop results f (Float mn) rg acc = Ok d →
  Forall (fun k => keyable k = true) (Dict.keys acc) →
  Forall (fun k => keyable k = true) (Dict.keys d).
Proof.
  intros Hs. revert acc.
  induction Hs as [|r rest Hr _ IH]; intros acc; simpl.
  - by intros [= <-].
  - unfold mbind, result_bind, setitem, getitem.
    destruct (scorable_id _ _ Hr) as (k & -> & Hk).
    rewrite (scorable_number _ _ Hr), normalized_score_of_floats by done.
    rewrite (keyable_hashable _ Hk).
    intros H Hacc. eapply IH; [exact H|]. by apply keyable_set.
Qed.

Lemma normalize_loop_total results acc :
  Forall (fun r => scorable f r = true) results →
  ∃ d, normalize_loop results f (Float mn) rg acc = Ok d.
Proof.
  intros H. revert acc. induction H as [|r rest Hr _ IH]; intros acc; simpl.
  - by exists acc.
  - unfold mbind, result_bind, setitem, getitem.
    destruct (scorable_id _ _ Hr) as (k & -> & Hk).
    rewrite (scorable_number _ _ Hr), normalized_score_of_floats by done.
    rewrite (keyable_hashable _ Hk). apply IH.
Qed.
End NormalizeLoop.

(** The normaliser succeeds on scorable documents, and what it stores under a
    key is the entry of the last document with that key. *)
Lemma normalize_scores_lookup f results :
  Forall (fun r => scorable f r = true) results →
  ∃ d, normalize_scores results f = Ok d ∧ well_keyed d ∧
    Forall (fun k => keyable k = true) (Dict.keys d) ∧
    ∀ k, Dict.lookup k d = normalized f results k.
Proof.
  intros Hs. destruct results as [|r0 rest].
  { exists Dict.empty. by repeat split. }
  unfold normalize_scores. rewrite (collect_scores_total _ _ Hs).
  unfold mbind, result_bind.
  rewrite py_min_floats, py_max_floats by done. rewrite range_of_floats.
  fold (min_raw f (r0 :: rest)) (max_raw f (r0 :: rest)).
  fold (range_raw f (r0 :: rest)).
  pose proof (range_raw_nonzero f (r0 :: rest) Hs ltac:(done)) as Hrg.
  destruct (normalize_loop_total f (min_raw f (r0 :: rest)) _ Hrg _ Dict.empty Hs)
    as [d Hd].
  exists d. split; [done|]. split; [|split].
  - by eapply normalize_loop_well_keyed.
  - eapply normalize_loop_keyable; [exact Hrg|exact Hs|exact Hd|constructor].
  - intros k. rewrite (normalize_loop_lookup _ _ _ Hrg _ _ _ k Hs Hd).
    unfold normalized. by destruct (latest k (r0 :: rest)).
Qed.

Lemma normalize_scores_Ok_inv f results d :
  Forall (fun r => scorable f r = true) results →
  normalize_scores results f = Ok d →
  well_keyed d ∧ Forall (fun k => keyable k = true) (Dict.keys d) ∧
  ∀ k, Dict.lookup k d = normalized f results k.
Proof.
  intros Hs Hd.
  destruct (normalize_scores_lookup f results Hs) as (d' & Hd' & H).
  rewrite Hd in Hd'. by injection Hd' as <-.
Qed.

(** A normalised score is at least zero, and so no NaN, when the divisor is
    finite. *)
Lemma normalized_entry_nonneg f results r :
  Forall (fun r => scorable f r = true) results →
  spread_finite f results →
  r ∈ results →
  (0 <=? score (normalized_entry f (min_raw f results) (range_raw f results) r))%float
  = true.
Proof.
  intros Hs Hspread Hr.
  assert (results ≠ []) as Hne by (intros ->; by apply elem_of_nil in Hr).
  destruct (min_raw_attained f results Hs Hne) as (r1 & Hr1 & H1).
  rewrite Forall_forall in Hs.
  cbn [score normalized_entry]. apply normalized_nonneg.
  - apply min_raw_le; [by apply Forall_forall|done].
  - rewrite <- H1. by apply (scorable_finite f), Hs.
  - by apply (scorable_finite f), Hs.
  - apply range_raw_above_zero; [by apply Forall_forall|done].
  - done.
Qed.




Lemma normalized_inv f results k e :
  normalized f results k = Some e →
  doc e ∈ results ∧
  (∃ k', doc e !! "_id" = Some k' ∧ py_eq k' k = true) ∧
  score e = ((raw_number f (doc e) - min_raw f results) / range_raw f results)%float.
Proof.
  unfold normalized. destruct (latest k results) as [r|] eqn:Hr; [|done].
  intros [= <-]. apply latest_elem in Hr as [Hin Hk]. by repeat split.
Qed.

Lemma normalized_score_nonneg f results k e :
  Forall (fun r => scorable f r = true) results →
  spread_finite f results →
  normalized f results k = Some e → (0 <=? score e)%float = true.
Proof.
  intros Hs Hspread. unfold normalized.
  destruct (latest k results) as [r|] eqn:Hr; [|done].
  intros [= <-]. apply latest_elem in Hr as [Hr _].
  by apply normalized_entry_nonneg.
Qed.

Lemma latest_is_Some k results r :
  r ∈ results → r !! "_id" = Some k → keyable k = true →
  is_Some (latest k results).
Proof.
  induction results as [|r0 rest IH]; simpl; [by intros ?%elem_of_nil|].
  intros Hin Hk Hkey. destruct (latest k rest) as [r'|] eqn:Hl; [by eexists|].
  apply elem_of_cons in Hin as [->|Hin].
  - rewrite Hk, py_eq_refl by done. by eexists.
  - destruct (IH Hin Hk Hkey) as [? ?]. done.
Qed.


(** ** The two merge loops *)

Lemma merge_vector_lookup vs acc k :
  well_keyed vs →
  Dict.lookup k (merge_vector vs acc) =
  match Dict.lookup k vs with
  | Some v => Some {| doc := doc v; score := (score v * vector_weight)%float |}
  | None => Dict.lookup k acc
  end.
Proof.
  unfold merge_vector, Dict.items. revert acc.
  induction vs as [|[k0 v0] vs IH]; intros acc; simpl; [done|].
  intros [Hk0 Hvs]. rewrite IH by done. rewrite lookup_set.
  destruct (py_eq k0 k) eqn:Hk; [|done].
  by rewrite <- (lookup_congr _ _ _ Hk), Hk0.
Qed.

Lemma merge_text_lookup ts acc k :
  well_keyed ts →
  Dict.lookup k (merge_text ts acc) =
  match Dict.lookup k ts with
  | Some t =>
      Some match Dict.lookup k acc with
           | Some e => {| doc := doc e;
                          score := (score e + score t * text_weight)%float |}
           | None => {| doc := doc t; score := (score t * text_weight)%float |}
           end
  | None => Dict.lookup k acc
  end.
Proof.
  unfold merge_text, Dict.items. revert acc.
  induction ts as [|[k0 t0] ts IH]; intros acc; simpl; [done|].
  intros [Hk0 Hts]. rewrite IH by done. unfold Dict.mem.
  destruct (py_eq k0 k) eqn:Hk.
  - rewrite <- (lookup_congr _ _ _ Hk), Hk0.
    rewrite (lookup_congr _ _ acc Hk).
    destruct (Dict.lookup k acc) as [e|] eqn:He.
    + by rewrite lookup_alter, Hk, He.
    + by rewrite lookup_set, Hk.
  - destruct (Dict.lookup k ts); destruct (Dict.lookup k0 acc);
      by rewrite ?lookup_alter, ?lookup_set, Hk.
Qed.

Lemma merge_vector_well_keyed vs acc :
  well_keyed acc → well_keyed (merge_vector vs acc).
Proof.
  unfold merge_vector, Dict.items. revert acc.
  induction vs as [|[k0 v0] vs IH]; intros acc Hacc; simpl; [done|].
  by apply IH, well_keyed_set.
Qed.

Lemma merge_text_well_keyed ts acc :
  well_keyed acc → well_keyed (merge_text ts acc).
Proof.
  unfold merge_text, Dict.items. revert acc.
  induction ts as [|[k0 t0] ts IH]; intros acc Hacc; simpl; [done|].
  apply IH. destruct (Dict.mem k0 acc);
    [by apply well_keyed_alter|by apply well_keyed_set].
Qed.

Lemma merge_vector_keyable vs acc :
  Forall (fun k => keyable k = true) (Dict.keys vs) →
  Forall (fun k => keyable k = true) (Dict.keys acc) →
  Forall (fun k => keyable k = true) (Dict.keys (merge_vector vs acc)).
Proof.
  unfold merge_vector, Dict.items. revert acc.
  induction vs as [|[k0 v0] vs IH]; intros acc; simpl; [done|].
  intros [Hk0 Hvs]%Forall_cons Hacc. apply IH; [done|]. by apply keyable_set.
Qed.

Lemma merge_text_keyable ts acc :
  Forall (fun k => keyable k = true) (Dict.keys ts) →
  Forall (fun k => keyable k = true) (Dict.keys acc) →
  Forall (fun k => keyable k = true) (Dict.keys (merge_text ts acc)).
Proof.
  unfold merge_text, Dict.items. revert acc.
  induction ts as [|[k0 t0] ts IH]; intros acc; simpl; [done|].
  intros [Hk0 Hts]%Forall_cons Hacc. apply IH; [done|].
  destruct (Dict.mem k0 acc); [by apply keyable_alter|by apply keyable_set].
Qed.

(** ** Sorting and slicing *)

Lemma insert_desc_perm x l : insert_desc x l ≡ₚ x :: l.
Proof.
  induction l as [|y l IH]; simpl; [done|].
  destruct (score x <? score y)%float; [|done].
  rewrite IH. apply perm_swap.
Qed.

Lemma sorted_desc_perm l : sorted_desc l ≡ₚ l.
Proof.
  induction l as [|x l IH]; simpl; [done|].
  by rewrite insert_desc_perm, IH.
Qed.

Lemma insert_desc_sorted x l :
  is_nan (score x) = false → nan_free l →
  StronglySorted desc l → StronglySorted desc (insert_desc x l).
Proof.
  intros Hx Hl Hs. induction Hs as [|y l Hs IH Hy]; simpl.
  - by repeat constructor.
  - apply Forall_cons in Hl as [Hny Hl].
    destruct (score x <? score y)%float eqn:Hlt.
    + constructor; [by apply IH|]. rewrite insert_desc_perm.
      constructor; [|done]. by apply ltb_leb.
    + constructor; [by constructor|].
      assert (desc x y) as Hxy by (by apply leb_total).
      constructor; [done|]. eapply Forall_impl; [exact Hy|].
      intros z Hz. unfold desc in *. by apply leb_trans with (score y).
Qed.

Lemma sorted_desc_sorted l : nan_free l → StronglySorted desc (sorted_desc l).
Proof.
  induction l as [|x l IH]; simpl; [constructor|].
  intros [Hx Hl]%Forall_cons. apply insert_desc_sorted; [done| |by apply IH].
  unfold nan_free. by rewrite sorted_desc_perm.
Qed.

Lemma slice_to_prefix {A} (xs : list A) k : slice_to xs k `prefix_of` xs.
Proof.
  unfold slice_to. destruct k as [k|]; [|done].
  destruct (0 <=? k)%Z; apply prefix_take.
Qed.

Lemma slice_to_length {A} (xs : list A) k :
  (0 <= k)%Z → (Z.of_nat (length (slice_to xs (Some k))) <= k)%Z.
Proof.
  intros Hk. unfold slice_to. rewrite (proj2 (Z.leb_le 0 k) Hk).
  rewrite length_take. lia.
Qed.


(** Sorting does not reorder entries of one score. *)
Lemma insert_desc_filter (s : float) x l :
  List.filter (fun e => (score e =? s)%float) (insert_desc x l) =
  List.filter (fun e => (score e =? s)%float) (x :: l).
Proof.
  induction l as [|y l IH]; simpl; [done|].
  destruct (score x <? score y)%float eqn:Hlt; [|done].
  simpl. rewrite IH. simpl.
  destruct (score x =? s)%float eqn:Hx, (score y =? s)%float eqn:Hy; try done.
  by rewrite (eqb_ltb _ _ _ Hx Hy) in Hlt.
Qed.

Lemma sorted_desc_stable (s : float) l :
  List.filter (fun e => (score e =? s)%float) (sorted_desc l) =
  List.filter (fun e => (score e =? s)%float) l.
Proof.
  induction l as [|x l IH]; simpl; [done|].
  rewrite insert_desc_filter. simpl. by rewrite IH.
Qed.

(** ** Pairwise different identities *)

Lemma well_keyed_distinct {V} (d : Dict.t V) :
  well_keyed d ↔ distinct (Dict.keys d).
Proof.
  induction d as [|[k v] d IH]; simpl; [done|].
  rewrite IH, lookup_None_keys.
  split; intros [H1 H2]; (split; [|done]);
    (eapply Forall_impl; [exact H1|]); intros k'; by rewrite py_eq_sym.
Qed.

(** Read by positions: equal keys sit at the same position. *)
Lemma distinct_lookup l i j a b :
  distinct l → l !! i = Some a → l !! j = Some b → py_eq a b = true → i = j.
Proof.
  revert i j. induction l as [|x l IH]; intros i j; simpl; [done|].
  intros [Hx Hl] Hi Hj Hab. rewrite Forall_forall in Hx.
  destruct i as [|i], j as [|j]; simpl in *; simplify_eq.
  - done.
  - apply list_elem_of_lookup_2 in Hj. specialize (Hx _ Hj). congruence.
  - apply list_elem_of_lookup_2 in Hi. specialize (Hx _ Hi).
    rewrite py_eq_sym in Hab. congruence.
  - f_equal. by apply IH.
Qed.

Lemma distinct_perm l l' : l ≡ₚ l' → distinct l → distinct l'.
Proof.
  induction 1 as [|x l l' Hp IH|x y l|l1 l2 l3 _ IH1 _ IH2]; simpl.
  - done.
  - intros [H1 H2]. split; [by rewrite <- Hp|by apply IH].
  - intros [Hy [Hx Hl]]. apply Forall_cons in Hy as [Hyx Hy].
    repeat split; try done. constructor; [by rewrite py_eq_sym|done].
  - auto.
Qed.

Lemma distinct_prefix l l' : l `prefix_of` l' → distinct l' → distinct l.
Proof.
  intros [rest ->]. induction l as [|x l IH]; simpl; [done|].
  intros [H1 H2]. apply Forall_app in H1 as [H1 _]. split; [done|by apply IH].
Qed.

Lemma distinct_equal l l' :
  Forall2 (fun a b => py_eq a b = true) l l' → distinct l → distinct l'.
Proof.
  induction 1 as [|a b l l' Hab Hl IH]; simpl; [done|].
  intros [H1 H2]. split; [|by apply IH].
  clear IH H2. induction Hl as [|c e l l' Hce Hl IH]; [constructor|].
  apply Forall_cons in H1 as [Hac H1]. constructor; [|by apply IH].
  rewrite <- (py_eq_congr _ _ _ Hab), py_eq_sym.
  rewrite <- (py_eq_congr _ _ _ Hce). by rewrite py_eq_sym.
Qed.

(** Different object ids print differently. *)
Lemma distinct_oids_NoDup (hs : list string) :
  distinct (VOid <$> hs) → NoDup hs.
Proof.
  induction hs as [|h hs IH]; simpl; [constructor|].
  intros [H1 H2]. constructor; [|by apply IH].
  intros Hin. rewrite Forall_fmap, Forall_forall in H1.
  specialize (H1 h Hin). simpl in H1. rewrite py_eq_oid in H1.
  by apply bool_decide_eq_false in H1.
Qed.

Lemma distinct_app_inv l1 l2 k :
  distinct (l1 ++ k :: l2) → Forall (fun k' => py_eq k' k = false) l1.
Proof.
  induction l1 as [|a l1 IH]; simpl; [constructor|].
  intros [Ha Hd]. constructor; [|by apply IH].
  apply Forall_app in Ha as [_ Ha]. by apply Forall_cons in Ha as [Ha _].
Qed.

(** ** The merged map in terms of the two result lists *)

Section Merged.
Variables (vr tr : list document) (vs ts : Dict.t scored).
Hypothesis Hvs : ∀ k, Dict.lookup k vs = normalized "score" vr k.
Hypothesis Hts : ∀ k, Dict.lookup k ts = normalized "score" tr k.
Hypothesis Hvs_keys : well_keyed vs.
Hypothesis Hts_keys : well_keyed ts.
Hypothesis Hvs_keyable : Forall (fun k => keyable k = true) (Dict.keys vs).
Hypothesis Hts_keyable : Forall (fun k => keyable k = true) (Dict.keys ts).

Local Abbreviation result_map := (merge_text ts (merge_vector vs Dict.empty)).

Lemma merged_well_keyed : well_keyed result_map.
Proof. by apply merge_text_well_keyed, merge_vector_well_keyed. Qed.

Lemma merged_keyable : Forall (fun k => keyable k = true) (Dict.keys result_map).
Proof.
  apply merge_text_keyable; [done|]. apply merge_vector_keyable; [done|constructor].
Qed.

Lemma merged_lookup k :
  Dict.lookup k result_map =
  match Dict.lookup k vs, Dict.lookup k ts with
  | Some v, Some t =>
      Some {| doc := doc v;
              score := (score v * vector_weight + score t * text_weight)%float |}
  | Some v, None => Some {| doc := doc v; score := (score v * vector_weight)%float |}
  | None, Some t => Some {| doc := doc t; score := (score t * text_weight)%float |}
  | None, None => None
  end.
Proof.
  rewrite merge_text_lookup, merge_vector_lookup by done.
  by destruct (Dict.lookup k vs), (Dict.lookup k ts).
Qed.

(** A merged entry holds a document of one of the two lists, and that
    document's identity equals the key. *)
Lemma merged_entry_source k e :
  Dict.lookup k result_map = Some e →
  doc e ∈ (vr ++ tr)%list ∧ ∃ k', doc e !! "_id" = Some k' ∧ py_eq k' k = true.
Proof.
  rewrite merged_lookup, Hvs, Hts.
  destruct (normalized "score" vr k) as [v|] eqn:Hv;
    destruct (normalized "score" tr k) as [t|] eqn:Ht; intros [= <-]; simpl;
    try (apply normalized_inv in Hv as (Hin & Hk & _));
    try (apply normalized_inv in Ht as (Hin' & Hk' & _));
    rewrite elem_of_app; auto.
Qed.

Lemma merged_idents_distinct : distinct (ident <$> Dict.values result_map).
Proof.
  pose proof merged_well_keyed as Hwk. pose proof merged_keyable as Hka.
  apply (distinct_equal (Dict.keys result_map));
    [|by apply well_keyed_distinct].
  unfold Dict.keys, Dict.values. rewrite <- list_fmap_compose.
  apply Forall2_fmap, Forall_Forall2_diag, Forall_forall.
  intros [k e] Hin. simpl.
  apply (elem_lookup _ _ _ Hwk Hka) in Hin.
  apply merged_entry_source in Hin as (_ & k' & Hk' & Heq).
  unfold ident, get_none, get. rewrite Hk'. by rewrite py_eq_sym.
Qed.

Lemma merged_value_lookup e :
  e ∈ Dict.values result_map → ∃ k, Dict.lookup k result_map = Some e.
Proof.
  unfold Dict.values. intros ([k e'] & -> & Hin)%list_elem_of_fmap.
  exists k. apply elem_lookup; [apply merged_well_keyed|apply merged_keyable|done].
Qed.

(** Merged scores are at least zero, and so no NaN, when the divisors of both
    normalisations are finite. *)
Lemma merged_score_nonneg k e :
  Forall (fun r => scorable "score" r = true) vr →
  Forall (fun r => scorable "score" r = true) tr →
  spread_finite "score" vr → spread_finite "score" tr →
  Dict.lookup k result_map = Some e → (0 <=? score e)%float = true.
Proof.
  intros Hsv Hst Hfv Hft. rewrite merged_lookup, Hvs, Hts.
  destruct (normalized "score" vr k) as [v|] eqn:Hv;
    destruct (normalized "score" tr k) as [t|] eqn:Ht; intros [= <-]; simpl;
    try (apply (normalized_score_nonneg _ _ _ _ Hsv Hfv) in Hv);
    try (apply (normalized_score_nonneg _ _ _ _ Hst Hft) in Ht).
  - apply sum_nonneg; apply weighted_nonneg; done.
  - apply weighted_nonneg; [done|apply vector_weight_above_zero].
  - apply weighted_nonneg; [done|apply text_weight_above_zero].
Qed.

Lemma merged_nan_free :
  Forall (fun r => scorable "score" r = true) vr →
  Forall (fun r => scorable "score" r = true) tr →
  spread_finite "score" vr → spread_finite "score" tr →
  nan_free (Dict.values result_map).
Proof.
  intros Hsv Hst Hfv Hft. apply Forall_forall. intros e He.
  apply merged_value_lookup in He as [k He].
  by apply nonneg_not_nan, (merged_score_nonneg k).
Qed.
End Merged.

(** ** The sort of the merged entries *)

Lemma has_nan_false xs : has_nan xs = false ↔ nan_free xs.
Proof.
  unfold has_nan, nan_free. induction xs as [|x xs IH]; simpl.
  - split; [constructor|done].
  - rewrite orb_false_iff, IH, Forall_cons. done.
Qed.

Lemma sorted_by_score_perm sorted_with_nan xs :
  permuting sorted_with_nan → sorted_by_score sorted_with_nan xs ≡ₚ xs.
Proof.
  intros Hp. unfold sorted_by_score.
  destruct (has_nan xs); [apply Hp|apply sorted_desc_perm].
Qed.

Lemma sorted_by_score_nan_free sorted_with_nan xs :
  nan_free xs → sorted_by_score sorted_with_nan xs = sorted_desc xs.
Proof.
  intros H. unfold sorted_by_score.
  by rewrite (proj2 (has_nan_false xs) H).
Qed.

Lemma ranked_elem sorted_with_nan vs ts k e :
  permuting sorted_with_nan →
  e ∈ ranked sorted_with_nan vs ts k →
  e ∈ Dict.values (merge_text ts (merge_vector vs Dict.empty)).
Proof.
  unfold ranked. intros Hp He.
  rewrite <- (sorted_by_score_perm sorted_with_nan (Dict.values _) Hp).
  destruct (slice_to_prefix (sorted_by_score sorted_with_nan
    (Dict.values (merge_text ts (merge_vector vs Dict.empty)))) k) as [rest ->].
  apply elem_of_app. by left.
Qed.

Lemma ranked_nan_free sorted_with_nan vs ts k :
  nan_free (Dict.values (merge_text ts (merge_vector vs Dict.empty))) →
  ranked sorted_with_nan vs ts k =
  slice_to (sorted_desc (Dict.values (merge_text ts (merge_vector vs Dict.empty)))) k.
Proof. intros H. unfold ranked. by rewrite sorted_by_score_nan_free. Qed.


Lemma ranked_idents_distinct sorted_with_nan vr tr vs ts k :
  permuting sorted_with_nan →
  (∀ k, Dict.lookup k vs = normalized "score" vr k) →
  (∀ k, Dict.lookup k ts = normalized "score" tr k) →
  well_keyed vs → well_keyed ts →
  Forall (fun k => keyable k = true) (Dict.keys vs) →
  Forall (fun k => keyable k = true) (Dict.keys ts) →
  distinct (ident <$> ranked sorted_with_nan vs ts k).
Proof.
  intros Hp Hlv Hlt Hkv Hkt Hav Hat. unfold ranked.
  set (sorted_docs := sorted_by_score _ _).
  destruct (slice_to_prefix sorted_docs k) as [rest Hrest].
  apply distinct_prefix with (ident <$> sorted_docs).
  { exists (ident <$> rest). by rewrite <- fmap_app, <- Hrest. }
  eapply distinct_perm;
    [symmetry; apply fmap_Permutation, sorted_by_score_perm, Hp|].
  by apply (merged_idents_distinct vr tr).
Qed.

Lemma ranked_idents_oid sorted_with_nan vr tr vs ts k :
  permuting sorted_with_nan →
  (∀ k, Dict.lookup k vs = normalized "score" vr k) →
  (∀ k, Dict.lookup k ts = normalized "score" tr k) →
  well_keyed vs → well_keyed ts →
  Forall (fun k => keyable k = true) (Dict.keys vs) →
  Forall (fun k => keyable k = true) (Dict.keys ts) →
  Forall (fun r => is_oid (get_none r "_id")) (vr ++ tr) →
  Forall is_oid (ident <$> ranked sorted_with_nan vs ts k).
Proof.
  intros Hp Hlv Hlt Hkv Hkt Hav Hat Hoid. rewrite Forall_fmap, Forall_forall.
  intros e He. apply ranked_elem in He; [|done].
  apply merged_value_lookup in He as [id He]; try done.
  apply (merged_entry_source vr tr vs ts Hlv Hlt Hkv Hkt) in He as [Hin _].
  rewrite Forall_forall in Hoid. by apply Hoid.
Qed.

(** ** Validation of the response records *)

Lemma mapM_Ok {A B} (f : A → result B) (P : A → B → Prop) (l : list A) :
  Forall (fun a => ∃ b, f a = Ok b ∧ P a b) l →
  ∃ bs, mapM f l = Ok bs ∧ Forall2 P l bs.
Proof.
  induction 1 as [|a l (b & Hb & HP) _ (bs & Hbs & HPs)].
  - exists []. by split.
  - exists (b :: bs).
    change (mapM f (a :: l)) with (y ← f a; k ← mapM f l; mret (y :: k)).
    rewrite Hb, Hbs. split; [done|by constructor].
Qed.

Lemma validate_text_field d key s :
  text_field d key = Some s → validate_str (get d key (VStr "")) = Some s.
Proof.
  unfold text_field, get. destruct (d !! key) as [[]|]; simpl; congruence.
Qed.

Lemma validate_optional_text_field d key o :
  optional_text_field d key = Some o →
  validate_optional_str (get d key (VStr "")) = Some o.
Proof.
  unfold optional_text_field, get.
  destruct (d !! key) as [[]|]; simpl; congruence.
Qed.

Lemma validate_list_field d key o :
  list_field d key = Some o →
  validate_optional_list (get d key (VList [])) = Some o.
Proof.
  unfold list_field, get. destruct (d !! key) as [[]|]; simpl; congruence.
Qed.

Lemma validate_year_field int_of_str d o :
  year_field d = Some o →
  validate_optional_int int_of_str (get_none d "year") = Some o.
Proof.
  unfold year_field, get_none, get.
  destruct (d !! "year") as [[]|]; simpl; congruence.
Qed.

Lemma validate_float_scored float_of_str d :
  float_scored d = true →
  validate_float float_of_str (get d "score" (VFloat 0)) =
  Some (raw_number "score" d).
Proof.
  unfold float_scored, raw_number, get.
  by destruct (d !! "score") as [[]|].
Qed.

Lemma presentable_fields d :
  presentable d = true →
  ∃ title fullplot writers cast rated genres year,
    text_field d "title" = Some title ∧
    text_field d "fullplot" = Some fullplot ∧
    list_field d "writers" = Some writers ∧
    list_field d "cast" = Some cast ∧
    optional_text_field d "rated" = Some rated ∧
    list_field d "genres" = Some genres ∧
    year_field d = Some year.
Proof.
  unfold presentable. rewrite !andb_true_iff, !bool_decide_eq_true.
  intros (((((([t Ht] & [p Hp]) & [w Hw]) & [c Hc]) & [r Hr]) & [g Hg]) & [y Hy]).
  by exists t, p, w, c, r, g, y.
Qed.

Lemma shown_id float_str list_str d hex :
  d !! "_id" = Some (VOid hex) → py_str float_str list_str (get_none d "_id") = hex.
Proof. unfold get_none, get. by intros ->. Qed.

(** ** Running the service functions *)

Section ServiceFacts.
Variable encode : string → list Q.
Variable aggregate : pipeline → result (list document).
Variable float_str : float → string.
Variable list_str : list string → string.
Variable int_of_str : string → option Z.
Variable float_of_str : string → option float.
Variable sorted_with_nan : list scored → list scored.

(** The record of a merged entry with a presentable document shows the
    document and carries the entry's score. *)
Lemma result_of_scored_shows (e : scored) :
  presentable (doc e) = true →
  ∃ r, result_of_scored float_str list_str int_of_str float_of_str e = Ok r ∧
       shows (doc e) r ∧
       SearchResult.score r = score e ∧
       SearchResult._id r = py_str float_str list_str (ident e).
Proof.
  intros (t & p & w & c & r & g & y & Ht & Hp & Hw & Hc & Hr & Hg & Hy)
    %presentable_fields.
  unfold result_of_scored, new_SearchResult.
  rewrite (validate_text_field _ _ _ Ht), (validate_text_field _ _ _ Hp),
    (validate_list_field _ _ _ Hw), (validate_list_field _ _ _ Hc),
    (validate_optional_text_field _ _ _ Hr), (validate_list_field _ _ _ Hg),
    (validate_year_field _ _ _ Hy).
  cbn [validate_float]. eexists. split; [reflexivity|].
  split; [|done]. unfold shows. cbn.
  split; [intros hex; apply shown_id|done].
Qed.

(** The record of a presentable store document whose score is a float or
    absent shows the document and carries its score, [0.0] when absent. *)
Lemma result_of_doc_shows (d : document) :
  presentable d = true → float_scored d = true →
  ∃ r, result_of_doc float_str list_str int_of_str float_of_str d = Ok r ∧
       shows d r ∧
       SearchResult.score r = raw_number "score" d ∧
       SearchResult._id r = py_str float_str list_str (get_none d "_id").
Proof.
  intros (t & p & w & c & r & g & y & Ht & Hp & Hw & Hc & Hr & Hg & Hy)
    %presentable_fields Hs.
  unfold result_of_doc, new_SearchResult.
  rewrite (validate_text_field _ _ _ Ht), (validate_text_field _ _ _ Hp),
    (validate_list_field _ _ _ Hw), (validate_list_field _ _ _ Hc),
    (validate_optional_text_field _ _ _ Hr), (validate_list_field _ _ _ Hg),
    (validate_year_field _ _ _ Hy), (validate_float_scored _ _ Hs).
  eexists. split; [reflexivity|].
  split; [|done]. unfold shows. cbn.
  split; [intros hex; apply shown_id|done].
Qed.

Lemma hybrid_search_run q emb log vp tp vr tr :
  build_pipeline (with_type q "vector") emb = Ok vp →
  build_pipeline (with_type q "text") emb = Ok tp →
  aggregate vp = Ok vr →
  aggregate tp = Ok tr →
  Forall (fun r => scorable "score" r = true) vr →
  Forall (fun r => scorable "score" r = true) tr →
  ∃ vs ts,
    normalize_scores vr "score" = Ok vs ∧
    normalize_scores tr "score" = Ok ts ∧
    well_keyed vs ∧ well_keyed ts ∧
    Forall (fun k => keyable k = true) (Dict.keys vs) ∧
    Forall (fun k => keyable k = true) (Dict.keys ts) ∧
    (∀ k, Dict.lookup k vs = normalized "score" vr k) ∧
    (∀ k, Dict.lookup k ts = normalized "score" tr k) ∧
    hybrid_search aggregate float_str list_str int_of_str float_of_str
      sorted_with_nan q emb log =
      (mapM (result_of_scored float_str list_str int_of_str float_of_str)
         (ranked sorted_with_nan vs ts (top_k q)),
       (log ++ [AggregateCall vp; AggregateCall tp])%list).
Proof.
  intros Hvp Htp Hvr Htr Hsv Hst.
  destruct (normalize_scores_lookup "score" vr Hsv) as (vs & Hvs & Hkv & Hav & Hlv).
  destruct (normalize_scores_lookup "score" tr Hst) as (ts & Hts & Hkt & Hat & Hlt).
  exists vs, ts. repeat (split; [done|]).
  unfold hybrid_search, mbind, M_bind, lift, collection_aggregate, mret, M_ret.
  rewrite Hvp, Htp, Hvr, Htr, Hvs, Hts. by rewrite <- app_assoc.
Qed.

(** The entries of the ranked list have presentable documents when the
    documents of the store have. *)
Lemma ranked_presentable vr tr vs ts k :
  permuting sorted_with_nan →
  (∀ k, Dict.lookup k vs = normalized "score" vr k) →
  (∀ k, Dict.lookup k ts = normalized "score" tr k) →
  well_keyed vs → well_keyed ts →
  Forall (fun k => keyable k = true) (Dict.keys vs) →
  Forall (fun k => keyable k = true) (Dict.keys ts) →
  Forall (fun r => presentable r = true) (vr ++ tr) →
  Forall (fun e => presentable (doc e) = true) (ranked sorted_with_nan vs ts k).
Proof.
  intros Hp Hlv Hlt Hkv Hkt Hav Hat Hpr. rewrite Forall_forall.
  intros e He. apply ranked_elem in He; [|done].
  apply merged_value_lookup in He as [id He]; try done.
  apply (merged_entry_source vr tr vs ts Hlv Hlt Hkv Hkt) in He as [Hin _].
  rewrite Forall_forall in Hpr. by apply Hpr.
Qed.

(** The records of a list of entries with presentable documents. *)
Lemma records_of_entries (entries : list scored) :
  Forall (fun e => presentable (doc e) = true) entries →
  ∃ returned,
    mapM (result_of_scored float_str list_str int_of_str float_of_str) entries
      = Ok returned ∧
    Forall2 (fun e r => shows (doc e) r ∧ SearchResult.score r = score e ∧
                        SearchResult._id r = py_str float_str list_str (ident e))
      entries returned.
Proof.
  intros H. apply mapM_Ok. eapply Forall_impl; [exact H|].
  intros e He. by apply result_of_scored_shows.
Qed.

Lemma search_documents_hybrid q log :
  type q = Some "hybrid" →
  search_documents encode aggregate float_str list_str int_of_str float_of_str
    sorted_with_nan q log =
  hybrid_search aggregate float_str list_str int_of_str float_of_str
    sorted_with_nan q (encode (query q)) (log ++ [EncodeCall (query q)])%list.
Proof.
  intros Hq. unfold search_documents, mbind, M_bind, generate_embedding.
  by rewrite Hq.
Qed.

Lemma search_documents_single q log p rs :
  type q ≠ Some "hybrid" →
  build_pipeline q (encode (query q)) = Ok p →
  aggregate p = Ok rs →
  search_documents encode aggregate float_str list_str int_of_str float_of_str
    sorted_with_nan q log =
  (mapM (result_of_doc float_str list_str int_of_str float_of_str) rs,
   (log ++ [EncodeCall (query q); AggregateCall p])%list).
Proof.
  intros Hq Hp Hrs.
  unfold search_documents, mbind, M_bind, generate_embedding, lift,
    collection_aggregate, mret, M_ret.
  rewrite bool_decide_eq_false_2 by done. rewrite Hp, Hrs.
  by rewrite <- app_assoc.
Qed.

Lemma py_str_oids (ids : list value) :
  Forall is_oid ids → distinct ids → NoDup (py_str float_str list_str <$> ids).
Proof.
  induction 1 as [|v ids [h ->] Hids IH]; simpl; [constructor|].
  intros [Hh Hd]. constructor; [|by apply IH].
  intros (v & Hv & Hin)%list_elem_of_fmap.
  rewrite Forall_forall in Hids, Hh.
  destruct (Hids v Hin) as [h' ->]. simpl in Hv. subst h'.
  specialize (Hh _ Hin). rewrite py_eq_oid in Hh.
  by apply bool_decide_eq_false in Hh.
Qed.
End ServiceFacts.

(** ** The normaliser on an empty result list *)

(** C8.  Normalising an empty result list returns the empty mapping; it is a
    value, not an exception, whatever the score field is called. *)
Theorem normalize_scores_empty (score_field : string) :
  normalize_scores [] score_field = Ok Dict.empty.
Proof. reflexivity. Qed.

(** ** Pipeline construction *)

Lemma build_filters_year q :
  build_filters q !! "year" =
  match year_gt q with
  | Some y => if bool_decide (y ≠ 0%Z) then Some (Gt y) else None
  | None => None
  end.
Proof.
  unfold build_filters.
  destruct (year_gt q) as [y|], (genre q) as [g|];
    repeat case_bool_decide; by simplify_map_eq.
Qed.

Lemma build_filters_genres q :
  build_filters q !! "genres" =
  match genre q with
  | Some g => if bool_decide (g ≠ "") then Some (Equals g) else None
  | None => None
  end.
Proof.
  unfold build_filters.
  destruct (year_gt q) as [y|], (genre q) as [g|];
    repeat case_bool_decide; by simplify_map_eq.
Qed.

Lemma build_filters_other q key :
  key ≠ "year" → key ≠ "genres" → build_filters q !! key = None.
Proof.
  intros. unfold build_filters.
  destruct (year_gt q) as [y|], (genre q) as [g|];
    repeat case_bool_decide; by simplify_map_eq.
Qed.

(** The filter dict is empty exactly when neither optional field is truthy. *)
Lemma build_filters_empty q :
  build_filters q = ∅ ↔
  (year_gt q = None ∨ year_gt q = Some 0%Z) ∧ (genre q = None ∨ genre q = Some "").
Proof.
  unfold build_filters.
  destruct (year_gt q) as [y|], (genre q) as [g|]; repeat case_bool_decide; split;
    try (intros Hm; by apply insert_non_empty in Hm);
    try (intros [[?|?] [?|?]]; congruence);
    intros _; split; try (by left); right; congruence.
Qed.

(** C9.  The filter dict has a [year] predicate exactly when [year_gt] is
    given and not zero, a [genres] predicate exactly when [genre] is given and
    not the empty string, and no other key; a bound of [0] and an empty genre
    give the same filters and the same pipelines as an absent one. *)
Theorem build_filters_drops_falsy (q : SearchQuery) :
  (∀ p, build_filters q !! "year" = Some p ↔
        ∃ y, year_gt q = Some y ∧ y ≠ 0%Z ∧ p = Gt y) ∧
  (∀ p, build_filters q !! "genres" = Some p ↔
        ∃ g, genre q = Some g ∧ g ≠ "" ∧ p = Equals g) ∧
  (∀ key, key ≠ "year" → key ≠ "genres" → build_filters q !! key = None) ∧
  build_filters (with_year_gt q (Some 0%Z)) = build_filters (with_year_gt q None) ∧
  build_filters (with_genre q (Some "")) = build_filters (with_genre q None) ∧
  (∀ emb, build_pipeline (with_year_gt q (Some 0%Z)) emb =
          build_pipeline (with_year_gt q None) emb) ∧
  (∀ emb, build_pipeline (with_genre q (Some "")) emb =
          build_pipeline (with_genre q None) emb).
Proof.
  repeat split.
  - rewrite build_filters_year. destruct (year_gt q) as [y|]; [|done].
    case_bool_decide; [|done]. intros [= <-]. by exists y.
  - intros (y & Hy & Hne & ->). rewrite build_filters_year, Hy.
    by rewrite bool_decide_eq_true_2.
  - rewrite build_filters_genres. destruct (genre q) as [g|]; [|done].
    case_bool_decide; [|done]. intros [= <-]. by exists g.
  - intros (g & Hg & Hne & ->). rewrite build_filters_genres, Hg.
    by rewrite bool_decide_eq_true_2.
  - apply build_filters_other.
Qed.

(** C6.  A text request whose filter dict is empty gets the three-stage
    pipeline search, project, limit: no stage of it is a [$match] stage and
    none is the empty dict. *)
Theorem text_pipeline_no_filter_stage (q : SearchQuery) (emb : list Q) (k : Z) :
  type q = Some "text" →
  top_k q = Some k →
  build_filters q = ∅ →
  ∃ p, build_pipeline q emb = Ok p ∧
       p = [ SearchStage "default" (query q) ["fullplot"; "genres"; "title"] 2;
             ProjectStage display_fields "searchScore";
             LimitStage k ] ∧
       Forall (fun s => is_match s = false ∧ s ≠ EmptyStage) p.
Proof.
  intros Ht Hk Hf. eexists. split; [|split; [reflexivity|]].
  - unfold build_pipeline. rewrite Hk, Ht, Hf. reflexivity.
  - repeat constructor; discriminate.
Qed.

(** The scenario request in text mode has no filters and gets no filter stage. *)
Lemma text_pipeline_no_filter_stage_witness :
  ∃ p, build_pipeline (scenario_query "text" 5) [1%Q] = Ok p ∧
       Forall (fun s => is_match s = false ∧ s ≠ EmptyStage) p.
Proof.
  destruct (text_pipeline_no_filter_stage (scenario_query "text" 5) [1%Q] 5)
    as (p & Hp & _ & Hno); [reflexivity|reflexivity|reflexivity|].
  exists p. split; [exact Hp|exact Hno].
Defined.

(** ** Dispatch on the search mode *)

(** C5.  For a request with an integer [top_k] whose mode is none of
    [vector], [text] and [hybrid], pipeline construction raises the
    invalid-mode [ValueError], the dispatcher raises it too, and the only call
    the dispatcher has made is the embedding of the query text: no pipeline
    was sent to the store. *)
Theorem search_documents_invalid_mode
    (encode : string → list Q) (aggregate : pipeline → result (list document))
    (float_str : float → string) (list_str : list string → string)
    (int_of_str : string → option Z) (float_of_str : string → option float)
    (sorted_with_nan : list scored → list scored)
    (q : SearchQuery) (k : Z) (log : list call) :
  top_k q = Some k →
  type q ≠ Some "vector" → type q ≠ Some "text" → type q ≠ Some "hybrid" →
  (∀ emb, build_pipeline q emb = Raise (ValueError "Invalid search type")) ∧
  search_documents encode aggregate float_str list_str int_of_str float_of_str
    sorted_with_nan q log =
    (Raise (ValueError "Invalid search type"),
     (log ++ [EncodeCall (query q)])%list) ∧
  List.filter is_aggregate
    (snd (search_documents encode aggregate float_str list_str int_of_str
            float_of_str sorted_with_nan q log)) =
  List.filter is_aggregate log.
Proof.
  intros Hk Hv Ht Hh.
  assert (∀ emb, build_pipeline q emb = Raise (ValueError "Invalid search type"))
    as Hb.
  { intros emb. unfold build_pipeline. rewrite Hk.
    by rewrite !bool_decide_eq_false_2. }
  assert (search_documents encode aggregate float_str list_str int_of_str
            float_of_str sorted_with_nan q log =
          (Raise (ValueError "Invalid search type"),
           (log ++ [EncodeCall (query q)])%list)) as Hs.
  { unfold search_documents, mbind, M_bind, generate_embedding, lift.
    rewrite bool_decide_eq_false_2 by done. by rewrite Hb. }
  split; [done|]. split; [done|].
  rewrite Hs. simpl. rewrite List.filter_app. simpl. apply app_nil_r.
Qed.

(** The mode [fuzzy] is rejected after the embedding call alone. *)
Lemma search_documents_invalid_mode_witness :
  search_documents scenario_encode scenario_store scenario_float_str
    scenario_list_str scenario_int_of_str scenario_float_of_str
    scenario_sorted_with_nan (scenario_query "fuzzy" 5) [] =
  (Raise (ValueError "Invalid search type"), [EncodeCall "space"]).
Proof.
  exact (proj1 (proj2 (search_documents_invalid_mode scenario_encode
    scenario_store scenario_float_str scenario_list_str scenario_int_of_str
    scenario_float_of_str scenario_sorted_with_nan
    (scenario_query "fuzzy" 5) 5 [] eq_refl
    ltac:(discriminate) ltac:(discriminate) ltac:(discriminate)))).
Defined.

(** ** The normaliser on a non-empty result list *)




(** With raw scores [1e11] and [0.0] the divisor rounds to [1e11], and the
    maximum is normalised to [1.0] itself. *)
Example normalize_scores_reaches_one :
  ∃ d e,
    normalize_scores far_apart "score" = Ok d ∧
    Dict.lookup (VOid "A") d = Some e ∧
    score e = 1%float.
Proof.
  eexists. eexists. split; [vm_compute; reflexivity|].
  split; [vm_compute; reflexivity|reflexivity].
Qed.

(** With raw scores [1e308] and [-1e308] the difference overflows, the divisor
    is infinite, and the maximum is normalised to a NaN, which is not in
    [[0,1]]. *)
Example normalize_scores_overflow :
  ∃ d e,
    normalize_scores overflowing "score" = Ok d ∧
    Dict.lookup (VOid "A") d = Some e ∧
    is_nan (score e) = true ∧
    (0 <=? score e)%float = false ∧ (score e <=? 1)%float = false.
Proof.
  eexists. eexists. split; [vm_compute; reflexivity|].
  split; [vm_compute; reflexivity|]. by vm_compute.
Qed.

(** ** Documents without a score *)

Lemma raw_number_missing f r : r !! f = None → raw_number f r = 0%float.
Proof. unfold raw_number. by intros ->. Qed.


(** C10.  A result list whose documents have a usable [_id] and either no
    score field or a finite float in it is normalised without an exception.
    For a document without the field the number collected at its position is
    the float [0.0], the minimum and the maximum taken over the collected
    numbers enclose [0.0], and its entry holds
    [(0.0 - min) / (max - min + 1e-6)].  In vector and text mode, when the
    store returns presentable documents whose score is a float or absent, the
    dispatcher returns one record per document, in order, that shows the
    document, and the record of a document without a score has the score
    [0.0]. *)
Theorem missing_score_counts_as_zero
    (encode : string → list Q) (aggregate : pipeline → result (list document))
    (float_str : float → string) (list_str : list string → string)
    (int_of_str : string → option Z) (float_of_str : string → option float)
    (sorted_with_nan : list scored → list scored)
    (results : list document) (f : string) :
  Forall (fun r => scorable f r = true) results →
  (∃ d scores,
     normalize_scores results f = Ok d ∧
     collect_scores results f = Ok scores ∧
     (∀ i r, results !! i = Some r → r !! f = None →
             scores !! i = Some (Float 0)) ∧
     (∀ r, r ∈ results → r !! f = None →
           py_min scores = Ok (Float (min_raw f results)) ∧
           py_max scores = Ok (Float (max_raw f results)) ∧
           (min_raw f results <=? 0)%float = true ∧
           (0 <=? max_raw f results)%float = true) ∧
     (∀ k e, Dict.lookup k d = Some e → doc e !! f = None →
             score e =
               ((0 - min_raw f results) /
                (max_raw f results - min_raw f results + 1e-6))%float)) ∧
  (∀ q log p rs, type q ≠ Some "hybrid" →
        build_pipeline q (encode (query q)) = Ok p →
        aggregate p = Ok rs →
        Forall (fun r => presentable r = true) rs →
        Forall (fun r => float_scored r = true) rs →
        ∃ returned,
          search_documents encode aggregate float_str list_str int_of_str
            float_of_str sorted_with_nan q log =
          (Ok returned,
           (log ++ [EncodeCall (query q); AggregateCall p])%list) ∧
          Forall2 (fun r record =>
                     shows r record ∧
                     (∀ x, r !! "score" = Some (VFloat x) →
                           SearchResult.score record = x) ∧
                     (r !! "score" = None →
                      SearchResult.score record = 0%float))
            rs returned).
Proof.
  intros Hs. split.
  - destruct (normalize_scores_lookup f results Hs) as (d & Hd & Hwk & Hka & Hl).
    exists d, (Float <$> (raw_number f <$> results)).
    split; [done|]. split; [by apply collect_scores_total|]. split; [|split].
    + intros i r Hi Hf. rewrite !list_lookup_fmap, Hi. simpl.
      by rewrite raw_number_missing.
    + intros r Hr Hf.
      pose proof (min_raw_le f results r Hs Hr) as Hmin.
      pose proof (max_raw_ge f results r Hs Hr) as Hmax.
      rewrite raw_number_missing in Hmin, Hmax by done.
      assert (raw_number f <$> results ≠ []) as Hne
        by (destruct results; [by apply elem_of_nil in Hr|done]).
      by rewrite py_min_floats, py_max_floats.
    + intros k e. rewrite Hl. unfold normalized.
      destruct (latest k results) as [r|]; [|done]. intros [= <-] Hf.
      simpl in *. by rewrite raw_number_missing.
  - intros q log p rs Hq Hp Hrs Hpres Hfl.
    rewrite (search_documents_single _ _ _ _ _ _ _ _ _ p rs) by done.
    destruct (mapM_Ok (result_of_doc float_str list_str int_of_str float_of_str)
                (fun r record =>
                   shows r record ∧
                   (∀ x, r !! "score" = Some (VFloat x) →
                         SearchResult.score record = x) ∧
                   (r !! "score" = None → SearchResult.score record = 0%float))
                rs) as (returned & Hret & Hall).
    { rewrite Forall_forall in Hpres, Hfl. apply Forall_forall. intros r Hr.
      destruct (result_of_doc_shows float_str list_str int_of_str float_of_str r
                  (Hpres r Hr) (Hfl r Hr)) as (record & Hrec & Hshow & Hsc & _).
      exists record. split; [done|]. split; [done|].
      rewrite Hsc. unfold raw_number. split; [by intros x ->|by intros ->]. }
    exists returned. by rewrite Hret.
Qed.

(** A movie without a score next to one with the score 0.9. *)
Lemma missing_score_counts_as_zero_witness :
  ∃ d e,
    normalize_scores partly_scored "score" = Ok d ∧
    Dict.lookup (VOid "D") d = Some e ∧
    score e =
      ((0 - min_raw "score" partly_scored) /
       (max_raw "score" partly_scored - min_raw "score" partly_scored + 1e-6))%float.
Proof.
  destruct (missing_score_counts_as_zero scenario_encode scenario_store
              scenario_float_str scenario_list_str scenario_int_of_str
              scenario_float_of_str scenario_sorted_with_nan partly_scored "score")
    as [(d & scores & Hd & _ & _ & _ & He) _]; [repeat constructor|].
  vm_compute in Hd. injection Hd as <-.
  eexists. eexists. split; [vm_compute; reflexivity|]. split; [reflexivity|].
  apply (He (VOid "D")); reflexivity.
Defined.

(** In text mode the record of the movie without a score has the score
    [0.0]. *)
Example missing_score_record :
  (fun returned : list SearchResult.t => SearchResult.score <$> returned) <$>
    fst (search_documents scenario_encode partly_scored_store scenario_float_str
           scenario_list_str scenario_int_of_str scenario_float_of_str
           scenario_sorted_with_nan (scenario_query "text" 5) []) =
  Ok [0.9%float; 0%float].
Proof. vm_compute. reflexivity. Qed.

(** ** The hybrid merger *)



(** B is found by both pipelines under different titles: the returned record
    has the title of the vector-side document. *)
Example vector_document_preferred :
  (fun returned : list SearchResult.t => SearchResult.title <$> returned) <$>
    fst (hybrid_search retitled_store scenario_float_str scenario_list_str
           scenario_int_of_str scenario_float_of_str scenario_sorted_with_nan
           (scenario_query "hybrid" 5) [1%Q] []) =
  Ok ["Alien"; "Brazil"; "Contact"].
Proof. vm_compute. reflexivity. Qed.

Lemma shown_ids float_str list_str (entries : list scored)
    (returned : list SearchResult.t) :
  Forall2 (fun e r => shows (doc e) r ∧ SearchResult.score r = score e ∧
                      SearchResult._id r = py_str float_str list_str (ident e))
    entries returned →
  SearchResult._id <$> returned = py_str float_str list_str <$> (ident <$> entries) ∧
  SearchResult.score <$> returned = score <$> entries.
Proof.
  induction 1 as [|e r entries returned (_ & Hs & Hid) _ [IH1 IH2]]; [done|].
  rewrite !fmap_cons. by rewrite Hs, Hid, IH1, IH2.
Qed.

(** C3.  For a hybrid request with a count [k >= 0], when the store answers
    the two pipelines with lists of scorable, presentable documents, the
    search returns one record for each of a list of merged entries that has
    at most [k] elements and whose documents have pairwise different
    identities; when the identities are object ids, the [_id] strings of the
    returned records are pairwise different as well. *)
Theorem search_hybrid_bounded_distinct
    (encode : string → list Q) (aggregate : pipeline → result (list document))
    (float_str : float → string) (list_str : list string → string)
    (int_of_str : string → option Z) (float_of_str : string → option float)
    (sorted_with_nan : list scored → list scored)
    (q : SearchQuery) (k : Z) (log : list call)
    (vp tp : pipeline) (vr tr : list document) :
  permuting sorted_with_nan →
  type q = Some "hybrid" →
  top_k q = Some k →
  (0 <= k)%Z →
  build_pipeline (with_type q "vector") (encode (query q)) = Ok vp →
  build_pipeline (with_type q "text") (encode (query q)) = Ok tp →
  aggregate vp = Ok vr →
  aggregate tp = Ok tr →
  Forall (fun r => scorable "score" r = true) (vr ++ tr) →
  Forall (fun r => presentable r = true) (vr ++ tr) →
  ∃ entries returned,
    search_documents encode aggregate float_str list_str int_of_str float_of_str
      sorted_with_nan q log =
      (Ok returned,
       (log ++ [EncodeCall (query q); AggregateCall vp; AggregateCall tp])%list) ∧
    Forall2 (fun e r => shows (doc e) r ∧ SearchResult.score r = score e ∧
                        SearchResult._id r = py_str float_str list_str (ident e))
      entries returned ∧
    (Z.of_nat (length returned) <= k)%Z ∧
    distinct (ident <$> entries) ∧
    (Forall (fun r => is_oid (get_none r "_id")) (vr ++ tr) →
     NoDup (SearchResult._id <$> returned)).
Proof.
  intros Hperm Hq Hk Hk0 Hvp Htp Hvr Htr [Hsv Hst]%Forall_app Hpres.
  destruct (hybrid_search_run aggregate float_str list_str int_of_str
              float_of_str sorted_with_nan q (encode (query q))
              (log ++ [EncodeCall (query q)]) vp tp vr tr Hvp Htp Hvr Htr Hsv Hst)
    as (vs & ts & Hvs & Hts & Hkv & Hkt & Hav & Hat & Hlv & Hlt & Hrun).
  pose proof (ranked_presentable sorted_with_nan vr tr vs ts (top_k q)
                Hperm Hlv Hlt Hkv Hkt Hav Hat Hpres) as Hrp.
  destruct (records_of_entries float_str list_str int_of_str float_of_str _ Hrp)
    as (returned & Hret & Hall).
  exists (ranked sorted_with_nan vs ts (top_k q)), returned. split.
  { rewrite search_documents_hybrid by done. rewrite Hrun, Hret.
    by rewrite <- app_assoc. }
  split; [done|]. split; [|split].
  - rewrite <- (Forall2_length _ _ _ Hall). unfold ranked. rewrite Hk.
    by apply slice_to_length.
  - by apply (ranked_idents_distinct sorted_with_nan vr tr).
  - intros Hoid. destruct (shown_ids _ _ _ _ Hall) as [-> _].
    apply py_str_oids.
    + by apply (ranked_idents_oid sorted_with_nan vr tr).
    + by apply (ranked_idents_distinct sorted_with_nan vr tr).
Qed.

(** Two results are requested from the scenario store. *)
Lemma search_hybrid_bounded_distinct_witness :
  ∃ returned log',
    search_documents scenario_encode scenario_store scenario_float_str
      scenario_list_str scenario_int_of_str scenario_float_of_str
      scenario_sorted_with_nan (scenario_query "hybrid" 2) [] =
      (Ok returned, log') ∧
    (Z.of_nat (length returned) <= 2)%Z ∧
    NoDup (SearchResult._id <$> returned).
Proof.
  edestruct (search_hybrid_bounded_distinct scenario_encode scenario_store
               scenario_float_str scenario_list_str scenario_int_of_str
               scenario_float_of_str scenario_sorted_with_nan
               (scenario_query "hybrid" 2) 2 [])
    as (entries & returned & Hrun & _ & Hlen & _ & Hnodup);
    [intros l; reflexivity|reflexivity|reflexivity|discriminate|reflexivity
    |reflexivity|reflexivity|reflexivity|repeat constructor|repeat constructor|].
  exists returned. eexists. split; [exact Hrun|]. split; [exact Hlen|].
  apply Hnodup. repeat constructor; eexists; reflexivity.
Defined.




(** ** The worked scenario *)

(** C7, as amended.  With vector scores A 0.9, B 0.5 and text scores B 0.8,
    C 0.2 the search for five results returns A, B, C in this order.  The
    combined scores are the floats [(0.9 - 0.5) / (0.9 - 0.5 + 1e-6) * 0.6],
    which is 0.59999850000374999, for A,
    [(0.5 - 0.5) / (0.9 - 0.5 + 1e-6) * 0.6 + (0.8 - 0.2) / (0.8 - 0.2 + 1e-6) * 0.4],
    which is 0.39999933333444448, for B, and [0] for C: A is less than [2e-6]
    below 0.6 and B less than [1e-6] below 0.4.  The search for two results
    returns A and B with the same scores, and not C. *)
Theorem scenario_ranking (sorted_with_nan : list scored → list scored) :
  ∃ a b c,
    fst (hybrid_search scenario_store scenario_float_str scenario_list_str
           scenario_int_of_str scenario_float_of_str sorted_with_nan
           (scenario_query "hybrid" 5) [1%Q] []) =
      Ok [scenario_result "A" "Alien" a;
          scenario_result "B" "Brazil" b;
          scenario_result "C" "Contact" c] ∧
    fst (hybrid_search scenario_store scenario_float_str scenario_list_str
           scenario_int_of_str scenario_float_of_str sorted_with_nan
           (scenario_query "hybrid" 2) [1%Q] []) =
      Ok [scenario_result "A" "Alien" a; scenario_result "B" "Brazil" b] ∧
    a = ((0.9 - 0.5) / (0.9 - 0.5 + 1e-6) * vector_weight)%float ∧
    b = ((0.5 - 0.5) / (0.9 - 0.5 + 1e-6) * vector_weight +
         (0.8 - 0.2) / (0.8 - 0.2 + 1e-6) * text_weight)%float ∧
    a = 0.59999850000374999%float ∧
    b = 0.39999933333444448%float ∧
    c = 0%float ∧
    (0.6 - 2e-6 <? a)%float = true ∧ (a <? 0.6)%float = true ∧
    (0.4 - 1e-6 <? b)%float = true ∧ (b <? 0.4)%float = true.
Proof.
  do 3 eexists. split; [vm_compute; reflexivity|].
  split; [vm_compute; reflexivity|].
  repeat split; vm_compute; reflexivity.
Qed.

(** C7, the claim as it was written fails: in the scenario the combined
    scores of A and B are not 0.6 and 0.4, they are strictly smaller. *)
Lemma scenario_scores_not_exact :
  ∃ a b c,
    fst (hybrid_search scenario_store scenario_float_str scenario_list_str
           scenario_int_of_str scenario_float_of_str scenario_sorted_with_nan
           (scenario_query "hybrid" 5) [1%Q] []) =
      Ok [scenario_result "A" "Alien" a;
          scenario_result "B" "Brazil" b;
          scenario_result "C" "Contact" c] ∧
    (a =? 0.6)%float = false ∧ (b =? 0.4)%float = false ∧
    (a <? 0.6)%float = true ∧ (b <? 0.4)%float = true.
Proof.
  do 3 eexists. split; [vm_compute; reflexivity|].
  repeat split; vm_compute; reflexivity.
Qed.

(** * Further properties of the search code *)

(** ** Pipelines *)

(** X1.  A text request with an integer [top_k] and a non-empty filter dict
    gets four stages: the filters are applied by a [$match] stage that
    carries exactly the derived filter dict, directly after the search stage
    and before the projection and the limit. *)
Theorem text_pipeline_applies_filters (q : SearchQuery) (emb : list Q) (k : Z) :
  type q = Some "text" →
  top_k q = Some k →
  build_filters q ≠ ∅ →
  build_pipeline q emb =
  Ok [ SearchStage "default" (query q) ["fullplot"; "genres"; "title"] 2;
       MatchStage (build_filters q);
       ProjectStage display_fields "searchScore";
       LimitStage k ].
Proof.
  intros Ht Hk Hf. unfold build_pipeline. rewrite Hk, Ht.
  by rewrite (bool_decide_eq_true_2 _ Hf).
Qed.

(** The scenario text request with the bound 1990. *)
Lemma text_pipeline_applies_filters_witness :
  build_pipeline filtered_query [1%Q] =
  Ok [ SearchStage "default" "space" ["fullplot"; "genres"; "title"] 2;
       MatchStage {["year" := Gt 1990]};
       ProjectStage display_fields "searchScore";
       LimitStage 5 ].
Proof.
  apply (text_pipeline_applies_filters filtered_query [1%Q] 5);
    [reflexivity|reflexivity|].
  intros H. by apply (f_equal (fun m : filter_set => m !! "year")) in H.
Defined.

(** X2.  Outside vector mode the outcome of pipeline construction does not
    depend on the embedding: the text pipeline, and the error of an invalid
    mode or a missing count, are the same for any two vectors. *)
Theorem pipeline_ignores_embedding_outside_vector_mode
    (q : SearchQuery) (emb1 emb2 : list Q) :
  type q ≠ Some "vector" →
  build_pipeline q emb1 = build_pipeline q emb2.
Proof.
  intros Hq. unfold build_pipeline. destruct (top_k q) as [k|]; [|done].
  by rewrite (bool_decide_eq_false_2 _ Hq).
Qed.

(** Two different vectors give the scenario text request one pipeline. *)
Lemma pipeline_ignores_embedding_outside_vector_mode_witness :
  build_pipeline filtered_query [1%Q] = build_pipeline filtered_query [0%Q; 1%Q].
Proof.
  apply (pipeline_ignores_embedding_outside_vector_mode filtered_query).
  discriminate.
Defined.

(** ** Scores of the merged map *)

(** X3.  When the store answers both pipelines with scorable, presentable
    documents and the divisors of both normalisations are finite, every
    record a hybrid search returns has a score that is at least [0.0]; in
    particular no score is a NaN. *)
Theorem hybrid_scores_not_negative
    (aggregate : pipeline → result (list document))
    (float_str : float → string) (list_str : list string → string)
    (int_of_str : string → option Z) (float_of_str : string → option float)
    (sorted_with_nan : list scored → list scored)
    (q : SearchQuery) (emb : list Q) (log : list call)
    (vp tp : pipeline) (vr tr : list document) :
  build_pipeline (with_type q "vector") emb = Ok vp →
  build_pipeline (with_type q "text") emb = Ok tp →
  aggregate vp = Ok vr →
  aggregate tp = Ok tr →
  Forall (fun r => scorable "score" r = true) (vr ++ tr) →
  Forall (fun r => presentable r = true) (vr ++ tr) →
  spread_finite "score" vr →
  spread_finite "score" tr →
  ∃ returned,
    hybrid_search aggregate float_str list_str int_of_str float_of_str
      sorted_with_nan q emb log =
      (Ok returned, (log ++ [AggregateCall vp; AggregateCall tp])%list) ∧
    Forall (fun r => (0 <=? SearchResult.score r)%float = true ∧
                     is_nan (SearchResult.score r) = false) returned.
Proof.
  intros Hvp Htp Hvr Htr [Hsv Hst]%Forall_app Hpres Hfv Hft.
  destruct (hybrid_search_run aggregate float_str list_str int_of_str
              float_of_str sorted_with_nan q emb log
              vp tp vr tr Hvp Htp Hvr Htr Hsv Hst)
    as (vs & ts & Hvs & Hts & Hkv & Hkt & Hav & Hat & Hlv & Hlt & Hrun).
  pose proof (merged_nan_free vr tr vs ts Hlv Hlt Hkv Hkt Hav Hat
                Hsv Hst Hfv Hft) as Hnan.
  assert (∀ e, e ∈ ranked sorted_with_nan vs ts (top_k q) →
               ∃ id, Dict.lookup id (merge_text ts (merge_vector vs Dict.empty))
                     = Some e) as Hin.
  { intros e He. rewrite ranked_nan_free in He by done.
    apply merged_value_lookup; [done|done|].
    rewrite <- (sorted_desc_perm (Dict.values _)).
    destruct (slice_to_prefix (sorted_desc
      (Dict.values (merge_text ts (merge_vector vs Dict.empty)))) (top_k q))
      as [rest ->].
    apply elem_of_app. by left. }
  assert (Forall (fun e => presentable (doc e) = true)
            (ranked sorted_with_nan vs ts (top_k q))) as Hrp.
  { apply Forall_forall. intros e [id Hid]%Hin.
    apply (merged_entry_source vr tr vs ts Hlv Hlt Hkv Hkt) in Hid as [Hd _].
    rewrite Forall_forall in Hpres. by apply Hpres. }
  destruct (records_of_entries float_str list_str int_of_str float_of_str _ Hrp)
    as (returned & Hret & Hall).
  exists returned. split; [by rewrite Hrun, Hret|].
  apply Forall_forall. intros r Hr.
  apply list_elem_of_lookup in Hr as [i Hi].
  destruct (Forall2_lookup_r _ _ _ _ _ Hall Hi) as (e & He & _ & Hscore & _).
  apply list_elem_of_lookup_2 in He. apply Hin in He as [id Hid].
  rewrite Hscore.
  pose proof (merged_score_nonneg vr tr vs ts Hlv Hlt Hkv Hkt id e
                Hsv Hst Hfv Hft Hid) as H0.
  split; [done|by apply nonneg_not_nan].
Qed.

(** The scenario store. *)
Lemma hybrid_scores_not_negative_witness :
  ∃ returned log',
    hybrid_search scenario_store scenario_float_str scenario_list_str
      scenario_int_of_str scenario_float_of_str scenario_sorted_with_nan
      (scenario_query "hybrid" 5) [1%Q] [] = (Ok returned, log') ∧
    Forall (fun r => (0 <=? SearchResult.score r)%float = true ∧
                     is_nan (SearchResult.score r) = false) returned.
Proof.
  edestruct (hybrid_scores_not_negative scenario_store scenario_float_str
               scenario_list_str scenario_int_of_str scenario_float_of_str
               scenario_sorted_with_nan (scenario_query "hybrid" 5) [1%Q] [])
    as (returned & Hrun & Hall);
    [reflexivity|reflexivity|reflexivity|reflexivity
    |repeat constructor|repeat constructor|reflexivity|reflexivity|].
  exists returned. eexists. split; [exact Hrun|exact Hall].
Defined.

(** ** What the truncation keeps *)

(** X5.  A hybrid search for [k >= 0] results over scorable, presentable
    store answers with finite divisors returns the records of the first
    [min k n] of the [n] merged entries in ranked order.  The entries it
    drops score no higher than any entry it returns, and the returned and
    dropped entries together are the merged map, which has an entry for the
    identity of every document of either result list: when [k] is at least
    [n] nothing is dropped. *)
Theorem hybrid_returns_top_k
    (aggregate : pipeline → result (list document))
    (float_str : float → string) (list_str : list string → string)
    (int_of_str : string → option Z) (float_of_str : string → option float)
    (sorted_with_nan : list scored → list scored)
    (q : SearchQuery) (k : Z) (emb : list Q) (log : list call)
    (vp tp : pipeline) (vr tr : list document) :
  top_k q = Some k →
  (0 <= k)%Z →
  build_pipeline (with_type q "vector") emb = Ok vp →
  build_pipeline (with_type q "text") emb = Ok tp →
  aggregate vp = Ok vr →
  aggregate tp = Ok tr →
  Forall (fun r => scorable "score" r = true) (vr ++ tr) →
  Forall (fun r => presentable r = true) (vr ++ tr) →
  spread_finite "score" vr →
  spread_finite "score" tr →
  ∃ vs ts kept dropped returned,
    normalize_scores vr "score" = Ok vs ∧
    normalize_scores tr "score" = Ok ts ∧
    hybrid_search aggregate float_str list_str int_of_str float_of_str
      sorted_with_nan q emb log =
      (Ok returned, (log ++ [AggregateCall vp; AggregateCall tp])%list) ∧
    Forall2 (fun e r => shows (doc e) r ∧ SearchResult.score r = score e ∧
                        SearchResult._id r = py_str float_str list_str (ident e))
      kept returned ∧
    (kept ++ dropped)%list ≡ₚ
      Dict.values (merge_text ts (merge_vector vs Dict.empty)) ∧
    length kept = Nat.min (Z.to_nat k) (length (kept ++ dropped)%list) ∧
    (∀ e e', e ∈ kept → e' ∈ dropped → (score e' <=? score e)%float = true) ∧
    (∀ r id, r ∈ (vr ++ tr)%list → r !! "_id" = Some id →
             ∃ e, e ∈ (kept ++ dropped)%list ∧ py_eq (ident e) id = true).
Proof.
  intros Hk Hk0 Hvp Htp Hvr Htr Hs Hpres Hfv Hft.
  pose proof Hs as [Hsv Hst]%Forall_app.
  destruct (hybrid_search_run aggregate float_str list_str int_of_str
              float_of_str sorted_with_nan q emb log
              vp tp vr tr Hvp Htp Hvr Htr Hsv Hst)
    as (vs & ts & Hvs & Hts & Hkv & Hkt & Hav & Hat & Hlv & Hlt & Hrun).
  pose proof (merged_nan_free vr tr vs ts Hlv Hlt Hkv Hkt Hav Hat
                Hsv Hst Hfv Hft) as Hnan.
  set (m := merge_text ts (merge_vector vs Dict.empty)) in *.
  set (sorted_docs := sorted_desc (Dict.values m)).
  assert (ranked sorted_with_nan vs ts (top_k q) = take (Z.to_nat k) sorted_docs)
    as Hranked.
  { rewrite ranked_nan_free by done. rewrite Hk. unfold slice_to.
    by rewrite (proj2 (Z.leb_le 0 k) Hk0). }
  assert (Forall (fun e => presentable (doc e) = true)
            (take (Z.to_nat k) sorted_docs)) as Hrp.
  { apply Forall_forall. intros e He.
    assert (e ∈ Dict.values m) as Hin.
    { rewrite <- (sorted_desc_perm (Dict.values m)).
      fold sorted_docs. rewrite <- (take_drop (Z.to_nat k) sorted_docs).
      apply elem_of_app. by left. }
    apply merged_value_lookup in Hin as [id Hid]; [|done|done].
    apply (merged_entry_source vr tr vs ts Hlv Hlt Hkv Hkt) in Hid as [Hd _].
    rewrite Forall_forall in Hpres. by apply Hpres. }
  destruct (records_of_entries float_str list_str int_of_str float_of_str _ Hrp)
    as (returned & Hret & Hall).
  exists vs, ts, (take (Z.to_nat k) sorted_docs), (drop (Z.to_nat k) sorted_docs),
    returned.
  split; [done|]. split; [done|].
  split; [by rewrite Hrun, Hranked, Hret|]. split; [done|].
  rewrite take_drop. split; [apply sorted_desc_perm|].
  split; [apply length_take|]. split.
  - intros e e' He He'.
    apply (StronglySorted_app_1_elem_of desc (take (Z.to_nat k) sorted_docs)
             (drop (Z.to_nat k) sorted_docs)); [|done|done].
    rewrite take_drop. by apply sorted_desc_sorted.
  - intros r id Hr Hid.
    assert (keyable id = true) as Hkey.
    { rewrite Forall_forall in Hs. destruct (scorable_id "score" r (Hs r Hr))
        as (k' & Hk' & Hkey). congruence. }
    assert (∃ e, Dict.lookup id m = Some e) as [e He].
    { unfold m. rewrite (merged_lookup vs ts Hkv Hkt), Hlv, Hlt.
      unfold normalized. apply elem_of_app in Hr as [Hr|Hr].
      - destruct (latest_is_Some id vr r Hr Hid Hkey) as [r' ->]. simpl.
        destruct (latest id tr); simpl; by eexists.
      - destruct (latest_is_Some id tr r Hr Hid Hkey) as [r' ->]. simpl.
        destruct (latest id vr); simpl; by eexists. }
    exists e. split.
    + unfold sorted_docs. rewrite sorted_desc_perm. by apply lookup_elem in He.
    + apply (merged_entry_source vr tr vs ts Hlv Hlt Hkv Hkt) in He
        as (_ & k' & Hk' & Heq).
      unfold ident, get_none, get. by rewrite Hk'.
Qed.

(** Two results are requested from the scenario store, which knows three
    movies. *)
Lemma hybrid_returns_top_k_witness :
  ∃ kept dropped returned log',
    hybrid_search scenario_store scenario_float_str scenario_list_str
      scenario_int_of_str scenario_float_of_str scenario_sorted_with_nan
      (scenario_query "hybrid" 2) [1%Q] [] = (Ok returned, log') ∧
    length kept = Nat.min 2 (length (kept ++ dropped)%list) ∧
    (∀ e e', e ∈ kept → e' ∈ dropped → (score e' <=? score e)%float = true).
Proof.
  edestruct (hybrid_returns_top_k scenario_store scenario_float_str
               scenario_list_str scenario_int_of_str scenario_float_of_str
               scenario_sorted_with_nan (scenario_query "hybrid" 2) 2 [1%Q] [])
    as (vs & ts & kept & dropped & returned & _ & _ & Hrun & _ & _ & Hlen
        & Hbest & _);
    [reflexivity|discriminate|reflexivity|reflexivity|reflexivity|reflexivity
    |repeat constructor|repeat constructor|reflexivity|reflexivity|].
  exists kept, dropped, returned. eexists.
  split; [exact Hrun|]. split; [exact Hlen|exact Hbest].
Defined.

(** ** The order of the dictionaries *)

Lemma normalize_loop_keys f mn rg results acc d :
  normalize_loop results f mn rg acc = Ok d →
  Dict.keys d = first_occurrences_from (Dict.keys acc) (doc_ids results).
Proof.
  revert acc. induction results as [|r rest IH]; intros acc; simpl.
  - by intros [= <-].
  - unfold mbind, result_bind, setitem, getitem, get_none, get.
    destruct (r !! "_id") as [k|]; [|done].
    destruct (number_of (raw_score f r)) as [x|]; [|done].
    destruct (normalized_score_of x mn rg) as [s|]; [|done].
    destruct (hashable k); [|done].
    intros H. rewrite (IH _ H), keys_set, mem_keys.
    by destruct (existsb _ _).
Qed.

Lemma normalize_loop_keeps_keys f mn rg results acc d :
  normalize_loop results f mn rg acc = Ok d → well_keyed acc → well_keyed d.
Proof.
  revert acc. induction results as [|r rest IH]; intros acc; simpl.
  - by intros [= <-].
  - unfold mbind, result_bind, setitem.
    destruct (getitem r "_id") as [k|]; [|done].
    destruct (number_of (raw_score f r)) as [x|]; [|done].
    destruct (normalized_score_of x mn rg) as [s|]; [|done].
    destruct (hashable k); [|done].
    intros H Hacc. eapply IH; [exact H|]. by apply well_keyed_set.
Qed.

(** Whatever the normaliser returns has pairwise different keys. *)
Lemma normalize_scores_well_keyed f results d :
  normalize_scores results f = Ok d → well_keyed d.
Proof.
  destruct results as [|r0 rest]; [by intros [= <-]|].
  unfold normalize_scores, mbind, result_bind.
  destruct (collect_scores (r0 :: rest) f) as [scores|]; [|done].
  destruct (py_min scores) as [mn|]; [|done].
  destruct (py_max scores) as [mx|]; [|done].
  destruct (range_of mn mx) as [rg|]; [|done].
  intros H. by apply normalize_loop_keeps_keys in H.
Qed.

(** X6.  The mapping the normaliser returns lists the identities of the
    result list in the order of their first appearance, a repeated identity
    counted once: it never has more entries than the list has documents. *)
Theorem normalize_scores_keeps_first_appearance_order
    (results : list document) (f : string) (d : Dict.t scored) :
  normalize_scores results f = Ok d →
  Dict.keys d = first_occurrences (doc_ids results) ∧
  (length d <= length results)%nat.
Proof.
  intros Hd. assert (Dict.keys d = first_occurrences (doc_ids results)) as Hkeys.
  { destruct results as [|r0 rest]; [by injection Hd as <-|].
    unfold normalize_scores, mbind, result_bind in Hd.
    destruct (collect_scores (r0 :: rest) f) as [scores|]; [|done].
    destruct (py_min scores) as [mn|]; [|done].
    destruct (py_max scores) as [mx|]; [|done].
    destruct (range_of mn mx) as [rg|]; [|done].
    by apply normalize_loop_keys in Hd. }
  split; [done|].
  assert (∀ ids seen, (length (first_occurrences_from seen ids)
                       <= length seen + length ids)%nat) as Hlen.
  { induction ids as [|k ids IH]; intros seen; simpl; [lia|].
    destruct (existsb _ seen).
    - specialize (IH seen). lia.
    - specialize (IH (seen ++ [k])%list). rewrite length_app in IH. simpl in IH. lia. }
  unfold Dict.keys in Hkeys.
  rewrite <- (length_fmap fst d), Hkeys. unfold first_occurrences.
  specialize (Hlen (doc_ids results) []). unfold doc_ids in *.
  rewrite length_fmap in Hlen. simpl in Hlen. lia.
Qed.

(** The scenario vector results keep their order A, B. *)
Lemma normalize_scores_keeps_first_appearance_order_witness :
  ∃ d, normalize_scores scenario_vector "score" = Ok d ∧
       Dict.keys d = [VOid "A"; VOid "B"].
Proof.
  destruct (normalize_scores scenario_vector "score") as [d|] eqn:Hd;
    [|vm_compute in Hd; discriminate].
  exists d. split; [reflexivity|].
  exact (proj1 (normalize_scores_keeps_first_appearance_order
                  scenario_vector "score" d Hd)).
Defined.

Lemma merge_vector_keys vs acc :
  distinct (Dict.keys acc ++ Dict.keys vs) →
  Dict.keys (merge_vector vs acc) = (Dict.keys acc ++ Dict.keys vs)%list.
Proof.
  unfold merge_vector, Dict.items. revert acc.
  induction vs as [|[k0 v0] vs IH]; intros acc; simpl.
  - by rewrite app_nil_r.
  - intros Hd. pose proof (distinct_app_inv _ _ _ Hd) as Hfresh.
    apply lookup_None_keys in Hfresh.
    rewrite IH; rewrite keys_set; unfold Dict.mem; rewrite Hfresh.
    + by rewrite <- app_assoc.
    + by rewrite <- app_assoc.
Qed.

Lemma merge_text_keys ts acc :
  well_keyed ts →
  Dict.keys (merge_text ts acc) =
  (Dict.keys acc ++
   List.filter (fun k => negb (Dict.mem k acc)) (Dict.keys ts))%list.
Proof.
  unfold merge_text, Dict.items. revert acc.
  induction ts as [|[k0 t0] ts IH]; intros acc; simpl.
  - by rewrite app_nil_r.
  - intros [Hk0 Hts]. rewrite IH by done.
    destruct (Dict.mem k0 acc) eqn:Hm; simpl.
    + rewrite keys_alter. f_equal. apply List.filter_ext.
      intros k. by rewrite mem_alter.
    + rewrite keys_set, Hm, <- app_assoc. simpl. do 2 f_equal.
      apply List.filter_ext_in. intros k Hk. rewrite mem_set.
      apply lookup_None_keys in Hk0. rewrite Forall_forall in Hk0.
      apply list_elem_of_In in Hk. specialize (Hk0 k Hk).
      rewrite py_eq_sym in Hk0. by rewrite Hk0.
Qed.

(** X7.  For two result lists the normaliser accepts, the merged map lists
    the vector-side identities in their order, followed by the identities
    only the text side has, in their order.  When no merged score is a NaN,
    the ranked list breaks ties by that order: for every score, the returned
    entries whose score equals it as a float are the first ones, in the same
    order, of the merged entries with such a score. *)
Theorem hybrid_ties_keep_merge_order
    (sorted_with_nan : list scored → list scored)
    (vr tr : list document) (vs ts : Dict.t scored) (k : option Z) (s : float) :
  normalize_scores vr "score" = Ok vs →
  normalize_scores tr "score" = Ok ts →
  Dict.keys (merge_text ts (merge_vector vs Dict.empty)) =
    (Dict.keys vs ++
     List.filter (fun id => negb (Dict.mem id vs)) (Dict.keys ts))%list ∧
  (nan_free (Dict.values (merge_text ts (merge_vector vs Dict.empty))) →
   List.filter (fun e => (score e =? s)%float) (ranked sorted_with_nan vs ts k)
     `prefix_of`
     List.filter (fun e => (score e =? s)%float)
       (Dict.values (merge_text ts (merge_vector vs Dict.empty)))).
Proof.
  intros Hvs Hts.
  apply normalize_scores_well_keyed in Hvs as Hkv.
  apply normalize_scores_well_keyed in Hts as Hkt.
  split.
  - rewrite merge_text_keys by done.
    assert (Dict.keys (merge_vector vs Dict.empty) = Dict.keys vs) as Hk.
    { rewrite merge_vector_keys; [done|]. simpl. by apply well_keyed_distinct. }
    rewrite Hk. f_equal. apply List.filter_ext. intros id.
    by rewrite !mem_keys, Hk.
  - intros Hnan. rewrite ranked_nan_free by done.
    rewrite <- (sorted_desc_stable s (Dict.values _)).
    destruct (slice_to_prefix (sorted_desc (Dict.values
      (merge_text ts (merge_vector vs Dict.empty)))) k) as [rest Hrest].
    rewrite Hrest at 2. rewrite List.filter_app. by eexists.
Qed.

(** A and B tie on the vector side, C and D on the text side; three results
    are requested. *)
Lemma hybrid_ties_keep_merge_order_witness :
  (SearchResult._id <$>
     match fst (hybrid_search tied_store scenario_float_str scenario_list_str
                  scenario_int_of_str scenario_float_of_str
                  scenario_sorted_with_nan (scenario_query "hybrid" 3) [1%Q] [])
     with
     | Ok returned => returned
     | Raise _ => []
     end) = ["A"; "B"; "C"] ∧
  ∃ vs ts,
    normalize_scores tied_vector "score" = Ok vs ∧
    normalize_scores tied_text "score" = Ok ts ∧
    Dict.keys (merge_text ts (merge_vector vs Dict.empty)) =
      [VOid "A"; VOid "B"; VOid "C"; VOid "D"] ∧
    (ident <$> ranked scenario_sorted_with_nan vs ts (Some 3%Z)) =
      [VOid "A"; VOid "B"; VOid "C"].
Proof.
  split; [vm_compute; reflexivity|].
  destruct (normalize_scores tied_vector "score") as [vs|] eqn:Hvs;
    [|vm_compute in Hvs; discriminate].
  destruct (normalize_scores tied_text "score") as [ts|] eqn:Hts;
    [|vm_compute in Hts; discriminate].
  exists vs, ts. split; [reflexivity|]. split; [reflexivity|].
  rewrite (proj1 (hybrid_ties_keep_merge_order scenario_sorted_with_nan
                    _ _ vs ts None 0%float Hvs Hts)).
  vm_compute in Hvs, Hts. injection Hvs as <-. injection Hts as <-.
  split; vm_compute; reflexivity.
Defined.

(** ** Failures *)

(** X8.  A hybrid search has no partial results.  When the store fails on the
    vector pipeline, the search raises that error and the text pipeline is
    never sent; when it fails on the text pipeline, the search raises that
    error after both calls, whatever the vector search had returned. *)
Theorem hybrid_store_failure_propagates
    (aggregate : pipeline → result (list document))
    (float_str : float → string) (list_str : list string → string)
    (int_of_str : string → option Z) (float_of_str : string → option float)
    (sorted_with_nan : list scored → list scored)
    (q : SearchQuery) (emb : list Q) (log : list call) (vp tp : pipeline) :
  build_pipeline (with_type q "vector") emb = Ok vp →
  build_pipeline (with_type q "text") emb = Ok tp →
  (∀ e, aggregate vp = Raise e →
        hybrid_search aggregate float_str list_str int_of_str float_of_str
          sorted_with_nan q emb log =
        (Raise e, (log ++ [AggregateCall vp])%list)) ∧
  (∀ vr e, aggregate vp = Ok vr → aggregate tp = Raise e →
        hybrid_search aggregate float_str list_str int_of_str float_of_str
          sorted_with_nan q emb log =
        (Raise e, (log ++ [AggregateCall vp; AggregateCall tp])%list)).
Proof.
  intros Hvp Htp.
  unfold hybrid_search, mbind, M_bind, lift, collection_aggregate.
  rewrite Hvp, Htp. split.
  - intros e He. by rewrite He.
  - intros vr e Hvr He. rewrite Hvr, He. by rewrite <- app_assoc.
Qed.

(** A store without its vector index, and one without its text index. *)
Lemma hybrid_store_failure_propagates_witness :
  (∃ vp,
     hybrid_search vector_down_store scenario_float_str scenario_list_str
       scenario_int_of_str scenario_float_of_str scenario_sorted_with_nan
       (scenario_query "hybrid" 5) [1%Q] [] =
     (Raise (StoreError "vector index down"), [AggregateCall vp])) ∧
  (∃ vp tp,
     hybrid_search text_down_store scenario_float_str scenario_list_str
       scenario_int_of_str scenario_float_of_str scenario_sorted_with_nan
       (scenario_query "hybrid" 5) [1%Q] [] =
     (Raise (StoreError "text index down"), [AggregateCall vp; AggregateCall tp])).
Proof.
  split.
  - eexists.
    refine (proj1 (hybrid_store_failure_propagates vector_down_store
              scenario_float_str scenario_list_str scenario_int_of_str
              scenario_float_of_str scenario_sorted_with_nan
              (scenario_query "hybrid" 5)
              [1%Q] [] _ _ eq_refl eq_refl) _ eq_refl).
  - do 2 eexists.
    refine (proj2 (hybrid_store_failure_propagates text_down_store
              scenario_float_str scenario_list_str scenario_int_of_str
              scenario_float_of_str scenario_sorted_with_nan
              (scenario_query "hybrid" 5)
              [1%Q] [] _ _ eq_refl eq_refl) _ _ eq_refl eq_refl).
Defined.

Lemma collect_scores_TypeError results f :
  Exists (fun r => as_number (raw_score f r) = None) results →
  collect_scores results f = Raise TypeError.
Proof.
  induction results as [|r rest IH]; intros Hex; [by inversion Hex|].
  simpl. unfold mbind, result_bind, number_of.
  destruct (as_number (raw_score f r)) as [x|] eqn:Hx; [|done].
  apply Exists_cons in Hex as [Hr|Hrest]; [congruence|].
  by rewrite (IH Hrest).
Qed.

(** X9.  A result list in which some document has a score that is not a
    number makes the normaliser raise [TypeError], wherever the document
    stands and whether or not the documents have an [_id]: no mapping is
    returned for the rest. *)
Theorem normalize_scores_rejects_non_numeric_score
    (results : list document) (f : string) :
  Exists (fun r => as_number (raw_score f r) = None) results →
  normalize_scores results f = Raise TypeError.
Proof.
  intros Hex. destruct results as [|r0 rest]; [by inversion Hex|].
  unfold normalize_scores, mbind, result_bind.
  by rewrite (collect_scores_TypeError _ _ Hex).
Qed.

(** A string score in a document that has no [_id] either. *)
Lemma normalize_scores_rejects_non_numeric_score_witness :
  normalize_scores string_scored "score" = Raise TypeError.
Proof.
  apply normalize_scores_rejects_non_numeric_score.
  apply Exists_cons_tl, Exists_cons_hd. reflexivity.
Defined.

(** The first element bounds the extrema of a list that starts with a
    number; the extrema of a list that starts with a NaN are that NaN. *)
Lemma fold_min_first (l : list float) (x : float) :
  is_nan x = false →
  (fold_left (fun m y => if (y <? m)%float then y else m) l x <=? x)%float = true.
Proof.
  revert x. induction l as [|y l IH]; intros x Hx; simpl; [by apply leb_refl|].
  destruct (y <? x)%float eqn:Hlt; [|by apply IH].
  destruct (ltb_not_nan _ _ Hlt) as [Hy _].
  apply leb_trans with y; [by apply IH|by apply ltb_leb].
Qed.

Lemma fold_max_first (l : list float) (x : float) :
  is_nan x = false →
  (x <=? fold_left (fun m y => if (m <? y)%float then y else m) l x)%float = true.
Proof.
  revert x. induction l as [|y l IH]; intros x Hx; simpl; [by apply leb_refl|].
  destruct (x <? y)%float eqn:Hlt; [|by apply IH].
  destruct (ltb_not_nan _ _ Hlt) as [_ Hy].
  apply leb_trans with y; [by apply ltb_leb|by apply IH].
Qed.

Lemma ltb_nan_l (x y : float) : is_nan x = true → (x <? y)%float = false.
Proof.
  intros Hx. destruct (x <? y)%float eqn:Hlt; [|done].
  destruct (ltb_not_nan _ _ Hlt). congruence.
Qed.

Lemma ltb_nan_r (x y : float) : is_nan y = true → (x <? y)%float = false.
Proof.
  intros Hy. destruct (x <? y)%float eqn:Hlt; [|done].
  destruct (ltb_not_nan _ _ Hlt). congruence.
Qed.

Lemma fold_min_nan (l : list float) (x : float) :
  is_nan x = true →
  fold_left (fun m y => if (y <? m)%float then y else m) l x = x.
Proof.
  intros Hx. induction l as [|y l IH]; simpl; [done|].
  by rewrite (ltb_nan_r y x Hx).
Qed.

Lemma fold_max_nan (l : list float) (x : float) :
  is_nan x = true →
  fold_left (fun m y => if (m <? y)%float then y else m) l x = x.
Proof.
  intros Hx. induction l as [|y l IH]; simpl; [done|].
  by rewrite (ltb_nan_l x y Hx).
Qed.

(** The divisor is not zero for any list of floats, finite or not. *)
Lemma range_of_floats_nonzero (l : list float) :
  l ≠ [] → ((max_float l - min_float l + epsilon) =? 0)%float = false.
Proof.
  destruct l as [|x l]; [done|]. intros _. simpl.
  destruct (is_nan x) eqn:Hx.
  - rewrite fold_min_nan, fold_max_nan by done.
    rewrite FloatAxioms.eqb_spec, add_spec, sub_spec.
    apply is_nan_exact in Hx. unfold float_exact in Hx.
    by destruct (Prim2SF x) as [s|[|]| |[|] m e].
  - apply range_nonzero. apply leb_trans with x;
      [by apply fold_min_first|by apply fold_max_first].
Qed.

Lemma float_scores_collected f results :
  Forall (fun r => ∀ v, r !! f = Some v → ∃ x, v = VFloat x) results →
  collect_scores results f = Ok (Float <$> (raw_number f <$> results)).
Proof.
  induction 1 as [|r rest Hr _ IH]; simpl; [done|].
  unfold mbind, result_bind. rewrite IH.
  unfold number_of, raw_score, raw_number, get.
  destruct (r !! f) as [v|]; [|done].
  by destruct (Hr v eq_refl) as [x ->].
Qed.

Lemma normalize_loop_KeyError f mn rg results acc :
  (rg =? 0)%float = false →
  Forall (fun r => ∀ v, r !! f = Some v → ∃ x, v = VFloat x) results →
  Forall (fun r => ∀ k, r !! "_id" = Some k → hashable k = true) results →
  Exists (fun r => r !! "_id" = None) results →
  normalize_loop results f (Float mn) rg acc = Raise (KeyError "_id").
Proof.
  intros Hrg Hnum Hhash Hex. revert acc.
  induction results as [|r rest IH]; intros acc; [by inversion Hex|].
  apply Forall_cons in Hnum as [Hx Hnum].
  apply Forall_cons in Hhash as [Hh Hhash].
  simpl. unfold mbind, result_bind, getitem, setitem.
  destruct (r !! "_id") as [k|] eqn:Hk; [|done].
  assert (∃ x, number_of (raw_score f r) = Ok (Float x)) as [x ->].
  { unfold number_of, raw_score, get. destruct (r !! f) as [v|]; [|by eexists].
    destruct (Hx v eq_refl) as [x ->]. by eexists. }
  rewrite normalized_score_of_floats by done. rewrite (Hh k eq_refl).
  apply Exists_cons in Hex as [?|Hex]; [congruence|]. by apply IH.
Qed.

(** X10.  When every score is a float or absent and every [_id] that is
    present is hashable, a document without [_id] makes the normaliser raise
    [KeyError] for the key [_id]; the floats need not be finite. *)
Theorem normalize_scores_requires_id (results : list document) (f : string) :
  Forall (fun r => ∀ v, r !! f = Some v → ∃ x, v = VFloat x) results →
  Forall (fun r => ∀ k, r !! "_id" = Some k → hashable k = true) results →
  Exists (fun r => r !! "_id" = None) results →
  normalize_scores results f = Raise (KeyError "_id").
Proof.
  intros Hnum Hhash Hex. destruct results as [|r0 rest]; [by inversion Hex|].
  unfold normalize_scores, mbind, result_bind.
  rewrite (float_scores_collected _ _ Hnum).
  rewrite py_min_floats, py_max_floats by done. rewrite range_of_floats.
  apply normalize_loop_KeyError; try done.
  by apply (range_of_floats_nonzero (raw_number f <$> r0 :: rest)).
Qed.

(** A scored document without [_id] after a complete one. *)
Lemma normalize_scores_requires_id_witness :
  normalize_scores id_missing "score" = Raise (KeyError "_id").
Proof.
  apply normalize_scores_requires_id.
  - repeat constructor; intros v [= <-]; by eexists.
  - repeat constructor; intros k [= <-]; reflexivity.
  - apply Exists_cons_tl, Exists_cons_hd. reflexivity.
Defined.

(** ** Calls made by the dispatcher *)

(** X12.  Whatever the request and whatever the collaborators answer, the
    dispatcher first embeds the query text (also in text mode and for an
    invalid mode) and after that only queries the store: at most twice in
    hybrid mode and at most once otherwise. *)
Theorem search_documents_call_budget
    (encode : string → list Q) (aggregate : pipeline → result (list document))
    (float_str : float → string) (list_str : list string → string)
    (int_of_str : string → option Z) (float_of_str : string → option float)
    (sorted_with_nan : list scored → list scored)
    (q : SearchQuery) (log : list call) :
  ∃ calls,
    snd (search_documents encode aggregate float_str list_str int_of_str
           float_of_str sorted_with_nan q log) =
      (log ++ EncodeCall (query q) :: calls)%list ∧
    Forall (fun c => is_aggregate c = true) calls ∧
    (length calls <= if bool_decide (type q = Some "hybrid") then 2 else 1)%nat.
Proof.
  unfold search_documents, hybrid_search, mbind, M_bind, generate_embedding,
    lift, collection_aggregate, mret, M_ret.
  case_bool_decide.
  - destruct (build_pipeline (with_type q "vector") _) as [vp|];
      [|exists []; simpl; by auto].
    destruct (build_pipeline (with_type q "text") _) as [tp|];
      [|exists []; simpl; by auto].
    destruct (aggregate vp) as [vr|];
      [|exists [AggregateCall vp]; rewrite <- app_assoc; simpl; by auto].
    assert ((((log ++ [EncodeCall (query q)]) ++ [AggregateCall vp]) ++
             [AggregateCall tp])%list =
            (log ++ EncodeCall (query q) :: [AggregateCall vp; AggregateCall tp])%list)
      as Hlog by (by rewrite <- !app_assoc).
    exists [AggregateCall vp; AggregateCall tp].
    destruct (aggregate tp) as [tr|]; [|simpl; rewrite Hlog; by auto].
    destruct (normalize_scores vr "score") as [vs|];
      [|simpl; rewrite Hlog; by auto].
    destruct (normalize_scores tr "score") as [ts|];
      simpl; rewrite Hlog; by auto.
  - destruct (build_pipeline q _) as [p|]; [|exists []; simpl; by auto].
    exists [AggregateCall p].
    destruct (aggregate p) as [rs|]; simpl; rewrite <- app_assoc; simpl; by auto.
Qed.

(** ** The search endpoint *)

(** X13.  The search endpoint answers a request with an integer [top_k] and
    a mode other than [vector], [text] and [hybrid] with status 400 and the
    detail [Invalid search type]; its only call was the embedding of the
    query text. *)
Theorem search_endpoint_rejects_invalid_mode
    (encode : string → list Q) (aggregate : pipeline → result (list document))
    (float_str : float → string) (list_str : list string → string)
    (int_of_str : string → option Z) (float_of_str : string → option float)
    (sorted_with_nan : list scored → list scored)
    (validation_str : list string → string)
    (q : SearchQuery) (k : Z) (log : list call) :
  top_k q = Some k →
  type q ≠ Some "vector" → type q ≠ Some "text" → type q ≠ Some "hybrid" →
  Api.search encode aggregate float_str list_str int_of_str float_of_str
    sorted_with_nan validation_str q log =
  (Refuse {| status_code := 400; detail := "Invalid search type" |},
   (log ++ [EncodeCall (query q)])%list).
Proof.
  intros Hk Hv Ht Hh.
  unfold Api.search, search_documents, mbind, M_bind, generate_embedding, lift,
    build_pipeline.
  rewrite Hk. by rewrite !bool_decide_eq_false_2.
Qed.

(** The mode [fuzzy]. *)
Lemma search_endpoint_rejects_invalid_mode_witness :
  Api.search scenario_encode scenario_store scenario_float_str scenario_list_str
    scenario_int_of_str scenario_float_of_str scenario_sorted_with_nan
    scenario_validation_str (scenario_query "fuzzy" 5) [] =
  (Refuse {| status_code := 400; detail := "Invalid search type" |},
   [EncodeCall "space"]).
Proof.
  exact (search_endpoint_rejects_invalid_mode scenario_encode scenario_store
           scenario_float_str scenario_list_str scenario_int_of_str
           scenario_float_of_str scenario_sorted_with_nan scenario_validation_str
           (scenario_query "fuzzy" 5) 5 []
           eq_refl ltac:(discriminate) ltac:(discriminate) ltac:(discriminate)).
Defined.

(** X14.  When the store finds no document for any pipeline, the search
    endpoint answers a vector, text or hybrid request with an integer [top_k]
    with status 404 and the detail [No results found], not with an empty
    list. *)
Theorem search_endpoint_reports_no_results
    (encode : string → list Q) (aggregate : pipeline → result (list document))
    (float_str : float → string) (list_str : list string → string)
    (int_of_str : string → option Z) (float_of_str : string → option float)
    (sorted_with_nan : list scored → list scored)
    (validation_str : list string → string)
    (q : SearchQuery) (k : Z) (log : list call) :
  (∀ p, aggregate p = Ok []) →
  top_k q = Some k →
  type q = Some "vector" ∨ type q = Some "text" ∨ type q = Some "hybrid" →
  fst (Api.search encode aggregate float_str list_str int_of_str float_of_str
         sorted_with_nan validation_str q log) =
  Refuse {| status_code := 404; detail := "No results found" |}.
Proof.
  intros Hagg Hk Hmode.
  unfold Api.search, search_documents, hybrid_search, mbind, M_bind,
    generate_embedding, lift, collection_aggregate, build_pipeline.
  simpl. rewrite Hk.
  destruct Hmode as [Hq|[Hq|Hq]]; rewrite Hq; simpl; rewrite ?Hagg; simpl;
    rewrite ?Hagg; simpl; try reflexivity.
  unfold ranked, sorted_by_score. simpl.
  destruct (0 <=? k)%Z; by rewrite ?take_nil.
Qed.

(** The scenario requests against an empty store. *)
Lemma search_endpoint_reports_no_results_witness :
  fst (Api.search scenario_encode empty_store scenario_float_str scenario_list_str
         scenario_int_of_str scenario_float_of_str scenario_sorted_with_nan
         scenario_validation_str (scenario_query "hybrid" 5) []) =
  Refuse {| status_code := 404; detail := "No results found" |}.
Proof.
  apply (search_endpoint_reports_no_results scenario_encode empty_store
           scenario_float_str scenario_list_str scenario_int_of_str
           scenario_float_of_str scenario_sorted_with_nan scenario_validation_str
           (scenario_query "hybrid" 5) 5 []);
    [reflexivity|reflexivity|by right; right].
Defined.

(** X15.  A request whose [top_k] is [None] is answered in no mode with a
    400 or a 404: after the embedding call the [TypeError] of
    [query.top_k * 20] leaves the endpoint, and the store is not queried. *)
Theorem search_endpoint_null_count_escapes
    (encode : string → list Q) (aggregate : pipeline → result (list document))
    (float_str : float → string) (list_str : list string → string)
    (int_of_str : string → option Z) (float_of_str : string → option float)
    (sorted_with_nan : list scored → list scored)
    (validation_str : list string → string)
    (q : SearchQuery) (log : list call) :
  top_k q = None →
  Api.search encode aggregate float_str list_str int_of_str float_of_str
    sorted_with_nan validation_str q log =
  (Escape TypeError, (log ++ [EncodeCall (query q)])%list).
Proof.
  intros Hk.
  unfold Api.search, search_documents, hybrid_search, mbind, M_bind,
    generate_embedding, lift, build_pipeline.
  simpl. rewrite Hk. by case_bool_decide.
Qed.

(** The scenario hybrid request without a count. *)
Lemma search_endpoint_null_count_escapes_witness :
  Api.search scenario_encode scenario_store scenario_float_str scenario_list_str
    scenario_int_of_str scenario_float_of_str scenario_sorted_with_nan
    scenario_validation_str null_count_query [] =
  (Escape TypeError, [EncodeCall "space"]).
Proof.
  exact (search_endpoint_null_count_escapes scenario_encode scenario_store
           scenario_float_str scenario_list_str scenario_int_of_str
           scenario_float_of_str scenario_sorted_with_nan scenario_validation_str
           null_count_query [] eq_refl).
Defined.

(** ** Create, read, update and delete *)

Lemma model_dump_set_fullplot (movie : MovieUpdate.t) :
  MovieUpdate.model_dump_set movie !! "fullplot" =
  match MovieUpdate.fullplot movie with
  | MovieUpdate.Unset => None
  | MovieUpdate.Assigned None => Some (Plain VNone)
  | MovieUpdate.Assigned (Some s) => Some (Plain (VStr s))
  end.
Proof.
  unfold MovieUpdate.model_dump_set, MovieUpdate.dump_field.
  destruct (MovieUpdate.fullplot movie) as [|[s|]],
    (MovieUpdate.title movie) as [|[t|]]; by simplify_map_eq.
Qed.

Lemma model_dump_set_embedding (movie : MovieUpdate.t) :
  MovieUpdate.model_dump_set movie !! "embedding" = None.
Proof.
  unfold MovieUpdate.model_dump_set, MovieUpdate.dump_field.
  destruct (MovieUpdate.fullplot movie) as [|[s|]],
    (MovieUpdate.title movie) as [|[t|]]; by simplify_map_eq.
Qed.

(** X16.  An update with a valid id keeps the stored embedding in step with
    the plot.  When the update assigns a plot text, the model is asked for
    the embedding of that text and the [$set] document sent to the
    collection holds the text and its embedding; when the update leaves the
    plot unset, the model is not asked and the [$set] document has neither a
    plot nor an embedding.  The function returns whether the collection
    matched a document. *)
Theorem update_movie_doc_embedding_in_step
    (encode : string → list Q) (encode_other : stored → result (list Q))
    (ObjectId : string → result string)
    (update_one : document → movie_document → result Z)
    (movie_id hex : string) (movie : MovieUpdate.t) (log : list store_call) :
  ObjectId movie_id = Ok hex →
  (∀ text, MovieUpdate.fullplot movie = MovieUpdate.Assigned (Some text) →
     ∃ set_fields,
       update_movie_doc encode encode_other ObjectId update_one movie_id movie log =
         ((fun n => (0 <? n)%Z) <$> update_one (by_id hex) set_fields,
          (log ++ [ServiceCall (EncodeCall text);
                   UpdateOne (by_id hex) set_fields])%list) ∧
       set_fields !! "fullplot" = Some (Plain (VStr text)) ∧
       set_fields !! "embedding" = Some (Vector (encode text))) ∧
  (MovieUpdate.fullplot movie = MovieUpdate.Unset →
     ∃ set_fields,
       update_movie_doc encode encode_other ObjectId update_one movie_id movie log =
         ((fun n => (0 <? n)%Z) <$> update_one (by_id hex) set_fields,
          (log ++ [UpdateOne (by_id hex) set_fields])%list) ∧
       set_fields !! "fullplot" = None ∧
       set_fields !! "embedding" = None).
Proof.
  intros Hid. split.
  - intros text Hplot.
    exists (<["embedding" := Vector (encode text)]>
              (MovieUpdate.model_dump_set movie)).
    split; [|split].
    + unfold update_movie_doc, mbind, Crud_bind, embed_field, service_step,
        generate_embedding, pure_step, collection_update_one, mret, Crud_ret.
      rewrite model_dump_set_fullplot, Hplot. simpl. rewrite Hid.
      rewrite <- app_assoc. simpl.
      by destruct (update_one _ _).
    + rewrite lookup_insert_ne by done.
      by rewrite model_dump_set_fullplot, Hplot.
    + by rewrite lookup_insert_eq.
  - intros Hplot. exists (MovieUpdate.model_dump_set movie).
    split; [|split].
    + unfold update_movie_doc, mbind, Crud_bind, pure_step,
        collection_update_one, mret, Crud_ret.
      rewrite model_dump_set_fullplot, Hplot. simpl. rewrite Hid.
      by destruct (update_one _ _).
    + by rewrite model_dump_set_fullplot, Hplot.
    + apply model_dump_set_embedding.
Qed.

(** The plot of Alien is replaced. *)
Lemma update_movie_doc_embedding_in_step_witness :
  ∃ set_fields,
    update_movie_doc scenario_encode scenario_encode_other scenario_object_id
      scenario_update_one alien_id plot_update [] =
    (Ok true, [ServiceCall (EncodeCall "A crew meets a cat.");
               UpdateOne (by_id alien_id) set_fields]) ∧
    set_fields !! "embedding" = Some (Vector [1%Q]).
Proof.
  destruct (proj1 (update_movie_doc_embedding_in_step scenario_encode
              scenario_encode_other scenario_object_id scenario_update_one
              alien_id alien_id plot_update [] eq_refl)
              "A crew meets a cat." eq_refl)
    as (set_fields & Hrun & _ & Hemb).
  exists set_fields. split; [exact Hrun|exact Hemb].
Defined.

(** X17.  With an id that [ObjectId] rejects, no request reaches the
    collection.  Reading and deleting raise the id's exception before any
    call.  Updating makes exactly the calls for the embedding of an assigned
    plot and nothing after them: it raises the id's exception, unless the
    plot was assigned [None] and the embedding model raised on it first. *)
Theorem invalid_id_sends_no_store_request
    (encode : string → list Q) (encode_other : stored → result (list Q))
    (ObjectId : string → result string)
    (find_one : document → result (option movie_document))
    (update_one : document → movie_document → result Z)
    (delete_one : document → result Z)
    (float_str : float → string) (list_str : list string → string)
    (vector_str : list Q → string)
    (movie_id : string) (e : exn) (log : list store_call) :
  ObjectId movie_id = Raise e →
  get_movie_doc ObjectId find_one float_str list_str vector_str movie_id log =
    (Raise e, log) ∧
  delete_movie_doc ObjectId delete_one movie_id log = (Raise e, log) ∧
  ∀ movie,
    update_movie_doc encode encode_other ObjectId update_one movie_id movie log =
      (Raise match MovieUpdate.fullplot movie, encode_other (Plain VNone) with
             | MovieUpdate.Assigned None, Raise e' => e'
             | _, _ => e
             end,
       (log ++ embedding_calls movie)%list) ∧
    Forall (fun c => is_store_request c = false) (embedding_calls movie) ∧
    (length (embedding_calls movie) <= 1)%nat.
Proof.
  intros Hid. split; [|split].
  - unfold get_movie_doc, mbind, Crud_bind, pure_step. by rewrite Hid.
  - unfold delete_movie_doc, mbind, Crud_bind, pure_step. by rewrite Hid.
  - intros movie. split.
    + unfold update_movie_doc, mbind, Crud_bind, pure_step, mret, Crud_ret.
      rewrite model_dump_set_fullplot. unfold embedding_calls.
      destruct (MovieUpdate.fullplot movie) as [|[text|]].
      * rewrite Hid. by rewrite app_nil_r.
      * unfold embed_field, service_step, generate_embedding. simpl.
        by rewrite Hid.
      * unfold embed_field. destruct (encode_other (Plain VNone)) as [emb|e'];
          [by rewrite Hid|done].
    + unfold embedding_calls.
      destruct (MovieUpdate.fullplot movie) as [|[text|]]; simpl;
        split; repeat constructor.
Qed.

(** An id of three characters: reading raises before any call, and the
    update of the plot raises after its embedding call. *)
Lemma invalid_id_sends_no_store_request_witness :
  get_movie_doc scenario_object_id scenario_find_one scenario_float_str
    scenario_list_str scenario_vector_str "abc" [] =
  (Raise (StoreError "InvalidId"), []) ∧
  update_movie_doc scenario_encode scenario_encode_other scenario_object_id
    scenario_update_one "abc" plot_update [] =
  (Raise (StoreError "InvalidId"),
   [ServiceCall (EncodeCall "A crew meets a cat.")]).
Proof.
  pose proof (invalid_id_sends_no_store_request scenario_encode
           scenario_encode_other scenario_object_id scenario_find_one
           scenario_update_one scenario_delete_one scenario_float_str
           scenario_list_str scenario_vector_str "abc" _ [] eq_refl)
    as (Hget & _ & Hupdate).
  split; [exact Hget|exact (proj1 (Hupdate plot_update))].
Defined.

(** X18.  Reading by a valid id asks the collection once.  A found document
    with an [_id] is returned with that id as a string under the key [id],
    without the key [_id] and with every other field unchanged; when nothing
    is found the result is [None]. *)
Theorem get_movie_doc_renames_id
    (ObjectId : string → result string)
    (find_one : document → result (option movie_document))
    (float_str : float → string) (list_str : list string → string)
    (vector_str : list Q → string)
    (movie_id hex : string) (log : list store_call) :
  ObjectId movie_id = Ok hex →
  (∀ doc _id, find_one (by_id hex) = Ok (Some doc) → doc !! "_id" = Some _id →
     ∃ movie,
       get_movie_doc ObjectId find_one float_str list_str vector_str movie_id log =
         (Ok (Some movie), (log ++ [FindOne (by_id hex)])%list) ∧
       movie !! "id" =
         Some (Plain (VStr (stored_str float_str list_str vector_str _id))) ∧
       movie !! "_id" = None ∧
       ∀ key, key ≠ "id" → key ≠ "_id" → movie !! key = doc !! key) ∧
  (find_one (by_id hex) = Ok None →
     get_movie_doc ObjectId find_one float_str list_str vector_str movie_id log =
       (Ok None, (log ++ [FindOne (by_id hex)])%list)).
Proof.
  intros Hid. split.
  - intros doc _id Hfound H_id. eexists. split; [|split; [|split]].
    + unfold get_movie_doc, mbind, Crud_bind, pure_step, collection_find_one,
        mret, Crud_ret.
      rewrite Hid, Hfound. rewrite bool_decide_eq_false_2.
      * by rewrite H_id.
      * intros ->. by rewrite lookup_empty in H_id.
    + by rewrite lookup_insert_eq.
    + rewrite lookup_insert_ne by done. by rewrite lookup_delete_eq.
    + intros key Hk1 Hk2. rewrite lookup_insert_ne by done.
      by rewrite lookup_delete_ne.
  - intros Hfound.
    unfold get_movie_doc, mbind, Crud_bind, pure_step, collection_find_one,
      mret, Crud_ret.
    by rewrite Hid, Hfound.
Qed.

(** Alien is read back with its id as a string. *)
Lemma get_movie_doc_renames_id_witness :
  ∃ movie,
    get_movie_doc scenario_object_id scenario_find_one scenario_float_str
      scenario_list_str scenario_vector_str alien_id [] =
    (Ok (Some movie), [FindOne (by_id alien_id)]) ∧
    movie !! "id" = Some (Plain (VStr alien_id)) ∧
    movie !! "_id" = None ∧
    movie !! "title" = Some (Plain (VStr "Alien")).
Proof.
  destruct (proj1 (get_movie_doc_renames_id scenario_object_id scenario_find_one
              scenario_float_str scenario_list_str scenario_vector_str
              alien_id alien_id [] eq_refl)
              alien_stored (Plain (VOid alien_id)) eq_refl eq_refl)
    as (movie & Hrun & Hid & Hno & Hrest).
  exists movie. split; [exact Hrun|]. split; [exact Hid|]. split; [exact Hno|].
  rewrite Hrest by done. reflexivity.
Defined.

(** X19.  Creating a movie asks the model for the embedding of the plot and
    then inserts one document with exactly three fields: the title, the plot
    and that embedding.  The function returns the inserted id as a string
    under the key [id], or the collection's error. *)
Theorem create_movie_doc_embeds_plot
    (encode : string → list Q) (encode_other : stored → result (list Q))
    (insert_one : movie_document → result value)
    (float_str : float → string) (list_str : list string → string)
    (movie : MovieCreate.t) (log : list store_call) :
  ∃ doc,
    create_movie_doc encode encode_other insert_one float_str list_str movie log =
      ((fun inserted_id =>
          ({["id" := VStr (py_str float_str list_str inserted_id)]} : document))
         <$> insert_one doc,
       (log ++ [ServiceCall (EncodeCall (MovieCreate.fullplot movie));
                InsertOne doc])%list) ∧
    doc !! "title" = Some (Plain (VStr (MovieCreate.title movie))) ∧
    doc !! "fullplot" = Some (Plain (VStr (MovieCreate.fullplot movie))) ∧
    doc !! "embedding" = Some (Vector (encode (MovieCreate.fullplot movie))) ∧
    ∀ key, key ≠ "title" → key ≠ "fullplot" → key ≠ "embedding" →
           doc !! key = None.
Proof.
  exists (<["embedding" := Vector (encode (MovieCreate.fullplot movie))]>
            (MovieCreate.model_dump movie)).
  split; [|split; [|split; [|split]]].
  - unfold create_movie_doc, mbind, Crud_bind, pure_step, getfield,
      MovieCreate.model_dump, embed_field, service_step, generate_embedding,
      collection_insert_one, mret, Crud_ret.
    rewrite lookup_insert_ne by done. rewrite lookup_insert_eq. simpl.
    rewrite <- app_assoc. simpl.
    by destruct (insert_one _).
  - unfold MovieCreate.model_dump. by simplify_map_eq.
  - unfold MovieCreate.model_dump. by simplify_map_eq.
  - by simplify_map_eq.
  - intros key H1 H2 H3. unfold MovieCreate.model_dump. by simplify_map_eq.
Qed.

(** X20.  With a valid id, the read endpoint answers 404 when the collection
    finds nothing, and the delete endpoint answers with the message
    [Movie deleted] when the collection deleted a document and with 404 when
    it deleted none; each asked the collection once. *)
Theorem movie_endpoints_report_missing_movie
    (ObjectId : string → result string)
    (find_one : document → result (option movie_document))
    (delete_one : document → result Z)
    (float_str : float → string) (list_str : list string → string)
    (vector_str : list Q → string)
    (movie_id hex : string) (log : list store_call) :
  ObjectId movie_id = Ok hex →
  (find_one (by_id hex) = Ok None →
     MovieApi.get ObjectId find_one float_str list_str vector_str movie_id log =
       (Refuse MovieApi.not_found, (log ++ [FindOne (by_id hex)])%list)) ∧
  (∀ n, delete_one (by_id hex) = Ok n →
     MovieApi.delete ObjectId delete_one movie_id log =
       (if (0 <? n)%Z
        then Respond ({["message" := VStr "Movie deleted"]} : document)
        else Refuse MovieApi.not_found,
        (log ++ [DeleteOne (by_id hex)])%list)).
Proof.
  intros Hid. split.
  - intros Hfound.
    unfold MovieApi.get, MovieApi.handle, get_movie_doc, mbind, Crud_bind,
      pure_step, collection_find_one, mret, Crud_ret.
    by rewrite Hid, Hfound.
  - intros n Hn.
    unfold MovieApi.delete, MovieApi.handle, delete_movie_doc, mbind, Crud_bind,
      pure_step, collection_delete_one, mret, Crud_ret.
    by rewrite Hid, Hn.
Qed.

(** An unknown id of 24 characters is reported missing by both endpoints. *)
Lemma movie_endpoints_report_missing_movie_witness :
  fst (MovieApi.get scenario_object_id scenario_find_one scenario_float_str
         scenario_list_str scenario_vector_str "111111111111111111111111" []) =
    Refuse MovieApi.not_found ∧
  fst (MovieApi.delete scenario_object_id scenario_delete_one
         "111111111111111111111111" []) =
    Refuse MovieApi.not_found.
Proof.
  destruct (movie_endpoints_report_missing_movie scenario_object_id
              scenario_find_one scenario_delete_one scenario_float_str
              scenario_list_str scenario_vector_str
              "111111111111111111111111" "111111111111111111111111" [] eq_refl)
    as [Hget Hdel].
  split.
  - by rewrite (Hget eq_refl).
  - by rewrite (Hdel 0%Z eq_refl).
Defined.

(** ** Ingestion *)

Lemma extract_text_fullplot blank doc text doc' :
  extract_text blank doc = Done (text, doc') → doc' !! "fullplot" = Some text.
Proof.
  unfold extract_text, preprocess_document.
  destruct (doc !! "fullplot") as [v|] eqn:Hv.
  - destruct (truthy v).
    + destruct (strips_to_nothing blank v) as [[|]|]; intros [= <- <-].
      * by rewrite lookup_insert_eq.
      * by rewrite Hv.
    + intros [= <- <-]. by rewrite lookup_insert_eq.
  - intros [= <- <-]. by rewrite lookup_insert_eq.
Qed.

(** X21.  The text taken from a source document is its full plot when that
    is a string with something other than white space in it, and the
    document is left as it is; when the full plot is missing, empty or
    blank, the text is the plot (the empty string without one) and the
    document's full plot is overwritten with it. *)
Theorem extract_text_falls_back_to_plot (blank : string → bool)
    (doc : movie_document) :
  (∀ s, doc !! "fullplot" = Some (Plain (VStr s)) → s ≠ "" → blank s = false →
        extract_text blank doc = Done (Plain (VStr s), doc)) ∧
  (∀ s, doc !! "fullplot" = Some (Plain (VStr s)) → s = "" ∨ blank s = true →
        extract_text blank doc =
        Done (default (Plain (VStr "")) (doc !! "plot"),
              <["fullplot" := default (Plain (VStr "")) (doc !! "plot")]> doc)) ∧
  (doc !! "fullplot" = None →
        extract_text blank doc =
        Done (default (Plain (VStr "")) (doc !! "plot"),
              <["fullplot" := default (Plain (VStr "")) (doc !! "plot")]> doc)).
Proof.
  split; [|split].
  - intros s Hs Hne Hb. unfold extract_text, preprocess_document.
    rewrite Hs. simpl. rewrite bool_decide_eq_false_2 by done. simpl.
    by rewrite Hb, Hs.
  - intros s Hs Hb. unfold extract_text, preprocess_document.
    rewrite Hs. simpl. case_bool_decide; simpl.
    + by rewrite lookup_insert_eq.
    + destruct Hb as [?|Hb]; [done|]. rewrite Hb. by rewrite lookup_insert_eq.
  - intros Hs. unfold extract_text, preprocess_document.
    rewrite Hs. by rewrite lookup_insert_eq.
Qed.

Lemma ingest_document_calls blank encode find_one insert_one doc log :
  ∃ calls,
    snd (ingest_document blank encode find_one insert_one doc log) =
      (log ++ calls)%list ∧
    Forall (fun c => ∀ d, c = TargetInsertOne d →
              ∃ s, d !! "fullplot" = Some (Plain (VStr s)) ∧
                   blank s = false ∧
                   d !! "embedding" = Some (Vector (encode s))) calls ∧
    (length (List.filter is_insert calls) <= 1)%nat.
Proof.
  unfold ingest_document.
  destruct (doc !! "_id") as [_id|];
    [|exists []; simpl; split; [by rewrite app_nil_r|split; [constructor|lia]]].
  set (filter := ({["_id" := _id]} : movie_document)).
  assert (∃ calls : list ingest_call,
            (log ++ [TargetFindOne filter])%list = (log ++ calls)%list ∧
            Forall (fun c => ∀ d, c = TargetInsertOne d →
              ∃ s, d !! "fullplot" = Some (Plain (VStr s)) ∧
                   blank s = false ∧
                   d !! "embedding" = Some (Vector (encode s))) calls ∧
            (length (List.filter is_insert calls) <= 1)%nat) as Hone.
  { exists [TargetFindOne filter]. split; [done|]. split; [|simpl; lia].
    constructor; [|constructor]. by intros d. }
  destruct (find_one log filter) as [found|]; [|exact Hone].
  destruct (match found with
            | Some d => negb (bool_decide (d = ∅))
            | None => false
            end); [exact Hone|].
  destruct (extract_text blank doc) as [[text doc']|] eqn:Hx; [|exact Hone].
  destruct text as [[| | |s| |]|xs]; try exact Hone.
  destruct (blank s) eqn:Hb; [exact Hone|].
  apply extract_text_fullplot in Hx.
  set (d := <["embedding" := Vector (encode s)]> doc').
  exists [TargetFindOne filter; Embed s; TargetInsertOne d].
  split; [|split; [|simpl; lia]].
  - destruct (insert_one _ d); simpl; by rewrite <- !app_assoc.
  - repeat constructor; try by intros d'.
    intros d' [= <-]. exists s. unfold d.
    rewrite lookup_insert_ne by done. by rewrite lookup_insert_eq.
Qed.

(** X22.  Whatever the source cursor yields and whatever the target
    collection answers, every document the ingestion inserts has a full plot
    that is a string with something other than white space in it and the
    embedding of exactly that string; and it inserts at most one document
    per source document. *)
Theorem ingest_inserts_embedded_plots
    (blank : string → bool) (encode : string → list Q)
    (find_one :
       list ingest_call → movie_document → result (option movie_document))
    (insert_one : list ingest_call → movie_document → result value)
    (cursor : list movie_document) (log : list ingest_call) :
  ∃ calls,
    snd (ingest_new_collection blank encode find_one insert_one cursor log) =
      (log ++ calls)%list ∧
    Forall (fun c => ∀ d, c = TargetInsertOne d →
              ∃ s, d !! "fullplot" = Some (Plain (VStr s)) ∧
                   blank s = false ∧
                   d !! "embedding" = Some (Vector (encode s))) calls ∧
    (length (List.filter is_insert calls) <= length cursor)%nat.
Proof.
  revert log. induction cursor as [|doc rest IH]; intros log; simpl.
  - exists []. split; [by rewrite app_nil_r|split; [constructor|simpl; lia]].
  - destruct (ingest_document_calls blank encode find_one insert_one doc log)
      as (calls1 & Hlog1 & Hall1 & Hlen1).
    destruct (ingest_document blank encode find_one insert_one doc log)
      as [[[]|e] log1]; simpl in Hlog1; subst log1.
    + destruct (IH (log ++ calls1)%list) as (calls2 & Hlog2 & Hall2 & Hlen2).
      exists (calls1 ++ calls2)%list. split; [|split].
      * by rewrite Hlog2, app_assoc.
      * by apply Forall_app.
      * rewrite List.filter_app, length_app. lia.
    + exists calls1. split; [done|]. split; [done|]. lia.
Qed.

(** X23.  Documents the target collection already holds are left alone: when
    every lookup by the [_id] of a source document finds a document, the
    ingestion ends normally having made one lookup per source document and
    nothing else, so it computes no embedding and inserts nothing. *)
Theorem ingest_skips_documents_already_present
    (blank : string → bool) (encode : string → list Q)
    (find_one :
       list ingest_call → movie_document → result (option movie_document))
    (insert_one : list ingest_call → movie_document → result value)
    (cursor : list movie_document) (log : list ingest_call) :
  Forall (fun doc => is_Some (doc !! "_id") ∧
            ∀ history, ∃ d, find_one history (id_filter doc) = Ok (Some d) ∧
                            d ≠ ∅) cursor →
  ingest_new_collection blank encode find_one insert_one cursor log =
  (Done (),
   (log ++ ((fun doc => TargetFindOne (id_filter doc)) <$> cursor))%list).
Proof.
  intros Hall. revert log.
  induction Hall as [|doc rest [[_id Hid] Hfound] _ IH]; intros log; simpl.
  - by rewrite app_nil_r.
  - unfold ingest_document. rewrite Hid.
    destruct (Hfound log) as (d & Hd & Hne).
    unfold id_filter in Hd. rewrite Hid in Hd. simpl in Hd. rewrite Hd.
    rewrite bool_decide_eq_false_2 by done. simpl.
    rewrite IH, <- app_assoc. unfold id_filter at 2. by rewrite Hid.
Qed.

(** The target already holds every id it is asked for. *)
Lemma ingest_skips_documents_already_present_witness :
  ingest_new_collection scenario_blank scenario_encode always_found
    memory_insert_one [source_alien; source_alien] [] =
  (Done (), [TargetFindOne (id_filter source_alien);
             TargetFindOne (id_filter source_alien)]).
Proof.
  apply (ingest_skips_documents_already_present scenario_blank scenario_encode
           always_found memory_insert_one [source_alien; source_alien] []).
  repeat constructor; try (by eexists);
    intros history; exists alien_stored; split; try reflexivity;
    intros H; by apply (f_equal (fun m : movie_document => m !! "_id")) in H.
Defined.

(** A source document with a blank full plot is stored with its plot as the
    full plot, and its second appearance is skipped by a target that holds
    what was inserted. *)
Example ingest_twice_inserts_once :
  List.filter is_insert
    (snd (ingest_new_collection scenario_blank scenario_encode memory_find_one
            memory_insert_one [source_alien; source_alien] [])) =
  [TargetInsertOne
     (<["embedding" := Vector [1%Q]]>
        (<["fullplot" := Plain (VStr "A crew meets a creature.")]> source_alien))].
Proof. vm_compute. reflexivity. Qed.
